(** * my-agent: the tool-calling conversation loop

    A shallow embedding of [tools.py], [memory.py] and [agent.py].

    Conventions of the model.
    - A Python [str] is the list of its code points ([N]); [lit] turns a
      literal into one.  [bytes] are lists of octets, also held in [N].
    - Values whose type is only known at run time (what [json.loads] returns,
      the dictionaries the tools build) are values of [pyval].
    - An exception is a class and a message; a computation that may raise
      returns a [res].  Code with side effects runs in the monad [M]: it
      threads the [world] (file system, log of spawned processes, counters
      of provider and network requests) and stops at the first exception.
    - What lies outside the repository (the model provider, the PowerShell
      subprocess, the network, the interpreter's [repr]) is a field of the
      record [Host].
    - [pathlib] is modelled in its POSIX flavour on a file system that holds
      directories and regular files and no symbolic link, so that
      [Path.resolve] is the lexical normalisation of the path against the
      current directory.  Path strings are taken free of NUL characters.
    - Text files are read and written as on POSIX.  Where a line feed is
      stored as a carriage return and a line feed, as on Windows, what is
      read back differs only for a text that holds a carriage return. *)

From Stdlib Require Import ZArith NArith List String Ascii Lia DecimalString.
From stdpp Require Import base list gmap strings.

Open Scope N_scope.

(** ** Strings *)

Definition str := list N.

(** The literals of this file are ASCII, one code point per character. *)
Definition lit (s : string) : str := map N_of_ascii (list_ascii_of_string s).
Arguments lit s%_string.

Definition str_eqb (a b : str) : bool := bool_decide (a = b).

Definition str_in (x : str) (l : list str) : bool := existsb (str_eqb x) l.

Definition between (lo hi c : N) : bool := (lo <=? c) && (c <=? hi).

(** [str.isspace] for one code point; this is also the set [str.split()]
    and [str.strip()] work with, and the class [\s] of [re] on a [str]
    pattern. *)
Definition isspace (c : N) : bool :=
  between 9 13 c || between 28 32 c || (c =? 133) || (c =? 160)
  || (c =? 5760) || between 8192 8202 c || (c =? 8232) || (c =? 8233)
  || (c =? 8239) || (c =? 8287) || (c =? 12288).

Fixpoint lstrip_by (p : N -> bool) (s : str) : str :=
  match s with
  | c :: s' => if p c then lstrip_by p s' else s
  | [] => []
  end.

Definition rstrip_by (p : N -> bool) (s : str) : str :=
  rev (lstrip_by p (rev s)).

Definition strip_by (p : N -> bool) (s : str) : str :=
  rstrip_by p (lstrip_by p s).

(** [s.strip()] *)
Definition py_strip (s : str) : str := strip_by isspace s.

(** [s.strip(chars)] *)
Definition py_strip_chars (chars s : str) : str :=
  strip_by (fun c => existsb (N.eqb c) chars) s.

(** The longest prefix free of white space, and what follows it. *)
Fixpoint break_space (s : str) : str * str :=
  match s with
  | [] => ([], [])
  | c :: s' =>
      if isspace c then ([], s)
      else let '(tok, rest) := break_space s' in (c :: tok, rest)
  end.

(** [s.split()]: the maximal runs of characters that are not white space.
    [cur] is the run being read, last character first. *)
Fixpoint split_run (cur : str) (s : str) : list str :=
  match s with
  | [] => match cur with [] => [] | _ => [rev cur] end
  | c :: s' =>
      if isspace c
      then match cur with
           | [] => split_run [] s'
           | _ => rev cur :: split_run [] s'
           end
      else split_run (c :: cur) s'
  end.

Definition py_split (s : str) : list str := split_run [] s.

(** [s.split(maxsplit=1)]: the first run, then the remainder with its leading
    white space removed (and its trailing white space kept), if any. *)
Definition py_split_max1 (s : str) : list str :=
  match lstrip_by isspace s with
  | [] => []
  | s1 =>
      let '(tok, rest) := break_space s1 in
      match lstrip_by isspace rest with
      | [] => [tok]
      | rest' => [tok; rest']
      end
  end.

(** [sep.join(items)] *)
Fixpoint py_join (sep : str) (items : list str) : str :=
  match items with
  | [] => []
  | [x] => x
  | x :: rest => x ++ sep ++ py_join sep rest
  end.

(** [needle in hay] *)
Fixpoint starts_with (p s : str) : bool :=
  match p, s with
  | [], _ => true
  | a :: p', b :: s' => (a =? b) && starts_with p' s'
  | _ :: _, [] => false
  end.

Fixpoint contains (needle hay : str) : bool :=
  starts_with needle hay
  || match hay with
     | [] => false
     | _ :: hay' => contains needle hay'
     end.

(** Slices [l[start:]] and [l[:stop]]; a negative bound counts from the end
    and every bound is clamped to the sequence. *)
Definition slice_from {A} (start : Z) (l : list A) : list A :=
  let n := Z.of_nat (length l) in
  let i := if (start <? 0)%Z then Z.max (n + start) 0 else Z.min start n in
  drop (Z.to_nat i) l.

Definition slice_to {A} (stop : Z) (l : list A) : list A :=
  let n := Z.of_nat (length l) in
  let i := if (stop <? 0)%Z then Z.max (n + stop) 0 else Z.min stop n in
  take (Z.to_nat i) l.

(** [s.lower()].  The Unicode case table is written out for the code points
    below 256 and for the two above whose lower case reaches ASCII (U+0130
    and the Kelvin sign U+212A); every other code point is left in place,
    where Python may give another code point that is not ASCII either. *)
Definition lower_char (c : N) : str :=
  if between 65 90 c then [c + 32]
  else if between 192 222 c && negb (c =? 215) then [c + 32]
  else if c =? 304 then [105; 775]
  else if c =? 8490 then [107]
  else [c].

Definition py_lower (s : str) : str := flat_map lower_char s.

(** [str(n)] for an integer. *)
Definition digits_of_pos (p : positive) : str :=
  lit (NilEmpty.string_of_uint (Pos.to_uint p)).

Definition str_of_Z (z : Z) : str :=
  match z with
  | Z0 => lit "0"
  | Zpos p => digits_of_pos p
  | Zneg p => lit "-" ++ digits_of_pos p
  end.

(** [sorted(items)] on strings: code point order, by insertion. *)
Fixpoint str_leb (a b : str) : bool :=
  match a, b with
  | [], _ => true
  | _ :: _, [] => false
  | x :: a', y :: b' => (x <? y) || ((x =? y) && str_leb a' b')
  end.

Fixpoint insert_sorted (x : str) (l : list str) : list str :=
  match l with
  | [] => [x]
  | y :: l' => if str_leb x y then x :: l else y :: insert_sorted x l'
  end.

Definition py_sorted (l : list str) : list str :=
  fold_right insert_sorted [] l.

(** ** Run-time values and exceptions *)

(** A float is held as the decimal number that was read, [digits * 10^exp10]
    with its sign; Python rounds that number to a binary64. *)
Inductive pyfloat :=
| FNan
| FInf (neg : bool)
| FDec (neg : bool) (digits : N) (exp10 : Z).

#[warnings="-register-all"]
Inductive pyval :=
| VNone
| VBool (b : bool)
| VInt (z : Z)
| VFloat (f : pyfloat)
| VStr (s : str)
| VList (items : list pyval)
| VDict (entries : list (str * pyval)).

Inductive exn_class :=
| ValueError | JSONDecodeError | UnicodeDecodeError | UnicodeEncodeError
| OSError | FileNotFoundError | FileExistsError | IsADirectoryError
| NotADirectoryError | URLError
| AttributeError | TypeError | KeyError | IndexError
| TimeoutExpired | ProviderError.

Record exn := mkExn { exn_cls : exn_class; exn_msg : str }.

Inductive res (A : Type) :=
| Ok (a : A)
| Raise (e : exn).
Arguments Ok {A} a.
Arguments Raise {A} e.

(** [isinstance(e, base)] for the classes of an [except] clause. *)
Definition is_ValueError (c : exn_class) : bool :=
  match c with
  | ValueError | JSONDecodeError | UnicodeDecodeError | UnicodeEncodeError => true
  | _ => false
  end.

Definition is_TimeoutExpired (c : exn_class) : bool :=
  match c with
  | TimeoutExpired => true
  | _ => false
  end.

Definition is_OSError (c : exn_class) : bool :=
  match c with
  | OSError | FileNotFoundError | FileExistsError | IsADirectoryError
  | NotADirectoryError | URLError => true
  | _ => false
  end.

(** The name of the type of a value, as error messages print it. *)
Definition typename (v : pyval) : str :=
  match v with
  | VNone => lit "NoneType"
  | VBool _ => lit "bool"
  | VInt _ => lit "int"
  | VFloat _ => lit "float"
  | VStr _ => lit "str"
  | VList _ => lit "list"
  | VDict _ => lit "dict"
  end.

(** A decimal rounds to [0.0] when it is zero or at most half the least
    subnormal, [2^-1075]. *)
Definition float_is_zero (f : pyfloat) : bool :=
  match f with
  | FNan | FInf _ => false
  | FDec _ digits exp10 =>
      (digits =? 0)
      || ((exp10 <? 0)%Z
          && (Z.of_N digits * 2 ^ 1075 <=? 10 ^ (- exp10))%Z)
  end.

(** [bool(v)] *)
Definition truthy (v : pyval) : bool :=
  match v with
  | VNone => false
  | VBool b => b
  | VInt z => negb (z =? 0)%Z
  | VFloat f => negb (float_is_zero f)
  | VStr s => match s with [] => false | _ => true end
  | VList l => match l with [] => false | _ => true end
  | VDict d => match d with [] => false | _ => true end
  end.

(** [a or b] *)
Definition py_or (a b : pyval) : pyval := if truthy a then a else b.

Definition attribute_error (v : pyval) (attr : string) : exn :=
  mkExn AttributeError
    (lit "'" ++ typename v ++ lit "' object has no attribute '" ++ lit attr ++ lit "'").

(** Dictionaries keep their keys in insertion order. *)
Fixpoint dict_lookup (k : str) (d : list (str * pyval)) : option pyval :=
  match d with
  | [] => None
  | (k', v) :: d' => if str_eqb k k' then Some v else dict_lookup k d'
  end.

Fixpoint dict_set (k : str) (v : pyval) (d : list (str * pyval)) : list (str * pyval) :=
  match d with
  | [] => [(k, v)]
  | (k', v') :: d' =>
      if str_eqb k k' then (k, v) :: d' else (k', v') :: dict_set k v d'
  end.

(** [obj.get(key, default)] *)
Definition py_get (obj : pyval) (key : string) (default : pyval) : res pyval :=
  match obj with
  | VDict d => Ok (match dict_lookup (lit key) d with Some v => v | None => default end)
  | _ => Raise (attribute_error obj "get")
  end.

(** [obj[key]] for a string key. *)
Definition py_getitem (obj : pyval) (key : string) : res pyval :=
  match obj with
  | VDict d =>
      match dict_lookup (lit key) d with
      | Some v => Ok v
      | None => Raise (mkExn KeyError (lit "'" ++ lit key ++ lit "'"))
      end
  | VList _ =>
      Raise (mkExn TypeError (lit "list indices must be integers or slices, not str"))
  | VStr _ =>
      Raise (mkExn TypeError (lit "string indices must be integers, not 'str'"))
  | _ =>
      Raise (mkExn TypeError (lit "'" ++ typename obj ++ lit "' object is not subscriptable"))
  end.

(** [obj[start:]].  A dictionary has no slices: [TypeError] (a [KeyError]
    from Python 3.12 on). *)
Definition py_slice_from (obj : pyval) (start : Z) : res pyval :=
  match obj with
  | VList l => Ok (VList (slice_from start l))
  | VStr s => Ok (VStr (slice_from start s))
  | VDict _ => Raise (mkExn TypeError (lit "unhashable type: 'slice'"))
  | _ =>
      Raise (mkExn TypeError (lit "'" ++ typename obj ++ lit "' object is not subscriptable"))
  end.

(** ** [json.loads] and [json.dumps]

    The decoder follows the scanner of the standard library: white space is
    space, tab, line feed and carriage return; strings are strict (no raw
    control character); [NaN], [Infinity] and [-Infinity] are accepted; a
    repeated key keeps its first position and its last value.  [None] stands
    for [JSONDecodeError].  The two limits of [json.loads] whose exception
    is another one, the length of an integer and the depth of nesting, are
    not part of these functions: the statements that need them assume
    [within_loads_limits]. *)

Definition json_ws (c : N) : bool :=
  (c =? 32) || (c =? 9) || (c =? 10) || (c =? 13).

Definition skip_ws (s : str) : str := lstrip_by json_ws s.

Definition is_digit (c : N) : bool := between 48 57 c.

Definition hex_val (c : N) : option N :=
  if is_digit c then Some (c - 48)
  else if between 97 102 c then Some (c - 87)
  else if between 65 70 c then Some (c - 55)
  else None.

Definition hex4 (a b c d : N) : option N :=
  match hex_val a, hex_val b, hex_val c, hex_val d with
  | Some x, Some y, Some z, Some w => Some (((x * 16 + y) * 16 + z) * 16 + w)
  | _, _, _, _ => None
  end.

Definition simple_escape (c : N) : option N :=
  if c =? 34 then Some 34 else if c =? 92 then Some 92
  else if c =? 47 then Some 47 else if c =? 98 then Some 8
  else if c =? 102 then Some 12 else if c =? 110 then Some 10
  else if c =? 114 then Some 13 else if c =? 116 then Some 9
  else None.

(** The body of a string, after its opening quote; [acc] holds the characters
    read so far, last first. *)
Fixpoint scan_string (s : str) (acc : str) : option (str * str) :=
  match s with
  | [] => None
  | 34 :: rest => Some (rev acc, rest)
  | 92 :: rest =>
      match rest with
      | 117 :: a :: b :: c :: d :: rest' =>
          match hex4 a b c d with
          | None => None
          | Some u =>
              if between 55296 56319 u then
                match rest' with
                | 92 :: 117 :: e :: f :: g :: h :: rest'' =>
                    match hex4 e f g h with
                    | None => None
                    | Some u2 =>
                        if between 56320 57343 u2
                        then scan_string rest''
                               (65536 + (u - 55296) * 1024 + (u2 - 56320) :: acc)
                        else scan_string rest' (u :: acc)
                    end
                | _ => scan_string rest' (u :: acc)
                end
              else scan_string rest' (u :: acc)
          end
      | 117 :: _ => None
      | e :: rest' =>
          match simple_escape e with
          | Some c => scan_string rest' (c :: acc)
          | None => None
          end
      | [] => None
      end
  | c :: rest => if c <? 32 then None else scan_string rest (c :: acc)
  end.

Fixpoint span_digits (s : str) : str * str :=
  match s with
  | c :: s' =>
      if is_digit c then let '(ds, rest) := span_digits s' in (c :: ds, rest)
      else ([], s)
  | [] => ([], [])
  end.

Definition digits_value (ds : str) : N :=
  fold_left (fun acc c => acc * 10 + (c - 48)) ds 0.

(** The integer part: [0], or a digit from 1 to 9 followed by digits. *)
Definition scan_int_part (s : str) : option (str * str) :=
  match s with
  | c :: r =>
      if c =? 48 then Some ([48], r)
      else if between 49 57 c
           then let '(ds, rest) := span_digits r in Some (c :: ds, rest)
           else None
  | [] => None
  end.

(** A fraction is a dot and at least one digit; otherwise there is none and
    the dot is left in the input. *)
Definition scan_frac (s : str) : str * str :=
  match s with
  | 46 :: r =>
      match span_digits r with
      | ([], _) => ([], s)
      | (ds, rest) => (ds, rest)
      end
  | _ => ([], s)
  end.

(** An exponent is [e] or [E], an optional sign and at least one digit. *)
Definition scan_exp (s : str) : option Z * str :=
  match s with
  | c :: r =>
      if (c =? 101) || (c =? 69) then
        let '(neg, r1) :=
          match r with
          | 45 :: r' => (true, r')
          | 43 :: r' => (false, r')
          | _ => (false, r)
          end in
        match span_digits r1 with
        | ([], _) => (None, s)
        | (ds, rest) =>
            let e := Z.of_N (digits_value ds) in
            (Some (if neg then (- e)%Z else e), rest)
        end
      else (None, s)
  | [] => (None, s)
  end.

Definition scan_number (s : str) : option (pyval * str) :=
  let '(neg, s1) := match s with 45 :: r => (true, r) | _ => (false, s) end in
  match scan_int_part s1 with
  | None => None
  | Some (ip, r1) =>
      let '(fp, r2) := scan_frac r1 in
      let '(ex, r3) := scan_exp r2 in
      match fp, ex with
      | [], None =>
          let z := Z.of_N (digits_value ip) in
          Some (VInt (if neg then (- z)%Z else z), r3)
      | _, _ =>
          let e := match ex with Some e => e | None => 0%Z end in
          Some (VFloat (FDec neg (digits_value (ip ++ fp))
                          (e - Z.of_nat (length fp))), r3)
      end
  end.

Definition scan_literal (s : str) : option (pyval * str) :=
  let try (word : string) (v : pyval) :=
    if starts_with (lit word) s
    then Some (v, drop (length (lit word)) s) else None in
  match try "null" VNone with
  | Some r => Some r
  | None =>
  match try "true" (VBool true) with
  | Some r => Some r
  | None =>
  match try "false" (VBool false) with
  | Some r => Some r
  | None =>
  match try "NaN" (VFloat FNan) with
  | Some r => Some r
  | None =>
  match try "Infinity" (VFloat (FInf false)) with
  | Some r => Some r
  | None => try "-Infinity" (VFloat (FInf true))
  end end end end end.

Fixpoint scan_value (fuel : nat) (s : str) : option (pyval * str) :=
  match fuel with
  | O => None
  | S fuel' =>
      match s with
      | 34 :: r =>
          match scan_string r [] with
          | Some (t, rest) => Some (VStr t, rest)
          | None => None
          end
      | 123 :: r =>
          match skip_ws r with
          | 125 :: rest => Some (VDict [], rest)
          | r' => scan_members fuel' r' []
          end
      | 91 :: r =>
          match skip_ws r with
          | 93 :: rest => Some (VList [], rest)
          | r' => scan_elements fuel' r' []
          end
      | _ =>
          match scan_literal s with
          | Some r => Some r
          | None => scan_number s
          end
      end
  end
with scan_members (fuel : nat) (s : str) (acc : list (str * pyval))
  : option (pyval * str) :=
  match fuel with
  | O => None
  | S fuel' =>
      match s with
      | 34 :: r =>
          match scan_string r [] with
          | None => None
          | Some (key, r1) =>
              match skip_ws r1 with
              | 58 :: r2 =>
                  match scan_value fuel' (skip_ws r2) with
                  | None => None
                  | Some (v, r3) =>
                      let acc' := dict_set key v acc in
                      match skip_ws r3 with
                      | 125 :: rest => Some (VDict acc', rest)
                      | 44 :: r4 => scan_members fuel' (skip_ws r4) acc'
                      | _ => None
                      end
                  end
              | _ => None
              end
          end
      | _ => None
      end
  end
with scan_elements (fuel : nat) (s : str) (acc : list pyval)
  : option (pyval * str) :=
  match fuel with
  | O => None
  | S fuel' =>
      match scan_value fuel' s with
      | None => None
      | Some (v, r1) =>
          match skip_ws r1 with
          | 93 :: rest => Some (VList (rev (v :: acc)), rest)
          | 44 :: r2 => scan_elements fuel' (skip_ws r2) (v :: acc)
          | _ => None
          end
      end
  end.

(** [json.loads(s)].  Every call of the scanner reads a character before it
    calls again, so the length of the text bounds the fuel it needs. *)
Definition json_loads (s : str) : option pyval :=
  match s with
  | 65279 :: _ => None
  | _ =>
      match scan_value (S (length s)) (skip_ws s) with
      | Some (v, rest) =>
          match skip_ws rest with
          | [] => Some v
          | _ => None
          end
      | None => None
      end
  end.

Definition hex_digit (n : N) : N := if n <? 10 then 48 + n else 87 + n.

Definition hex4_of (c : N) : str :=
  [hex_digit (c / 4096 mod 16); hex_digit (c / 256 mod 16);
   hex_digit (c / 16 mod 16); hex_digit (c mod 16)].

(** One character of a string under [ensure_ascii=True]; 92 is the backslash
    and 34 the double quote. *)
Definition json_escape_char (c : N) : str :=
  if c =? 34 then [92; 34]
  else if c =? 92 then [92; 92]
  else if c =? 10 then [92; 110]
  else if c =? 13 then [92; 114]
  else if c =? 9 then [92; 116]
  else if c =? 8 then [92; 98]
  else if c =? 12 then [92; 102]
  else if between 32 126 c then [c]
  else if c <? 65536 then [92; 117] ++ hex4_of c
  else
    let v := c - 65536 in
    [92; 117] ++ hex4_of (55296 + v / 1024)
    ++ [92; 117] ++ hex4_of (56320 + v mod 1024).

Definition json_quote (s : str) : str :=
  [34] ++ flat_map json_escape_char s ++ [34].

Section Dumps.
(** [float.__repr__], part of the interpreter. *)
Variable repr_float : pyfloat -> str.

Definition json_float (f : pyfloat) : str :=
  match f with
  | FNan => lit "NaN"
  | FInf false => lit "Infinity"
  | FInf true => lit "-Infinity"
  | FDec _ _ _ => repr_float f
  end.

(** [json.dumps(v)] with the default separators. *)
Fixpoint json_dumps (v : pyval) : str :=
  match v with
  | VNone => lit "null"
  | VBool true => lit "true"
  | VBool false => lit "false"
  | VInt z => str_of_Z z
  | VFloat f => json_float f
  | VStr s => json_quote s
  | VList items => lit "[" ++ py_join (lit ", ") (map json_dumps items) ++ lit "]"
  | VDict entries =>
      lit "{"
      ++ py_join (lit ", ")
           (map (fun kv => json_quote (fst kv) ++ lit ": " ++ json_dumps (snd kv))
              entries)
      ++ lit "}"
  end.
End Dumps.

(** ** UTF-8 and text files *)

Definition is_surrogate (c : N) : bool := between 55296 57343 c.

(** [None] is [UnicodeEncodeError]: a surrogate has no encoding. *)
Definition utf8_encode_char (c : N) : option (list N) :=
  if c <? 128 then Some [c]
  else if c <? 2048 then Some [192 + c / 64; 128 + c mod 64]
  else if is_surrogate c then None
  else if c <? 65536
       then Some [224 + c / 4096; 128 + c / 64 mod 64; 128 + c mod 64]
  else if c <? 1114112
       then Some [240 + c / 262144; 128 + c / 4096 mod 64;
                  128 + c / 64 mod 64; 128 + c mod 64]
  else None.

Fixpoint utf8_encode (s : str) : option (list N) :=
  match s with
  | [] => Some []
  | c :: s' =>
      match utf8_encode_char c, utf8_encode s' with
      | Some b, Some bs => Some (b ++ bs)
      | _, _ => None
      end
  end.

Definition is_cont (b : N) : bool := between 128 191 b.

(** [None] is [UnicodeDecodeError]: overlong forms, surrogates and values
    above U+10FFFF are refused. *)
Fixpoint utf8_decode (bs : list N) : option str :=
  match bs with
  | [] => Some []
  | b0 :: r0 =>
      if b0 <? 128 then option_map (cons b0) (utf8_decode r0)
      else if between 194 223 b0 then
        match r0 with
        | b1 :: r1 =>
            if is_cont b1
            then option_map (cons ((b0 - 192) * 64 + (b1 - 128))) (utf8_decode r1)
            else None
        | _ => None
        end
      else if between 224 239 b0 then
        match r0 with
        | b1 :: b2 :: r2 =>
            let c := (b0 - 224) * 4096 + (b1 - 128) * 64 + (b2 - 128) in
            if is_cont b1 && is_cont b2 && (2048 <=? c) && negb (is_surrogate c)
            then option_map (cons c) (utf8_decode r2)
            else None
        | _ => None
        end
      else if between 240 244 b0 then
        match r0 with
        | b1 :: b2 :: b3 :: r3 =>
            let c := (b0 - 240) * 262144 + (b1 - 128) * 4096
                     + (b2 - 128) * 64 + (b3 - 128) in
            if is_cont b1 && is_cont b2 && is_cont b3
               && (65536 <=? c) && (c <? 1114112)
            then option_map (cons c) (utf8_decode r3)
            else None
        | _ => None
        end
      else None
  end.

(** Reading in text mode with the default [newline=None]: each of [\r\n] and
    [\r] comes back as [\n].  Writing leaves [\n] as it is on POSIX. *)
Fixpoint universal_newlines (s : str) : str :=
  match s with
  | 13 :: s' =>
      10 :: match s' with
            | 10 :: s'' => universal_newlines s''
            | _ => universal_newlines s'
            end
  | c :: s' => c :: universal_newlines s'
  | [] => []
  end.

(** ** Paths *)

Record Path := mkPath { is_absolute : bool; parts : list str }.

#[global] Instance Path_eq_dec : EqDecision Path.
Proof. solve_decision. Defined.

Definition dotdot : str := lit "..".

Fixpoint split_on (sep : N) (cur : str) (s : str) : list str :=
  match s with
  | [] => [rev cur]
  | c :: s' =>
      if c =? sep then rev cur :: split_on sep [] s'
      else split_on sep (c :: cur) s'
  end.

(** [Path(s)]: empty segments and [.] segments are dropped, [..] is kept. *)
Definition Path_of (s : str) : Path :=
  mkPath (starts_with (lit "/") s)
    (filter (fun p => negb (str_eqb p [] || str_eqb p (lit "."))) (split_on 47 [] s)).

(** [workspace / user_path] *)
Definition joinpath (p : Path) (s : str) : Path :=
  let q := Path_of s in
  if is_absolute q then q else mkPath (is_absolute p) (parts p ++ parts q).

(** [str(p)] *)
Definition str_of_path (p : Path) : str :=
  if is_absolute p then lit "/" ++ py_join (lit "/") (parts p)
  else match parts p with
       | [] => lit "."
       | ps => py_join (lit "/") ps
       end.

(** One segment of a path being normalised: [..] leaves the directory
    reached so far (the root is its own parent). *)
Definition walk (reached : list str) (part : str) : list str :=
  if str_eqb part dotdot then removelast reached else reached ++ [part].

Definition normalize (ps : list str) : list str := fold_left walk ps [].

(** [p.resolve()] in the current directory [cwd]. *)
Definition resolve (cwd : list str) (p : Path) : Path :=
  mkPath true (normalize (if is_absolute p then parts p else cwd ++ parts p)).

(** [p.parent] *)
Definition parent (p : Path) : Path :=
  mkPath (is_absolute p) (removelast (parts p)).

(** [p.parents]: the ancestors, nearest first. *)
Definition parents (p : Path) : list Path :=
  map (fun n => mkPath (is_absolute p) (take n (parts p)))
    (rev (seq 0 (length (parts p)))).

Definition path_in (p : Path) (l : list Path) : bool :=
  existsb (fun q => bool_decide (p = q)) l.

(** ** The world outside the interpreter *)

Inductive node :=
| Dir
| File (data : list N).

Record world := mkWorld {
  cwd : list str;                     (* the current directory *)
  fs : gmap (list str) node;          (* by the segments of the absolute path *)
  spawned : list (str * str);         (* command and cwd of each subprocess *)
  fetched : list str;                 (* the addresses handed to urlopen *)
  provider_calls : nat                (* requests sent to the model provider *)
}.

Inductive shell_result :=
| Completed (returncode : Z) (stdout stderr : str)
| TimedOut
| SpawnError (e : exn).

(** A tool call as the provider returns it, in either protocol. *)
Record tool_call := mkCall {
  call_id : str;
  call_name : str;
  call_arguments : str
}.

(** [completion.choices[i].message] of the chat protocol. *)
Record chat_message := mkMessage {
  msg_content : option str;
  msg_tool_calls : option (list tool_call)
}.

(** The entries of the [messages] list of the chat protocol. *)
Inductive chat_entry :=
| SystemEntry (content : str)
| UserEntry (content : str)
| AssistantEntry (content : str) (tool_calls : list tool_call)
| ToolEntry (tool_call_id : str) (content : str).

(** The responses protocol: an item of [response.output], the response, and
    the two shapes of input. *)
Inductive output_item :=
| FunctionCall (call : tool_call)
| OtherItem (type : str).

Record response := mkResponse {
  resp_id : str;
  resp_output : list output_item;
  resp_output_text : str
}.

Inductive responses_input :=
| Conversation (entries : list chat_entry)
| ToolOutputs (previous_response_id : str) (outputs : list (str * str)).

(** What the program calls and does not contain.  Each oracle sees the world
    at the time of the call.  The catalogue of tool specifications, a
    constant sent along with every provider request, is left to the
    provider oracle. *)
Record Host := mkHost {
  repr_str : str -> str;
  repr_float : pyfloat -> str;
  (** [subprocess.run(["powershell", "-NoProfile", "-Command", command], cwd, timeout)] *)
  powershell : str -> str -> Z -> world -> shell_result * gmap (list str) node;
  (** [urlopen] of a request, and [json.loads] of what it reads *)
  fetch_json : str -> world -> res pyval;
  (** [client.chat.completions.create(model, messages, ...)]: the choices *)
  chat_create : str -> list chat_entry -> world -> res (list chat_message);
  (** [client.responses.create(model, input, ...)] *)
  responses_create : str -> responses_input -> world -> res response
}.

(** ** Computations with effects *)

Definition M (A : Type) : Type := world -> res A * world.

Definition ret {A} (a : A) : M A := fun w => (Ok a, w).

Definition raise {A} (e : exn) : M A := fun w => (Raise e, w).

Definition bind {A B} (m : M A) (k : A -> M B) : M B :=
  fun w =>
    match m w with
    | (Ok a, w') => k a w'
    | (Raise e, w') => (Raise e, w')
    end.

Notation "x <- m ;; k" := (bind m (fun x => k))
  (at level 100, m at next level, right associativity).
Notation "m ;;; k" := (bind m (fun _ => k))
  (at level 100, right associativity).

(** A value or an exception computed without effect. *)
Definition lift {A} (r : res A) : M A := fun w => (r, w).

(** [try: body  except <classes>: handler] *)
Definition try_except {A} (body : M A) (catches : exn_class -> bool)
    (handler : exn -> M A) : M A :=
  fun w =>
    match body w with
    | (Raise e, w') => if catches (exn_cls e) then handler e w' else (Raise e, w')
    | r => r
    end.

Definition get_world : M world := fun w => (Ok w, w).

Definition set_fs (f : gmap (list str) node) : M unit :=
  fun w => (Ok tt, mkWorld (cwd w) f (spawned w) (fetched w) (provider_calls w)).

(** [for x in items: acc = step(acc, x)] *)
Fixpoint for_each {A B} (step : B -> A -> M B) (items : list A) (acc : B) : M B :=
  match items with
  | [] => ret acc
  | x :: rest => acc' <- step acc x ;; for_each step rest acc'
  end.

(** ** The file system *)

Definition node_at (f : gmap (list str) node) (p : list str) : option node :=
  match p with
  | [] => Some Dir
  | _ => f !! p
  end.

Definition is_file_node (o : option node) : bool :=
  match o with
  | Some (File _) => true
  | _ => false
  end.

(** Some proper ancestor of [p] is a regular file. *)
Definition under_a_file (f : gmap (list str) node) (p : list str) : bool :=
  existsb (fun n => is_file_node (node_at f (take n p))) (seq 0 (length p)).

(** ** [tools.py] *)

Section Tools.
Context (host : Host).

Definition os_error (cls : exn_class) (p : list str) : exn :=
  let text :=
    match cls with
    | FileNotFoundError => lit "[Errno 2] No such file or directory: "
    | FileExistsError => lit "[Errno 17] File exists: "
    | NotADirectoryError => lit "[Errno 20] Not a directory: "
    | IsADirectoryError => lit "[Errno 21] Is a directory: "
    | _ => lit "[Errno 5] Input/output error: "
    end in
  mkExn cls (text ++ repr_str host (str_of_path (mkPath true p))).

(** The operations below receive resolved paths, except those of the
    memory store; the key in the file system is that of the resolved
    path. *)
Definition fs_key (w : world) (p : Path) : list str :=
  parts (resolve (cwd w) p).

(** [p.exists()] *)
Definition path_exists (p : Path) : M bool :=
  fun w =>
    let k := fs_key w p in
    (Ok (negb (under_a_file (fs w) k)
         && bool_decide (is_Some (node_at (fs w) k))), w).

(** [p.mkdir(parents=True, exist_ok=True)] *)
Definition mkdir_parents (p : Path) : M unit :=
  w <- get_world ;;
  let k := fs_key w p in
  if under_a_file (fs w) k then raise (os_error NotADirectoryError k)
  else if is_file_node (node_at (fs w) k) then raise (os_error FileExistsError k)
  else
    set_fs (fold_left
              (fun f n =>
                 match node_at f (take n k) with
                 | None => <[take n k := Dir]> f
                 | Some _ => f
                 end)
              (seq 1 (length k)) (fs w)).

(** [p.write_text(data, encoding="utf-8")]: the file is opened, which
    creates or empties it, before the text is encoded. *)
Definition write_text (p : Path) (data : pyval) : M unit :=
  match data with
  | VStr text =>
      w <- get_world ;;
      let k := fs_key w p in
      if under_a_file (fs w) k then raise (os_error NotADirectoryError k)
      else
        match node_at (fs w) k with
        | Some Dir => raise (os_error IsADirectoryError k)
        | _ =>
            match node_at (fs w) (removelast k) with
            | None => raise (os_error FileNotFoundError k)
            | Some _ =>
                match utf8_encode text with
                | Some bytes => set_fs (<[k := File bytes]> (fs w))
                | None =>
                    set_fs (<[k := File []]> (fs w)) ;;;
                    raise (mkExn UnicodeEncodeError
                             (lit "'utf-8' codec can't encode character: surrogates not allowed"))
                end
            end
        end
  | _ =>
      raise (mkExn TypeError (lit "data must be str, not " ++ typename data))
  end.

(** [p.read_text(encoding="utf-8")] *)
Definition read_text (p : Path) : M str :=
  w <- get_world ;;
  let k := fs_key w p in
  if under_a_file (fs w) k then raise (os_error NotADirectoryError k)
  else
    match node_at (fs w) k with
    | None => raise (os_error FileNotFoundError k)
    | Some Dir => raise (os_error IsADirectoryError k)
    | Some (File bytes) =>
        match utf8_decode bytes with
        | Some text => ret (universal_newlines text)
        | None =>
            raise (mkExn UnicodeDecodeError
                     (lit "'utf-8' codec can't decode byte: invalid start byte"))
        end
    end.

(** [p.rglob("*")]: everything below a directory.  The order is that of
    the operating system's directory listing; the model takes the order
    of the map. *)
Definition rglob_all (p : Path) : M (list (list str)) :=
  w <- get_world ;;
  let k := fs_key w p in
  match node_at (fs w) k with
  | Some Dir =>
      ret (filter (fun q => bool_decide (take (length k) q = k)
                            && negb (bool_decide (q = k)))
             (map fst (map_to_list (fs w))))
  | _ => ret []
  end.

Definition ALLOWED_COMMAND_PREFIXES : list str :=
  [lit "python"; lit "py"; lit "git"; lit "rg"; lit "Get-ChildItem";
   lit "dir"; lit "type"; lit "echo"; lit "Get-Content"].

Definition path_type_error (v : pyval) : exn :=
  mkExn TypeError
    (lit "expected str, bytes or os.PathLike object, not " ++ typename v).

(** [_resolve_in_workspace(workspace, user_path)], in the current
    directory [cwd]. *)
Definition _resolve_in_workspace (cwd : list str) (workspace : Path)
    (user_path : pyval) : res Path :=
  match user_path with
  | VStr user_path =>
      let candidate :=
        if negb (is_absolute (Path_of user_path))
        then resolve cwd (joinpath workspace user_path)
        else resolve cwd (Path_of user_path) in
      let workspace_resolved := resolve cwd workspace in
      if negb (bool_decide (candidate = workspace_resolved))
         && negb (path_in workspace_resolved (parents candidate))
      then Raise (mkExn ValueError (lit "Path is outside workspace"))
      else Ok candidate
  | _ => Raise (path_type_error user_path)
  end.

Definition resolve_in_workspace (workspace : Path) (user_path : pyval) : M Path :=
  fun w => (_resolve_in_workspace (cwd w) workspace user_path, w).

(** [subprocess.run(["powershell", "-NoProfile", "-Command", command], ...)] *)
Definition subprocess_run (command cwd_arg : str) (timeout : Z)
  : M (Z * str * str) :=
  fun w =>
    let '(r, f) := powershell host command cwd_arg timeout w in
    let w' := mkWorld (cwd w) f (spawned w ++ [(command, cwd_arg)])
                (fetched w) (provider_calls w) in
    match r with
    | Completed rc out err => (Ok (rc, out, err), w')
    | TimedOut => (Raise (mkExn TimeoutExpired (lit "timed out")), w')
    | SpawnError e => (Raise e, w')
    end.

(** [seq[0]] *)
Definition first_item (l : list str) : res str :=
  match l with
  | x :: _ => Ok x
  | [] => Raise (mkExn IndexError (lit "list index out of range"))
  end.

Definition nonempty (s : str) : bool :=
  match s with
  | [] => false
  | _ => true
  end.

Definition blocked (first : str) : pyval :=
  VDict [(lit "ok", VBool false);
         (lit "error",
          VStr (lit "Command prefix '" ++ first ++ lit "' is blocked by allowlist."));
         (lit "allowed_prefixes",
          VList (map VStr (py_sorted ALLOWED_COMMAND_PREFIXES)))].

Definition run_shell (command : pyval) (cwd_arg : str) (timeout_seconds : Z)
  : M pyval :=
  match command with
  | VStr cmd =>
      first <- lift (if nonempty (py_strip cmd)
                     then first_item (py_split_max1 (py_strip cmd))
                     else Ok []) ;;
      if nonempty first && negb (str_in first ALLOWED_COMMAND_PREFIXES)
      then ret (blocked first)
      else
        try_except
          (completed <- subprocess_run cmd cwd_arg timeout_seconds ;;
           let '(returncode, stdout, stderr) := completed in
           ret (VDict [(lit "ok", VBool (returncode =? 0)%Z);
                       (lit "returncode", VInt returncode);
                       (lit "stdout", VStr (slice_from (-8000) stdout));
                       (lit "stderr", VStr (slice_from (-8000) stderr))]))
          is_TimeoutExpired
          (fun _ =>
             ret (VDict [(lit "ok", VBool false);
                         (lit "error",
                          VStr (lit "Command timed out after "
                                ++ str_of_Z timeout_seconds ++ lit "s"))]))
  | _ => raise (attribute_error command "strip")
  end.

Definition failure (message : str) : pyval :=
  VDict [(lit "ok", VBool false); (lit "error", VStr message)].

Definition read_file (workspace : Path) (path : pyval) : M pyval :=
  try_except
    (resolved <- resolve_in_workspace workspace path ;;
     present <- path_exists resolved ;;
     if negb present then ret (failure (lit "File does not exist"))
     else
       text <- read_text resolved ;;
       ret (VDict [(lit "ok", VBool true);
                   (lit "path", VStr (str_of_path resolved));
                   (lit "content", VStr (slice_from (-16000) text))]))
    (fun c => is_OSError c || is_ValueError c)
    (fun exc => ret (failure (exn_msg exc))).

(** [len(content.encode("utf-8"))] *)
Definition encoded_length (content : str) : res Z :=
  match utf8_encode content with
  | Some bytes => Ok (Z.of_nat (length bytes))
  | None =>
      Raise (mkExn UnicodeEncodeError
               (lit "'utf-8' codec can't encode character: surrogates not allowed"))
  end.

Definition write_file (workspace : Path) (path content : pyval) : M pyval :=
  try_except
    (resolved <- resolve_in_workspace workspace path ;;
     mkdir_parents (parent resolved) ;;;
     write_text resolved content ;;;
     n <- lift (match content with
                | VStr text => encoded_length text
                | _ => Raise (attribute_error content "encode")
                end) ;;
     ret (VDict [(lit "ok", VBool true);
                 (lit "path", VStr (str_of_path resolved));
                 (lit "bytes", VInt n)]))
    (fun c => is_OSError c || is_ValueError c)
    (fun exc => ret (failure (exn_msg exc))).

(** [p.relative_to(workspace)] for an absolute [p]. *)
Definition relative_to (p : list str) (workspace : Path) : res Path :=
  if is_absolute workspace
     && bool_decide (take (length (parts workspace)) p = parts workspace)
  then Ok (mkPath false (drop (length (parts workspace)) p))
  else Raise (mkExn ValueError
                (repr_str host (str_of_path (mkPath true p))
                 ++ lit " is not in the subpath of "
                 ++ repr_str host (str_of_path workspace))).

(** The loop of [list_files]: it stops once 200 files are collected. *)
Fixpoint collect_files (f : gmap (list str) node) (workspace : Path)
    (entries : list (list str)) (files : list str) : res (list str) :=
  match entries with
  | [] => Ok files
  | p :: rest =>
      let step :=
        if is_file_node (node_at f p)
        then match relative_to p workspace with
             | Ok rel => Ok (files ++ [str_of_path rel])
             | Raise e => Raise e
             end
        else Ok files in
      match step with
      | Ok files' =>
          if (200 <=? length files')%nat then Ok files'
          else collect_files f workspace rest files'
      | Raise e => Raise e
      end
  end.

Definition list_files (workspace : Path) (path : pyval) : M pyval :=
  try_except
    (resolved <- resolve_in_workspace workspace path ;;
     present <- path_exists resolved ;;
     if negb present then ret (failure (lit "Path does not exist"))
     else
       entries <- rglob_all resolved ;;
       w <- get_world ;;
       files <- lift (collect_files (fs w) workspace entries []) ;;
       ret (VDict [(lit "ok", VBool true);
                   (lit "files", VList (map VStr files))]))
    (fun c => is_OSError c || is_ValueError c)
    (fun exc => ret (failure (exn_msg exc))).

(** [urllib.parse.quote] and [quote_plus] *)
Definition unreserved (b : N) : bool :=
  between 65 90 b || between 97 122 b || is_digit b
  || (b =? 95) || (b =? 46) || (b =? 45) || (b =? 126).

Definition upper_hex (n : N) : N := if n <? 10 then 48 + n else 55 + n.

Definition quote_with (safe : N -> bool) (s : str) : res str :=
  match utf8_encode s with
  | Some bytes =>
      Ok (flat_map
            (fun b => if unreserved b || safe b then [b]
                      else [37; upper_hex (b / 16); upper_hex (b mod 16)])
            bytes)
  | None =>
      Raise (mkExn UnicodeEncodeError
               (lit "'utf-8' codec can't encode character: surrogates not allowed"))
  end.

Definition quote (s : str) : res str := quote_with (fun b => b =? 47) s.

Definition quote_plus (s : str) : res str :=
  match quote_with (fun b => b =? 32) s with
  | Ok q => Ok (map (fun c => if c =? 32 then 43 else c) q)
  | Raise e => Raise e
  end.

(** [_fetch_json(url)].  The address handed to [urlopen] is logged; what
    [urlopen] does to answer, redirects it follows included, is the
    oracle's. *)
Definition _fetch_json (url : str) : M pyval :=
  fun w =>
    (fetch_json host url w,
     mkWorld (cwd w) (fs w) (spawned w) (fetched w ++ [url]) (provider_calls w)).

(** [v.strip()] *)
Definition strip_value (v : pyval) : res str :=
  match v with
  | VStr s => Ok (py_strip s)
  | _ => Raise (attribute_error v "strip")
  end.

(** [v[0]] *)
Definition index0 (v : pyval) : res pyval :=
  match v with
  | VList (x :: _) => Ok x
  | VList [] => Raise (mkExn IndexError (lit "list index out of range"))
  | VStr (c :: _) => Ok (VStr [c])
  | VStr [] => Raise (mkExn IndexError (lit "string index out of range"))
  | VDict _ => Raise (mkExn KeyError (lit "0"))
  | _ =>
      Raise (mkExn TypeError
               (lit "'" ++ typename v ++ lit "' object is not subscriptable"))
  end.

(** The values [for item in v] runs through. *)
Definition iterate (v : pyval) : res (list pyval) :=
  match v with
  | VList items => Ok items
  | VStr s => Ok (map (fun c => VStr [c]) s)
  | VDict entries => Ok (map (fun kv => VStr (fst kv)) entries)
  | _ =>
      Raise (mkExn TypeError
               (lit "'" ++ typename v ++ lit "' object is not iterable"))
  end.

Definition wikipedia_search_url (encoded : str) : str :=
  lit "https://en.wikipedia.org/w/api.php?action=query&list=search&srsearch="
  ++ encoded ++ lit "&utf8=&format=json&srlimit=1".

Definition wikipedia_summary_url (quoted_title : str) : str :=
  lit "https://en.wikipedia.org/api/rest_v1/page/summary/" ++ quoted_title.

Definition ddg_url (encoded : str) : str :=
  lit "https://api.duckduckgo.com/?q=" ++ encoded
  ++ lit "&format=json&no_redirect=1&no_html=1".

Definition found (source : string) (title summary : str) (url : pyval) : pyval :=
  VDict [(lit "ok", VBool true);
         (lit "source", VStr (lit source));
         (lit "title", VStr title);
         (lit "summary", VStr summary);
         (lit "url", url)].

(** The body of the first [try] of [web_lookup]: [Some] is its [return],
    [None] falls through to the second source. *)
Definition wikipedia_lookup (encoded : str) : M (option pyval) :=
  search_data <- _fetch_json (wikipedia_search_url encoded) ;;
  q <- lift (py_get search_data "query" VNone) ;;
  s <- lift (py_get (py_or q (VDict [])) "search" VNone) ;;
  let hits := py_or s (VList []) in
  if negb (truthy hits) then ret None
  else
    hit <- lift (index0 hits) ;;
    t <- lift (py_get hit "title" VNone) ;;
    title <- lift (strip_value (py_or t (VStr []))) ;;
    if negb (nonempty title) then ret None
    else
      quoted <- lift (quote (map (fun c => if c =? 32 then 95 else c) title)) ;;
      summary_data <- _fetch_json (wikipedia_summary_url quoted) ;;
      e <- lift (py_get summary_data "extract" VNone) ;;
      extract <- lift (strip_value (py_or e (VStr []))) ;;
      if negb (nonempty extract) then ret None
      else
        t2 <- lift (py_get summary_data "title" VNone) ;;
        title2 <- lift (strip_value (py_or t2 (VStr title))) ;;
        urls <- lift (py_get summary_data "content_urls" (VDict [])) ;;
        desktop <- lift (py_get urls "desktop" (VDict [])) ;;
        page <- lift (py_get desktop "page" (VStr [])) ;;
        ret (Some (found "wikipedia" title2 (slice_to 1200 extract) page)).

(** The loop over the related topics: it stops at three snippets. *)
Fixpoint collect_snippets (items : list pyval) (snippets : list str) : list str :=
  match items with
  | [] => snippets
  | item :: rest =>
      let snippets' :=
        match item with
        | VDict d =>
            match dict_lookup (lit "Text") d with
            | Some (VStr text) => snippets ++ [text]
            | _ => snippets
            end
        | _ => snippets
        end in
      if (3 <=? length snippets')%nat then snippets'
      else collect_snippets rest snippets'
  end.

Definition duckduckgo_lookup (query encoded : str) : M pyval :=
  data <- _fetch_json (ddg_url encoded) ;;
  a <- lift (py_get data "AbstractText" VNone) ;;
  abstract <- lift (strip_value (py_or a (VStr []))) ;;
  h <- lift (py_get data "Heading" VNone) ;;
  heading <- lift (strip_value (py_or h (VStr []))) ;;
  let title := if nonempty heading then heading else query in
  if nonempty abstract then
    url <- lift (py_get data "AbstractURL" (VStr [])) ;;
    ret (found "duckduckgo" title (slice_to 1200 abstract) url)
  else
    r <- lift (py_get data "RelatedTopics" VNone) ;;
    items <- lift (iterate (py_or r (VList []))) ;;
    let snippets := collect_snippets items [] in
    match snippets with
    | [] => ret (failure (lit "No web summary found"))
    | _ =>
        ret (found "duckduckgo" title
               (slice_to 1200 (py_join (lit " | ") snippets)) (VStr []))
    end.

Definition web_lookup (query : pyval) : M pyval :=
  query <- lift (strip_value (py_or query (VStr []))) ;;
  if negb (nonempty query) then ret (failure (lit "Query is empty"))
  else
    encoded <- lift (quote_plus query) ;;
    hit <- try_except (wikipedia_lookup encoded) (fun _ => true)
             (fun _ => ret None) ;;
    match hit with
    | Some result => ret result
    | None =>
        try_except (duckduckgo_lookup query encoded) (fun _ => true)
          (fun exc => ret (failure (lit "Web lookup failed: " ++ exn_msg exc)))
    end.

(** [execute_tool(name, arguments, workspace)] *)
Definition execute_tool (name arguments : str) (workspace : Path) : M str :=
  match json_loads (if nonempty arguments then arguments else lit "{}") with
  | None =>
      ret (json_dumps (repr_float host) (failure (lit "Invalid JSON args")))
  | Some args =>
      if str_eqb name (lit "run_shell") then
        c <- lift (py_get args "cwd" VNone) ;;
        let cwd_arg := match c with VStr s => s | _ => lit "." end in
        w <- get_world ;;
        match _resolve_in_workspace (cwd w) workspace (VStr cwd_arg) with
        | Raise exc =>
            if is_ValueError (exn_cls exc)
            then ret (json_dumps (repr_float host) (failure (exn_msg exc)))
            else raise exc
        | Ok resolved_cwd =>
            command <- lift (py_get args "command" (VStr [])) ;;
            result <- run_shell command (str_of_path resolved_cwd) 45 ;;
            ret (json_dumps (repr_float host) result)
        end
      else if str_eqb name (lit "read_file") then
        path <- lift (py_get args "path" (VStr [])) ;;
        result <- read_file workspace path ;;
        ret (json_dumps (repr_float host) result)
      else if str_eqb name (lit "write_file") then
        path <- lift (py_get args "path" (VStr [])) ;;
        content <- lift (py_get args "content" (VStr [])) ;;
        result <- write_file workspace path content ;;
        ret (json_dumps (repr_float host) result)
      else if str_eqb name (lit "list_files") then
        path <- lift (py_get args "path" (VStr (lit "."))) ;;
        result <- list_files workspace path ;;
        ret (json_dumps (repr_float host) result)
      else if str_eqb name (lit "web_lookup") then
        query <- lift (py_get args "query" (VStr [])) ;;
        result <- web_lookup query ;;
        ret (json_dumps (repr_float host) result)
      else
        ret (json_dumps (repr_float host)
               (failure (lit "Unknown tool: " ++ name)))
  end.

End Tools.

(** ** [memory.py] *)

Section Memory.
Context (host : Host).

(** [MemoryStore._read_all]; [self] is the path of the store. *)
Definition _read_all (self : Path) : M pyval :=
  present <- path_exists self ;;
  if negb present then ret (VList [])
  else
    try_except
      (text <- read_text host self ;;
       match json_loads text with
       | Some items => ret items
       | None => raise (mkExn JSONDecodeError (lit "Expecting value"))
       end)
      (fun c => match c with JSONDecodeError => true | _ => false end)
      (fun _ => ret (VList [])).

(** [MemoryStore.recent(count)] *)
Definition recent (self : Path) (count : Z) : M pyval :=
  items <- _read_all self ;;
  lift (py_slice_from items (- count)).

End Memory.

(** ** [agent.py] *)

Definition SYSTEM_PROMPT : str :=
  lit "You are a pragmatic coding agent running on Windows." ++ [10]
  ++ lit "Use tools when needed. Prefer precise, minimal edits." ++ [10]
  ++ lit "Never claim to run commands you did not run." ++ [10]
  ++ lit "Understand both Dutch and English user input, including casual greetings/slang." ++ [10]
  ++ lit "If a user term is unclear, use web_lookup to infer meaning before answering." ++ [10].

Definition GREETING_WORDS : list str :=
  [lit "hi"; lit "hello"; lit "hey"; lit "yo"; lit "sup"; lit "hola";
   lit "hoi"; lit "hallo"; lit "heyo"; lit "goedemorgen"; lit "goedemiddag";
   lit "goedenavond"].

Definition DUTCH_GREETINGS : list str :=
  [lit "hoi"; lit "hallo"; lit "goedemorgen"; lit "goedemiddag"; lit "goedenavond"].

Definition DUTCH_REPLY : str :=
  lit "Hoi! Ik ben er. Zeg maar wat je wilt doen, dan help ik je direct.".

Definition ENGLISH_REPLY : str :=
  lit "Hey! I'm here. Tell me what you want to build or fix.".

Definition is_alnum (c : N) : bool :=
  between 97 122 c || between 65 90 c || between 48 57 c.

(** The class of the pattern [[^a-zA-Z0-9\\s]] written in a raw string: the
    two backslashes stand for one backslash (92) and the [s] after them is
    the letter (115), so white space is not in the class of kept
    characters. *)
Definition smalltalk_kept (c : N) : bool :=
  is_alnum c || (c =? 92) || (c =? 115).

(** [re.sub(<every character outside the class>, " ", s)] *)
Definition blank_outside (kept : N -> bool) (s : str) : str :=
  map (fun c => if kept c then c else 32) s.

(** The words [maybe_handle_smalltalk] classifies. *)
Definition smalltalk_words (user_input : str) : list str :=
  filter nonempty
    (py_split (py_strip (blank_outside smalltalk_kept (py_lower user_input)))).

Definition maybe_handle_smalltalk (user_input : str) : option str :=
  let cleaned := py_strip (blank_outside smalltalk_kept (py_lower user_input)) in
  if negb (nonempty cleaned) then None
  else
    let words := filter nonempty (py_split cleaned) in
    match words with
    | [] => None
    | _ =>
        if (length words <=? 3)%nat
           && forallb (fun w => str_in w GREETING_WORDS) words
        then
          if existsb (fun w => str_in w DUTCH_GREETINGS) words
          then Some DUTCH_REPLY
          else Some ENGLISH_REPLY
        else None
    end.

(** *** The patterns of [_extract_lookup_query]

    A backtracking matcher for the constructs these patterns use: literal
    characters, [\s+], the lazy group [(.+?)], an optional character and
    [$].  [re.match] anchors at the start; the result is the list of the
    groups. *)
Inductive atom :=
| AChar (c : N)
| ASpace
| AAny.

Inductive re_item :=
| One (a : atom)
| PlusGreedy (a : atom)
| LazyGroup (a : atom)
| Optional (a : atom)
| EndAnchor.

Definition atom_matches (a : atom) (c : N) : bool :=
  match a with
  | AChar x => c =? x
  | ASpace => isspace c
  | AAny => negb (c =? 10)
  end.

Fixpoint re_match (items : list re_item) : str -> option (list str) :=
  match items with
  | [] => fun _ => Some []
  | item :: rest =>
      let k := re_match rest in
      match item with
      | One a =>
          fun s =>
            match s with
            | c :: s' => if atom_matches a c then k s' else None
            | [] => None
            end
      | Optional a =>
          fun s =>
            match s with
            | c :: s' =>
                if atom_matches a c
                then match k s' with
                     | Some g => Some g
                     | None => k s
                     end
                else k s
            | [] => k s
            end
      | EndAnchor =>
          fun s =>
            match s with
            | [] | [10] => k s
            | _ => None
            end
      | PlusGreedy a =>
          fix more (s : str) : option (list str) :=
            match s with
            | c :: s' =>
                if atom_matches a c
                then match more s' with
                     | Some g => Some g
                     | None => k s'
                     end
                else None
            | [] => None
            end
      | LazyGroup a =>
          (fix more (taken : str) (s : str) : option (list str) :=
             match s with
             | c :: s' =>
                 if atom_matches a c
                 then match k s' with
                      | Some g => Some (rev (c :: taken) :: g)
                      | None => more (c :: taken) s'
                      end
                 else None
             | [] => None
             end) []
      end
  end.

Definition literal (s : string) : list re_item := map (fun c => One (AChar c)) (lit s).

(** [^wat betekent\s+(.+?)\??$] and its three siblings. *)
Definition LOOKUP_PATTERNS : list (list re_item) :=
  [literal "wat betekent" ++ [PlusGreedy ASpace; LazyGroup AAny; Optional (AChar 63); EndAnchor];
   literal "what does" ++ [PlusGreedy ASpace; LazyGroup AAny; PlusGreedy ASpace]
     ++ literal "mean" ++ [Optional (AChar 63); EndAnchor];
   literal "what is" ++ [PlusGreedy ASpace; LazyGroup AAny; Optional (AChar 63); EndAnchor];
   literal "meaning of" ++ [PlusGreedy ASpace; LazyGroup AAny; Optional (AChar 63); EndAnchor]].

(** The first pattern that matches, and its first group. *)
Fixpoint first_match (patterns : list (list re_item)) (s : str) : option str :=
  match patterns with
  | [] => None
  | p :: rest =>
      match re_match p s with
      | Some (g :: _) => Some g
      | _ => first_match rest s
      end
  end.

(** The class of [[^a-zA-Z0-9\s\-_/]]. *)
Definition lookup_kept (c : N) : bool :=
  is_alnum c || isspace c || (c =? 45) || (c =? 95) || (c =? 47).

Definition _extract_lookup_query (user_input : str) : option str :=
  let text := py_strip user_input in
  if negb (nonempty text) then None
  else
    let lowered := py_lower text in
    match first_match LOOKUP_PATTERNS lowered with
    | Some g => Some (py_strip_chars (lit " .,!?:;" ++ [34] ++ lit "'") g)
    | None =>
        let cleaned := py_strip (blank_outside lookup_kept text) in
        let words := filter nonempty (py_split cleaned) in
        match words with
        | [] => None
        | _ =>
            if (1 <=? length words)%nat && (length words <=? 12)%nat
               && negb (forallb (fun w => str_in (py_lower w) GREETING_WORDS) words)
            then Some (py_join (lit " ") words)
            else None
        end
    end.

Definition _choose_api_mode (mode : str) (base_url : option str) : str :=
  if str_in mode [lit "responses"; lit "chat"] then mode
  else
    match base_url with
    | None | Some [] => lit "responses"
    | Some base_url =>
        let lower := py_lower base_url in
        if contains (lit "localhost") lower || contains (lit "127.0.0.1") lower
        then lit "chat"
        else lit "responses"
    end.

Section Agent.
Context (host : Host).

(** [repr(v)] and [str(v)], as an f-string formats a value. *)
Fixpoint py_repr (v : pyval) : str :=
  match v with
  | VNone => lit "None"
  | VBool true => lit "True"
  | VBool false => lit "False"
  | VInt z => str_of_Z z
  | VFloat f => repr_float host f
  | VStr s => repr_str host s
  | VList items => lit "[" ++ py_join (lit ", ") (map py_repr items) ++ lit "]"
  | VDict entries =>
      lit "{"
      ++ py_join (lit ", ")
           (map (fun kv => repr_str host (fst kv) ++ lit ": " ++ py_repr (snd kv))
              entries)
      ++ lit "}"
  end.

Definition py_str (v : pyval) : str :=
  match v with
  | VStr s => s
  | _ => py_repr v
  end.

Definition _maybe_prefetch_web_context (user_input : str) : M (option str) :=
  match _extract_lookup_query user_input with
  | None | Some [] => ret None
  | Some query =>
      result <- web_lookup host (VStr query) ;;
      ok <- lift (py_get result "ok" VNone) ;;
      if negb (truthy ok) then
        e <- lift (py_get result "error" VNone) ;;
        let error := py_str (py_or e (VStr (lit "unknown error"))) in
        ret (Some (lit "Web lookup attempted for unclear term '" ++ query
                   ++ lit "', but failed: " ++ error))
      else
        t <- lift (py_get result "title" VNone) ;;
        let title := py_str (py_or t (VStr query)) in
        s <- lift (py_get result "summary" VNone) ;;
        let summary := py_strip (py_str (py_or s (VStr []))) in
        so <- lift (py_get result "source" VNone) ;;
        let source := py_str (py_or so (VStr (lit "web"))) in
        u <- lift (py_get result "url" VNone) ;;
        let url := py_str (py_or u (VStr [])) in
        if negb (nonempty summary) then ret None
        else
          ret (Some (lit "Web context for possibly unclear term:" ++ [10]
                     ++ lit "- query: " ++ query ++ [10]
                     ++ lit "- title: " ++ title ++ [10]
                     ++ lit "- source: " ++ source ++ [10]
                     ++ lit "- url: " ++ url ++ [10]
                     ++ lit "- summary: " ++ summary))
  end.

(** [f"{item['role']}: {item['content']}"] *)
Definition history_line (item : pyval) : res str :=
  match py_getitem item "role" with
  | Raise e => Raise e
  | Ok role =>
      match py_getitem item "content" with
      | Raise e => Raise e
      | Ok content => Ok (py_str role ++ lit ": " ++ py_str content)
      end
  end.

(** The input both protocols start from: the three system entries, the
    prefetched web context if there is one, and the user's text. *)
Definition turn_input (user_input : str) (workspace memory : Path)
  : M (list chat_entry) :=
  recent_items <- recent host memory 8 ;;
  items <- lift (iterate recent_items) ;;
  history_lines <-
    for_each (fun lines item =>
                line <- lift (history_line item) ;; ret (lines ++ [line]))
      items [] ;;
  let history_block := py_join [10] history_lines in
  web_context <- _maybe_prefetch_web_context user_input ;;
  ret ([SystemEntry SYSTEM_PROMPT;
        SystemEntry (lit "Workspace: " ++ str_of_path workspace);
        SystemEntry (lit "Recent memory:" ++ [10] ++ history_block)]
       ++ match web_context with
          | Some (c :: context) => [SystemEntry (c :: context)]
          | _ => []
          end
       ++ [UserEntry user_input]).

(** [client.responses.create(...)] and [client.chat.completions.create(...)]:
    one request to the provider each. *)
Definition client_responses_create (model : str) (input : responses_input)
  : M response :=
  fun w =>
    (responses_create host model input w,
     mkWorld (cwd w) (fs w) (spawned w) (fetched w) (S (provider_calls w))).

Definition client_chat_create (model : str) (messages : list chat_entry)
  : M (list chat_message) :=
  fun w =>
    (chat_create host model messages w,
     mkWorld (cwd w) (fs w) (spawned w) (fetched w) (S (provider_calls w))).

Definition function_calls (output : list output_item) : list tool_call :=
  flat_map (fun item => match item with
                        | FunctionCall call => [call]
                        | OtherItem _ => []
                        end) output.

(** The [while True] loop of [run_turn_responses]; [None] when the fuel
    runs out before the loop returns. *)
Fixpoint responses_rounds (fuel : nat) (model : str) (workspace : Path)
    (response : response) : M (option str) :=
  match fuel with
  | O => ret None
  | S fuel' =>
      match function_calls (resp_output response) with
      | [] => ret (Some (py_strip (resp_output_text response)))
      | calls =>
          tool_outputs <-
            for_each (fun outputs call =>
                        output <- execute_tool host (call_name call)
                                    (call_arguments call) workspace ;;
                        ret (outputs ++ [(call_id call, output)]))
              calls [] ;;
          response' <- client_responses_create model
                         (ToolOutputs (resp_id response) tool_outputs) ;;
          responses_rounds fuel' model workspace response'
      end
  end.

Definition run_turn_responses (fuel : nat) (model user_input : str)
    (workspace memory : Path) : M (option str) :=
  match maybe_handle_smalltalk user_input with
  | Some smalltalk => ret (Some smalltalk)
  | None =>
      system_input <- turn_input user_input workspace memory ;;
      response <- client_responses_create model (Conversation system_input) ;;
      responses_rounds fuel model workspace response
  end.

Definition STOPPED : str := lit "Stopped after too many tool iterations.".

(** [completion.choices[0]] *)
Definition first_choice (choices : list chat_message) : res chat_message :=
  match choices with
  | m :: _ => Ok m
  | [] => Raise (mkExn IndexError (lit "list index out of range"))
  end.

(** [message.content or ""] *)
Definition content_or_empty (message : chat_message) : str :=
  match msg_content message with
  | Some content => content
  | None => []
  end.

(** The inner loop of a chat round: each requested tool is executed, in the
    order of the request, and its output appended to the messages. *)
Definition answer_tool_calls (workspace : Path) (tool_calls : list tool_call)
    (messages : list chat_entry) : M (list chat_entry) :=
  for_each (fun msgs call =>
              output <- execute_tool host (call_name call)
                          (call_arguments call) workspace ;;
              ret (msgs ++ [ToolEntry (call_id call) output]))
    tool_calls messages.

(** The [for _ in range(n)] loop of [run_turn_chat]. *)
Fixpoint chat_rounds (n : nat) (model : str) (workspace : Path)
    (messages : list chat_entry) : M str :=
  match n with
  | O => ret STOPPED
  | S n' =>
      choices <- client_chat_create model messages ;;
      message <- lift (first_choice choices) ;;
      match msg_tool_calls message with
      | None | Some [] =>
          ret (py_strip (content_or_empty message))
      | Some tool_calls =>
          messages' <-
            answer_tool_calls workspace tool_calls
              (messages ++ [AssistantEntry (content_or_empty message) tool_calls]) ;;
          chat_rounds n' model workspace messages'
      end
  end.

Definition run_turn_chat (model user_input : str) (workspace memory : Path)
  : M str :=
  match maybe_handle_smalltalk user_input with
  | Some smalltalk => ret smalltalk
  | None =>
      messages <- turn_input user_input workspace memory ;;
      chat_rounds 12 model workspace messages
  end.

End Agent.

(** ** More of [memory.py]: writing the store *)

(** A line break and the indentation of a nesting level under [indent=2]. *)
Definition newline_indent (level : nat) : str := 10 :: repeat 32 (2 * level).

Section DumpsIndent.
(** [float.__repr__], part of the interpreter. *)
Variable repr_float : pyfloat -> str.

(** [json.dumps(v, indent=2)]: an empty container is written closed; a
    container with items has one item per line, a comma after each but the
    last. *)
Fixpoint json_dumps_indent (level : nat) (v : pyval) : str :=
  match v with
  | VNone => lit "null"
  | VBool true => lit "true"
  | VBool false => lit "false"
  | VInt z => str_of_Z z
  | VFloat f => json_float repr_float f
  | VStr s => json_quote s
  | VList [] => lit "[]"
  | VList items =>
      lit "[" ++ newline_indent (S level)
      ++ py_join (lit "," ++ newline_indent (S level))
           (map (json_dumps_indent (S level)) items)
      ++ newline_indent level ++ lit "]"
  | VDict [] => lit "{}"
  | VDict entries =>
      lit "{" ++ newline_indent (S level)
      ++ py_join (lit "," ++ newline_indent (S level))
           (map (fun kv => json_quote (fst kv) ++ lit ": "
                           ++ json_dumps_indent (S level) (snd kv))
              entries)
      ++ newline_indent level ++ lit "}"
  end.
End DumpsIndent.

Section MemoryWrite.
Context (host : Host).
(** [datetime.now(timezone.utc).isoformat()], read off the world. *)
Context (utc_now : world -> str).

(** [MemoryStore.__init__]; [self] is the path of the store. *)
Definition MemoryStore_init (self : Path) : M unit :=
  mkdir_parents host (parent self).

(** [MemoryStore._write_all] *)
Definition _write_all (self : Path) (items : pyval) : M unit :=
  write_text host self (VStr (json_dumps_indent (repr_float host) 0 items)).

(** The entry [append] adds. *)
Definition transcript_entry (ts role content : str) : pyval :=
  VDict [(lit "ts", VStr ts); (lit "role", VStr role); (lit "content", VStr content)].

(** [MemoryStore.append(role, content)] *)
Definition append (self : Path) (role content : str) : M unit :=
  items <- _read_all host self ;;
  match items with
  | VList entries =>
      w <- get_world ;;
      _write_all self (VList (entries ++ [transcript_entry (utc_now w) role content]))
  | _ => raise (attribute_error items "append")
  end.

End MemoryWrite.

(** ** More of [agent.py]: [main]

    What [parser.parse_args()] gives is an input of the model: the parsed
    command line, a record, or the [SystemExit] with which [argparse] ends
    the program.  The variable [OPENAI_API_KEY] of the environment is an
    optional text, and the standard input the list of the lines typed until
    its end.  The result is how [main] ended and what was written to the
    standard output, piece by piece; after an exception that nothing
    catches, what had been written is not kept.  An interrupt from the
    keyboard is not part of the model. *)

Record Args := mkArgs {
  args_workspace : str;
  args_model : str;
  args_base_url : option str;
  args_api_mode : str
}.

(** [parser.parse_args()]: on a command line it does not accept [argparse]
    exits with status 2, and after [--help] with status 0, having written
    the help to the standard output. *)
Inductive parse_outcome :=
| ParseExit (status : Z) (written : list str)
| Parsed (args : Args).

(** [SystemExit] carries its code: the status of [argparse], or the message
    of [main]. *)
Inductive main_end :=
| SystemExit (code : pyval)
| Returned
| Running.                     (* a turn of the responses protocol still runs *)

(** [args.base_url and ("localhost" in args.base_url.lower()
     or "127.0.0.1" in args.base_url.lower())] *)
Definition local_base_url (base_url : option str) : bool :=
  match base_url with
  | Some (c :: url) =>
      contains (lit "localhost") (py_lower (c :: url))
      || contains (lit "127.0.0.1") (py_lower (c :: url))
  | _ => false
  end.

(** The prompt of [input("\nYou> ")]. *)
Definition PROMPT : str := [10] ++ lit "You> ".

(** [print(s)] writes [s] and a line feed. *)
Definition print_line (s : str) : str := s ++ [10].

Section Main.
Context (host : Host).
Context (utc_now : world -> str).

(** The [while True] loop of [main] over the lines typed. *)
Fixpoint main_loop (fuel : nat) (api_mode model : str) (workspace memory : Path)
    (lines : list str) (printed : list str) : M (main_end * list str) :=
  match lines with
  | [] =>
      ret (Returned, printed ++ [PROMPT; print_line ([10] ++ lit "Stopping.")])
  | line :: rest =>
      let printed := printed ++ [PROMPT] in
      let user_input := py_strip line in
      if negb (nonempty user_input)
      then main_loop fuel api_mode model workspace memory rest printed
      else if str_in (py_lower user_input) [lit "exit"; lit "quit"]
      then ret (Returned, printed ++ [print_line (lit "Stopping.")])
      else
        append host utc_now memory (lit "user") user_input ;;;
        answer <-
          (if str_eqb api_mode (lit "chat")
           then a <- run_turn_chat host model user_input workspace memory ;;
                ret (Some a)
           else run_turn_responses host fuel model user_input workspace memory) ;;
        match answer with
        | None => ret (Running, printed)
        | Some answer =>
            append host utc_now memory (lit "assistant") answer ;;;
            main_loop fuel api_mode model workspace memory rest
              (printed ++ [print_line ([10] ++ lit "Agent> " ++ answer)])
        end
  end.

Definition main (fuel : nat) (parsed : parse_outcome) (api_key : option str)
    (lines : list str) : M (main_end * list str) :=
  match parsed with
  | ParseExit status written => ret (SystemExit (VInt status), written)
  | Parsed args =>
      let keyless :=
        match api_key with
        | Some (_ :: _) => false
        | _ => true
        end in
      if keyless && negb (local_base_url (args_base_url args))
      then ret (SystemExit
                  (VStr (lit "OPENAI_API_KEY not set. Set it first and retry.")),
                [])
      else
        w <- get_world ;;
        let workspace := resolve (cwd w) (Path_of (args_workspace args)) in
        mkdir_parents host workspace ;;;
        let memory :=
          joinpath (joinpath workspace (lit ".agent")) (lit "memory.json") in
        MemoryStore_init host memory ;;;
        let api_mode :=
          _choose_api_mode (args_api_mode args) (args_base_url args) in
        main_loop fuel api_mode (args_model args) workspace memory lines
          ([print_line (lit "Agent ready. Workspace: " ++ str_of_path workspace);
            print_line (lit "API mode: " ++ api_mode)]
           ++ match args_base_url args with
              | Some (c :: url) => [print_line (lit "Base URL: " ++ c :: url)]
              | _ => []
              end
           ++ [print_line (lit "Type 'exit' to quit.")])
  end.

End Main.

(** ** The endpoint policy in the words of the specification

    The specification speaks of the host of the endpoint being a loopback
    address.  The host is what stands between [://] and the next [/], [?] or
    [#], without user information and port. *)

Fixpoint after_scheme (s : str) : option str :=
  match s with
  | [] => None
  | c :: s' =>
      if starts_with (lit "://") s then Some (drop 3 s) else after_scheme s'
  end.

Fixpoint take_until (stop : N -> bool) (s : str) : str :=
  match s with
  | [] => []
  | c :: s' => if stop c then [] else c :: take_until stop s'
  end.

Fixpoint after_last (sep : N) (s : str) : str :=
  match s with
  | [] => []
  | c :: s' => if existsb (N.eqb sep) s' then after_last sep s'
               else if c =? sep then s' else s
  end.

Definition spec_endpoint_host (url : str) : str :=
  let rest := match after_scheme url with Some r => r | None => url end in
  let authority :=
    take_until (fun c => (c =? 47) || (c =? 63) || (c =? 35)) rest in
  let hostport := after_last 64 authority in
  py_lower (match hostport with
            | 91 :: _ => take_until (fun c => c =? 93) hostport ++ [93]
            | _ => take_until (fun c => c =? 58) hostport
            end).

Definition spec_loopback_host (h : str) : bool :=
  str_eqb h (lit "localhost") || starts_with (lit "127.") h
  || str_eqb h (lit "[::1]").

(** [needle] occurs somewhere in [hay]. *)
Definition occurs_in (needle hay : str) : Prop :=
  exists pre post, hay = pre ++ needle ++ post.

(** The mode was given explicitly. *)
Definition explicit_mode (mode : str) : Prop :=
  mode = lit "responses" \/ mode = lit "chat".

(** What the code takes for a local endpoint. *)
Definition names_local (url : str) : Prop :=
  occurs_in (lit "localhost") (py_lower url)
  \/ occurs_in (lit "127.0.0.1") (py_lower url).

(** ** Notions used in the statements *)

(** [c] lies strictly below [root]. *)
Definition descendant_of (root c : Path) : Prop :=
  is_absolute c = is_absolute root
  /\ exists rest, rest <> [] /\ parts c = parts root ++ rest.

(** [c] is [root] or lies below it. *)
Definition within (root c : Path) : Prop :=
  c = root \/ descendant_of root c.

(** The failure of the guard. *)
Definition PathEscape : exn := mkExn ValueError (lit "Path is outside workspace").

(** What [user_path] names before resolution: itself when absolute, else the
    path under the workspace. *)
Definition candidate_of (cwd : list str) (workspace : Path) (user_path : str) : Path :=
  resolve cwd (if is_absolute (Path_of user_path) then Path_of user_path
               else mkPath (is_absolute workspace)
                      (parts workspace ++ parts (Path_of user_path))).

(** The result of [run_shell] once the subprocess has been run. *)
Definition shell_outcome (r : shell_result) (timeout_seconds : Z) : res pyval :=
  let timed_out :=
    VDict [(lit "ok", VBool false);
           (lit "error",
            VStr (lit "Command timed out after "
                  ++ str_of_Z timeout_seconds ++ lit "s"))] in
  match r with
  | Completed returncode stdout stderr =>
      Ok (VDict [(lit "ok", VBool (returncode =? 0)%Z);
                 (lit "returncode", VInt returncode);
                 (lit "stdout", VStr (slice_from (-8000) stdout));
                 (lit "stderr", VStr (slice_from (-8000) stderr))])
  | TimedOut => Ok timed_out
  | SpawnError e => if is_TimeoutExpired (exn_cls e) then Ok timed_out else Raise e
  end.

(** A computation that sends nothing to the provider. *)
Definition keeps_calls {A} (m : M A) : Prop :=
  forall w, provider_calls (snd (m w)) = provider_calls w.

(** The provider answers every request with a message that asks for at least
    one tool. *)
Definition always_calls_tools (host : Host) (model : str) : Prop :=
  forall messages w,
    exists message others call calls,
      chat_create host model messages w = Ok (message :: others)
      /\ msg_tool_calls message = Some (call :: calls).

(** Every tool call the provider ever asks for is executed without an
    exception, in whatever world. *)
Definition requested_tools_return (host : Host) (model : str)
    (workspace : Path) : Prop :=
  forall messages w message others calls call,
    chat_create host model messages w = Ok (message :: others) ->
    msg_tool_calls message = Some calls ->
    In call calls ->
    forall w', exists output w'',
      execute_tool host (call_name call) (call_arguments call) workspace w'
      = (Ok output, w'').

(** A lower-case letter of ASCII. *)
Definition lower_letter (c : N) : bool := between 97 122 c.

(** The names [execute_tool] dispatches on. *)
Definition TOOL_NAMES : list str :=
  [lit "run_shell"; lit "read_file"; lit "write_file"; lit "list_files";
   lit "web_lookup"].

(** ** Notions used in the further statements *)

(** A computation that leaves the world as it finds it. *)
Definition keeps_world {A} (m : M A) : Prop :=
  forall w, snd (m w) = w.

(** A computation whose only effect is to call [urlopen]: at most [k]
    times, each time with an [allowed] address. *)
Definition only_fetches {A} (k : nat) (allowed : str -> Prop) (m : M A) : Prop :=
  forall w, exists urls,
    snd (m w) = mkWorld (cwd w) (fs w) (spawned w) (fetched w ++ urls)
                  (provider_calls w)
    /\ (length urls <= k)%nat /\ Forall allowed urls.

(** The addresses of the two services [web_lookup] asks [urlopen] for. *)
Definition lookup_site (url : str) : Prop :=
  (exists rest, url = lit "https://en.wikipedia.org/" ++ rest)
  \/ (exists rest, url = lit "https://api.duckduckgo.com/" ++ rest).

(** A computation that sends at most [k] requests to the provider. *)
Definition calls_at_most {A} (k : nat) (m : M A) : Prop :=
  forall w, (provider_calls (snd (m w)) <= provider_calls w + k)%nat.



(** Under the responses protocol: the provider answers every request with a
    response that holds at least one function call. *)
Definition always_calls_functions (host : Host) (model : str) : Prop :=
  forall input w,
    exists response call calls,
      responses_create host model input w = Ok response
      /\ function_calls (resp_output response) = call :: calls.

(** Every function call the provider ever asks for is executed without an
    exception, in whatever world. *)
Definition requested_functions_return (host : Host) (model : str)
    (workspace : Path) : Prop :=
  forall input w response call,
    responses_create host model input w = Ok response ->
    In call (function_calls (resp_output response)) ->
    forall w', exists output w'',
      execute_tool host (call_name call) (call_arguments call) workspace w'
      = (Ok output, w'').

(** A Unicode scalar value: a code point below U+110000 that is no
    surrogate.  A text of scalar values is what UTF-8 can encode. *)
Definition scalar_value (c : N) : bool :=
  (c <? 1114112) && negb (is_surrogate c).

Definition scalar_text (s : str) : Prop :=
  Forall (fun c => scalar_value c = true) s.

(** A text the file system can resolve: it holds no NUL, on which
    [Path.resolve] raises [ValueError], and no surrogate. *)
Definition resolvable_text (s : str) : Prop := ~ In 0 s /\ scalar_text s.

(** An entry as [append] writes it. *)
Definition transcript_shaped (v : pyval) : Prop :=
  exists ts role content,
    v = transcript_entry ts role content
    /\ scalar_text ts /\ scalar_text role /\ scalar_text content.



(** A tool call the provider asked for in one of its responses. *)
Definition requested (host : Host) (model : str) (call : tool_call) : Prop :=
  exists messages w message others calls,
    chat_create host model messages w = Ok (message :: others)
    /\ msg_tool_calls message = Some calls
    /\ In call calls.

(** The tools of a round run one after the other: each call is executed in
    the world the one before it left, and gives one [tool] entry. *)
Inductive tools_run (host : Host) (workspace : Path)
  : list tool_call -> world -> list chat_entry -> world -> Prop :=
| tools_run_nil (w : world) : tools_run host workspace [] w [] w
| tools_run_cons (call : tool_call) (calls : list tool_call) (output : str)
    (entries : list chat_entry) (w w1 w' : world) :
    execute_tool host (call_name call) (call_arguments call) workspace w
    = (Ok output, w1) ->
    tools_run host workspace calls w1 entries w' ->
    tools_run host workspace (call :: calls) w
      (ToolEntry (call_id call) output :: entries) w'.

(** [json.loads] has two limits whose exception is no [JSONDecodeError]: an
    integer of more than 4300 digits raises [ValueError], and nesting that
    reaches the interpreter's recursion limit (1000 frames by default)
    raises [RecursionError].  A text stays clear of both when it has no run
    of more than 4300 digits and never more than 100 brackets open outside
    its strings; 34 is the quote, 92 the backslash, 91 and 123 open, 93 and
    125 close. *)
Fixpoint digit_runs_within (s : str) (run : N) : bool :=
  match s with
  | [] => true
  | c :: s' =>
      if is_digit c then (run <? 4300) && digit_runs_within s' (run + 1)
      else digit_runs_within s' 0
  end.

Fixpoint brackets_within (s : str) (in_string escaped : bool) (open : N) : bool :=
  match s with
  | [] => true
  | c :: s' =>
      if in_string then
        if escaped then brackets_within s' true false open
        else if c =? 92 then brackets_within s' true true open
        else if c =? 34 then brackets_within s' false false open
        else brackets_within s' true false open
      else if c =? 34 then brackets_within s' true false open
      else if (c =? 91) || (c =? 123)
      then (open <? 100) && brackets_within s' false false (open + 1)
      else if (c =? 93) || (c =? 125)
      then brackets_within s' false false (open - 1)
      else brackets_within s' false false open
  end.

Definition within_loads_limits (s : str) : bool :=
  digit_runs_within s 0 && brackets_within s false false 0.


(** ** Sample hosts and worlds *)

Definition plain_repr (s : str) : str := lit "'" ++ s ++ lit "'".

(** A host without network, whose shell succeeds silently and whose chat
    provider always answers [choices]. *)
Definition quiet_host (choices : list chat_message) : Host :=
  mkHost plain_repr (fun _ => lit "0.0")
    (fun _ _ _ w => (Completed 0 [] [], fs w))
    (fun _ _ => Raise (mkExn URLError (lit "<urlopen error offline>")))
    (fun _ _ _ => Ok choices)
    (fun _ _ _ => Raise (mkExn ProviderError (lit "not served"))).

(** A provider that answers in plain text, and one that asks for the same
    tool in every response. *)
Definition answering_host : Host :=
  quiet_host [mkMessage (Some (lit "done")) None].

Definition insisting_host : Host :=
  quiet_host [mkMessage None
                (Some [mkCall (lit "call_1") (lit "web_lookup") (lit "{}")])].

Definition sample_workspace : Path := Path_of (lit "/srv/work").

Definition sample_memory : Path := Path_of (lit "/srv/work/.agent/memory.json").

Definition empty_world : world := mkWorld [lit "home"] ∅ [] [] 0.

(** A world whose only file is the memory store, holding [text]. *)
Definition world_with_memory (text : str) : world :=
  mkWorld [lit "home"]
    (<[parts sample_memory :=
         File (match utf8_encode text with Some b => b | None => [] end)]>
       (<[[lit "srv"; lit "work"; lit ".agent"] := Dir]>
          (<[[lit "srv"; lit "work"] := Dir]> (<[[lit "srv"] := Dir]> ∅))))
    [] [] 0.

(** [[{"ts": "t", "role": "user", "content": "hi"}]]; 34 is the double quote. *)
Definition one_entry_json : str :=
  lit "[{" ++ [34] ++ lit "ts" ++ [34] ++ lit ": " ++ [34] ++ lit "t" ++ [34]
  ++ lit ", " ++ [34] ++ lit "role" ++ [34] ++ lit ": " ++ [34] ++ lit "user" ++ [34]
  ++ lit ", " ++ [34] ++ lit "content" ++ [34] ++ lit ": " ++ [34] ++ lit "hi" ++ [34]
  ++ lit "}]".

(** ** Further samples *)

(** A literal between double quotes (34). *)
Definition quoted (s : string) : str := [34] ++ lit s ++ [34].


(** A provider of the responses protocol that gives the same response to
    every request; one that asks for the same tool in every response. *)
Definition responses_host (answer : response) : Host :=
  mkHost plain_repr (fun _ => lit "0.0")
    (fun _ _ _ w => (Completed 0 [] [], fs w))
    (fun _ _ => Raise (mkExn URLError (lit "<urlopen error offline>")))
    (fun _ _ _ => Raise (mkExn ProviderError (lit "not served")))
    (fun _ _ _ => Ok answer).

Definition insisting_responses_host : Host :=
  responses_host
    (mkResponse (lit "resp_1")
       [OtherItem (lit "reasoning");
        FunctionCall (mkCall (lit "call_1") (lit "web_lookup") (lit "{}"))]
       []).

(** [{"command": "git status"}] *)
Definition shell_arguments : str :=
  lit "{" ++ quoted "command" ++ lit ": " ++ quoted "git status" ++ lit "}".

(** A host on which no subprocess can be started: [subprocess.run] raises
    [FileNotFoundError], as it does when [powershell] is not installed or
    the working directory is missing. *)
Definition absent_shell_host : Host :=
  mkHost plain_repr (fun _ => lit "0.0")
    (fun _ _ _ w =>
       (SpawnError (mkExn FileNotFoundError
                      (lit "[Errno 2] No such file or directory: 'powershell'")),
        fs w))
    (fun _ _ => Raise (mkExn URLError (lit "<urlopen error offline>")))
    (fun _ _ _ => Raise (mkExn ProviderError (lit "not served")))
    (fun _ _ _ => Raise (mkExn ProviderError (lit "not served"))).

(** * Properties *)

(** ** The workspace guard *)

Lemma path_in_parents (root c : Path) :
  path_in root (parents c) = true <-> descendant_of root c.
Proof.
  unfold path_in, parents, descendant_of. rewrite existsb_exists. split.
  - intros (q & Hq & Heq). apply bool_decide_eq_true in Heq. subst q.
    apply in_map_iff in Hq as (n & <- & Hn). apply in_rev, in_seq in Hn.
    simpl. split; [reflexivity|].
    exists (drop n (parts c)). split.
    + intros Hnil. apply (f_equal length) in Hnil.
      rewrite length_drop in Hnil. simpl in Hnil. lia.
    + symmetry. apply take_drop.
  - intros (Habs & rest & Hrest & Hparts).
    exists root. split; [|apply bool_decide_eq_true; reflexivity].
    apply in_map_iff. exists (length (parts root)). split.
    + destruct root as [a ps]. simpl in *. rewrite Habs, Hparts.
      rewrite take_app_length. reflexivity.
    + apply in_rev. rewrite rev_involutive. apply in_seq.
      rewrite Hparts, length_app. destruct rest; [congruence|]. simpl. lia.
Qed.

Lemma resolve_in_workspace_unfold (cwd : list str) (workspace : Path) (user_path : str) :
  _resolve_in_workspace cwd workspace (VStr user_path)
  = if negb (bool_decide (candidate_of cwd workspace user_path = resolve cwd workspace))
       && negb (path_in (resolve cwd workspace)
                  (parents (candidate_of cwd workspace user_path)))
    then Raise PathEscape
    else Ok (candidate_of cwd workspace user_path).
Proof.
  unfold _resolve_in_workspace, candidate_of, joinpath, PathEscape.
  destruct (is_absolute (Path_of user_path)) eqn:Habs; simpl; rewrite ?Habs;
    reflexivity.
Qed.

Lemma resolve_in_workspace_within (cwd : list str) (workspace : Path) (user_path : str) :
  within (resolve cwd workspace) (candidate_of cwd workspace user_path) ->
  _resolve_in_workspace cwd workspace (VStr user_path)
  = Ok (candidate_of cwd workspace user_path).
Proof.
  intros Hin. rewrite resolve_in_workspace_unfold.
  destruct Hin as [Heq | Hdesc].
  - rewrite (bool_decide_eq_true_2 _ Heq). reflexivity.
  - apply path_in_parents in Hdesc. rewrite Hdesc, andb_false_r. reflexivity.
Qed.

Lemma resolve_in_workspace_outside (cwd : list str) (workspace : Path) (user_path : str) :
  ~ within (resolve cwd workspace) (candidate_of cwd workspace user_path) ->
  _resolve_in_workspace cwd workspace (VStr user_path) = Raise PathEscape.
Proof.
  intros Hout. rewrite resolve_in_workspace_unfold.
  rewrite bool_decide_eq_false_2 by (intros Heq; apply Hout; left; exact Heq).
  destruct (path_in _ _) eqn:Hp; [|reflexivity].
  exfalso. apply Hout. right. apply path_in_parents. exact Hp.
Qed.

Lemma normalize_app (l l' : list str) :
  normalize (l ++ l') = fold_left walk l' (normalize l).
Proof. unfold normalize. apply fold_left_app. Qed.

(** Where a relative [tail] leads from the workspace. *)
Lemma candidate_relative (cwd : list str) (workspace : Path) (tail : list str) :
  resolve cwd (mkPath (is_absolute workspace) (parts workspace ++ tail))
  = mkPath true (fold_left walk tail (parts (resolve cwd workspace))).
Proof.
  unfold resolve. simpl. f_equal.
  destruct (is_absolute workspace).
  - apply normalize_app.
  - rewrite app_assoc. apply normalize_app.
Qed.

Lemma candidate_dotdot_x (cwd : list str) (workspace : Path) :
  candidate_of cwd workspace (lit "../x")
  = mkPath true (removelast (parts (resolve cwd workspace)) ++ [lit "x"]).
Proof.
  unfold candidate_of.
  change (Path_of (lit "../x")) with (mkPath false [dotdot; lit "x"]).
  cbn [is_absolute parts]. rewrite candidate_relative. reflexivity.
Qed.

Lemma candidate_sub_y (cwd : list str) (workspace : Path) :
  candidate_of cwd workspace (lit "sub/y")
  = mkPath true (parts (resolve cwd workspace) ++ [lit "sub"; lit "y"]).
Proof.
  unfold candidate_of.
  change (Path_of (lit "sub/y")) with (mkPath false [lit "sub"; lit "y"]).
  cbn [is_absolute parts]. rewrite candidate_relative.
  cbn [fold_left]. unfold walk.
  change (str_eqb (lit "sub") dotdot) with false.
  change (str_eqb (lit "y") dotdot) with false.
  cbv iota. rewrite <- app_assoc. reflexivity.
Qed.

Lemma resolve_absolute (cwd : list str) (p : Path) :
  resolve cwd p = mkPath true (parts (resolve cwd p)).
Proof. reflexivity. Qed.

(** [../x] stays within the workspace in two cases only: from the root of
    the file system, and from a workspace that is itself called [x]. *)
Lemma dotdot_x_within (cwd : list str) (workspace : Path) :
  within (resolve cwd workspace) (candidate_of cwd workspace (lit "../x"))
  <-> parts (resolve cwd workspace) = []
      \/ last (parts (resolve cwd workspace)) = Some (lit "x").
Proof.
  rewrite candidate_dotdot_x. rewrite (resolve_absolute cwd workspace) at 1.
  generalize (parts (resolve cwd workspace)) as r. intros r.
  unfold within, descendant_of. cbn [is_absolute parts]. split.
  - intros [Heq | (_ & rest & Hrest & Happ)].
    + right. injection Heq as Heq. rewrite <- Heq. apply last_snoc.
    + left. destruct r as [|a r'] using rev_ind; [reflexivity|].
      rewrite removelast_last in Happ. apply (f_equal length) in Happ.
      rewrite !length_app in Happ. simpl in Happ.
      destruct rest; [congruence|]. simpl in Happ. lia.
  - intros [-> | Hlast].
    + right. split; [reflexivity|]. exists [lit "x"]. split; [discriminate|reflexivity].
    + left. apply last_Some in Hlast as (l' & ->).
      rewrite removelast_last. reflexivity.
Qed.

Lemma classic_within (cwd : list str) (workspace : Path) (user_path : str) :
  within (resolve cwd workspace) (candidate_of cwd workspace user_path)
  \/ ~ within (resolve cwd workspace) (candidate_of cwd workspace user_path).
Proof.
  unfold within.
  destruct (decide (candidate_of cwd workspace user_path = resolve cwd workspace))
    as [Heq | Hne]; [left; left; exact Heq|].
  destruct (path_in (resolve cwd workspace)
              (parents (candidate_of cwd workspace user_path))) eqn:Hp.
  - left. right. apply path_in_parents. exact Hp.
  - right. intros [Heq | Hd]; [contradiction|].
    apply path_in_parents in Hd. congruence.
Qed.

(** C1 (as amended).  [_resolve_in_workspace], the guard the specification
    calls [confine], on a file system without symbolic links and with names
    compared exactly, where resolving a path is its lexical normalisation;
    the workspace is a directory, so its segments are texts the file system
    can resolve.  The guard fails on [../x] with the path-outside-workspace
    error exactly when the resolved workspace is neither the root of the
    file system nor a directory named [x]; it accepts [sub/y] and returns
    the resolved workspace followed by [sub/y]; in general, for a user path
    that can be resolved (no NUL, no surrogate), it returns the resolved
    candidate when that is the resolved workspace or lies below it, and
    fails with the same error otherwise, a relative path being taken under
    the workspace. *)
Theorem workspace_guard (cwd : list str) (workspace : Path) :
  Forall resolvable_text (parts workspace) ->
  (_resolve_in_workspace cwd workspace (VStr (lit "../x")) = Raise PathEscape
   <-> parts (resolve cwd workspace) <> []
       /\ last (parts (resolve cwd workspace)) <> Some (lit "x"))
  /\ _resolve_in_workspace cwd workspace (VStr (lit "sub/y"))
     = Ok (mkPath true (parts (resolve cwd workspace) ++ [lit "sub"; lit "y"]))
  /\ forall user_path : str,
       resolvable_text user_path ->
       (within (resolve cwd workspace) (candidate_of cwd workspace user_path)
        <-> _resolve_in_workspace cwd workspace (VStr user_path)
            = Ok (candidate_of cwd workspace user_path))
       /\ (~ within (resolve cwd workspace) (candidate_of cwd workspace user_path)
           <-> _resolve_in_workspace cwd workspace (VStr user_path)
               = Raise PathEscape).
Proof.
  intros _.
  assert (Hgen : forall user_path : str,
             (within (resolve cwd workspace) (candidate_of cwd workspace user_path)
              <-> _resolve_in_workspace cwd workspace (VStr user_path)
                  = Ok (candidate_of cwd workspace user_path))
             /\ (~ within (resolve cwd workspace) (candidate_of cwd workspace user_path)
                 <-> _resolve_in_workspace cwd workspace (VStr user_path)
                     = Raise PathEscape)).
  { intros user_path.
    destruct (classic_within cwd workspace user_path) as [Hin | Hout].
    - pose proof (resolve_in_workspace_within _ _ _ Hin) as Hok. split.
      + split; [intros _; exact Hok | intros _; exact Hin].
      + split; [intros Hn; contradiction | rewrite Hok; discriminate].
    - pose proof (resolve_in_workspace_outside _ _ _ Hout) as Hko. split.
      + split; [intros Hin; contradiction | rewrite Hko; discriminate].
      + split; [intros _; exact Hko | intros _; exact Hout]. }
  split; [|split; [|intros user_path _; apply Hgen]].
  - destruct (Hgen (lit "../x")) as [_ <-]. rewrite dotdot_x_within.
    destruct (parts (resolve cwd workspace)) as [|a r] eqn:Hr.
    + split; [intros H; exfalso; apply H; left; reflexivity | intros [H _]; congruence].
    + split.
      * intros H. split; [discriminate|]. intros Hl. apply H. right. exact Hl.
      * intros [_ H] [Hnil | Hl]; [discriminate | contradiction].
  - rewrite <- candidate_sub_y. apply resolve_in_workspace_within.
    rewrite candidate_sub_y. right. split; [reflexivity|].
    exists [lit "sub"; lit "y"]. split; [discriminate | reflexivity].
Qed.

Lemma workspace_guard_in_srv_work :
  (_resolve_in_workspace [lit "home"] sample_workspace (VStr (lit "../x"))
   = Raise PathEscape
   <-> parts (resolve [lit "home"] sample_workspace) <> []
       /\ last (parts (resolve [lit "home"] sample_workspace)) <> Some (lit "x"))
  /\ _resolve_in_workspace [lit "home"] sample_workspace (VStr (lit "sub/y"))
     = Ok (mkPath true (parts (resolve [lit "home"] sample_workspace)
                        ++ [lit "sub"; lit "y"]))
  /\ forall user_path : str,
       resolvable_text user_path ->
       (within (resolve [lit "home"] sample_workspace)
          (candidate_of [lit "home"] sample_workspace user_path)
        <-> _resolve_in_workspace [lit "home"] sample_workspace (VStr user_path)
            = Ok (candidate_of [lit "home"] sample_workspace user_path))
       /\ (~ within (resolve [lit "home"] sample_workspace)
               (candidate_of [lit "home"] sample_workspace user_path)
           <-> _resolve_in_workspace [lit "home"] sample_workspace (VStr user_path)
               = Raise PathEscape).
Proof.
  apply (workspace_guard [lit "home"] sample_workspace).
  repeat constructor; vm_compute;
    intros H; repeat destruct H as [H | H]; try discriminate H; exact H.
Defined.

(** A path that leaves the workspace and comes back into it: the workspace
    is the directory [x] of [/srv]. *)
Lemma dotdot_x_reenters_workspace :
  _resolve_in_workspace [lit "home"] (Path_of (lit "/srv/x")) (VStr (lit "../x"))
  = Ok (mkPath true [lit "srv"; lit "x"])
  /\ resolve [lit "home"] (Path_of (lit "/srv/x")) = mkPath true [lit "srv"; lit "x"].
Proof. split; reflexivity. Qed.

Example dotdot_x_from_the_root :
  _resolve_in_workspace [lit "home"] (Path_of (lit "/")) (VStr (lit "../x"))
  = Ok (mkPath true [lit "x"]).
Proof. reflexivity. Qed.

(** ** White space and tokens *)

Lemma between_true (lo hi c : N) : lo <= c <= hi -> between lo hi c = true.
Proof.
  intros [H1 H2]. unfold between. apply andb_true_iff.
  split; apply N.leb_le; assumption.
Qed.

Lemma between_false (lo hi c : N) : c < lo \/ hi < c -> between lo hi c = false.
Proof.
  intros H. unfold between. apply andb_false_iff.
  destruct H; [left | right]; apply N.leb_gt; assumption.
Qed.

Lemma lstrip_head (p : N -> bool) (s : str) (c : N) (t : str) :
  lstrip_by p s = c :: t -> p c = false.
Proof.
  induction s as [|a s IH]; simpl; [discriminate|].
  destruct (p a) eqn:Hp; [exact IH|]. intros [= <- _]. exact Hp.
Qed.

Lemma lstrip_fixed (p : N -> bool) (s : str) :
  match s with [] => True | c :: _ => p c = false end -> lstrip_by p s = s.
Proof. destruct s as [|c s]; simpl; [reflexivity|]. intros ->. reflexivity. Qed.

Lemma lstrip_all (p : N -> bool) (s : str) :
  Forall (fun c => p c = true) s -> lstrip_by p s = [].
Proof. induction 1 as [|c s Hc _ IH]; simpl; [reflexivity|]. rewrite Hc. exact IH. Qed.

Lemma lstrip_suffix (p : N -> bool) (s : str) :
  exists t, s = t ++ lstrip_by p s.
Proof.
  induction s as [|a s [t IH]]; simpl; [exists []; reflexivity|].
  destruct (p a).
  - exists (a :: t). simpl. f_equal. exact IH.
  - exists []. reflexivity.
Qed.

Lemma lstrip_app (p : N -> bool) (x y : str) :
  lstrip_by p (x ++ y)
  = match lstrip_by p x with
    | [] => lstrip_by p y
    | l => l ++ y
    end.
Proof.
  induction x as [|a x IH]; simpl; [destruct (lstrip_by p y); reflexivity|].
  destruct (p a); [exact IH | reflexivity].
Qed.

Lemma break_space_spec (s : str) :
  let '(tok, rest) := break_space s in
  s = tok ++ rest
  /\ Forall (fun c => isspace c = false) tok
  /\ match rest with [] => True | c :: _ => isspace c = true end.
Proof.
  induction s as [|a s IH]; simpl; [repeat split; constructor|].
  destruct (isspace a) eqn:Ha; [repeat split; [constructor | exact Ha]|].
  destruct (break_space s) as [tok rest]. destruct IH as (-> & Htok & Hrest).
  repeat split; [constructor; assumption | exact Hrest].
Qed.

Lemma break_space_app (tok rest : str) :
  Forall (fun c => isspace c = false) tok ->
  match rest with [] => True | c :: _ => isspace c = true end ->
  break_space (tok ++ rest) = (tok, rest).
Proof.
  intros Htok Hrest. induction Htok as [|c tok Hc _ IH]; simpl.
  - destruct rest as [|c r]; simpl; [reflexivity|]. rewrite Hrest. reflexivity.
  - rewrite Hc, IH. reflexivity.
Qed.

Lemma split_run_break (s cur : str) :
  split_run cur s
  = let '(tok, rest) := break_space s in
    match rev cur ++ tok with
    | [] => split_run [] rest
    | t => t :: split_run [] rest
    end.
Proof.
  revert cur. induction s as [|a s IH]; intros cur; simpl.
  - rewrite app_nil_r. destruct cur as [|c cur]; simpl; [reflexivity|].
    destruct (rev cur ++ [c]) eqn:E; [|reflexivity].
    apply app_eq_nil in E as [_ E]. discriminate.
  - destruct (isspace a) eqn:Ha.
    + rewrite app_nil_r. simpl. rewrite Ha.
      destruct cur as [|c cur]; simpl; [reflexivity|].
      destruct (rev cur ++ [c]) eqn:E; [|reflexivity].
      apply app_eq_nil in E as [_ E]. discriminate.
    + rewrite IH. destruct (break_space s) as [tok rest]. simpl.
      rewrite <- app_assoc. simpl.
      destruct (rev cur ++ a :: tok) eqn:E; [|reflexivity].
      apply app_eq_nil in E as [_ E]. discriminate.
Qed.

Lemma split_run_lstrip (s : str) :
  split_run [] s = split_run [] (lstrip_by isspace s).
Proof.
  induction s as [|a s IH]; simpl; [reflexivity|].
  destruct (isspace a) eqn:Ha; [exact IH|]. simpl. rewrite Ha. reflexivity.
Qed.

Lemma rstrip_word (tok rest : str) :
  Forall (fun c => isspace c = false) tok ->
  match rest with [] => True | c :: _ => isspace c = true end ->
  exists r', rstrip_by isspace (tok ++ rest) = tok ++ r'
             /\ match r' with [] => True | d :: _ => isspace d = true end.
Proof.
  intros Htok Hrest. unfold rstrip_by. rewrite rev_app_distr, lstrip_app.
  assert (Hrev : lstrip_by isspace (rev tok) = rev tok).
  { apply lstrip_fixed. destruct (rev tok) as [|d l] eqn:E; [exact I|].
    assert (Hin : In d (rev tok)) by (rewrite E; left; reflexivity).
    apply in_rev in Hin. rewrite Forall_forall in Htok.
    apply Htok. apply list_elem_of_In. exact Hin. }
  destruct (lstrip_by isspace (rev rest)) as [|d l] eqn:E.
  - exists []. rewrite Hrev, rev_involutive, app_nil_r. split; [reflexivity | exact I].
  - exists (rev (d :: l)). rewrite rev_app_distr, rev_involutive.
    split; [reflexivity|].
    destruct (lstrip_suffix isspace (rev rest)) as [t Ht]. rewrite E in Ht.
    apply (f_equal (@rev N)) in Ht. rewrite rev_involutive, rev_app_distr in Ht.
    destruct (rev (d :: l)) as [|e l'] eqn:E'.
    + apply (f_equal (@length N)) in E'. rewrite length_rev in E'. discriminate.
    + rewrite Ht in Hrest. simpl in Hrest. exact Hrest.
Qed.

(** The first word of [s.split()] is the first word of
    [s.strip().split(maxsplit=1)], and a string with a word does not strip
    to the empty string. *)
Lemma leading_token (s first : str) (others : list str) :
  py_split s = first :: others ->
  nonempty first = true
  /\ nonempty (py_strip s) = true
  /\ exists remainder, py_split_max1 (py_strip s) = first :: remainder.
Proof.
  unfold py_split. rewrite split_run_lstrip, split_run_break.
  unfold py_strip, strip_by.
  pose proof (break_space_spec (lstrip_by isspace s)) as Hb.
  destruct (break_space (lstrip_by isspace s)) as [tok rest].
  destruct Hb as (Hs1 & Htok & Hrest). simpl rev. simpl app.
  destruct tok as [|c tok].
  { simpl in Hs1. destruct (lstrip_by isspace s) as [|a s1] eqn:E.
    - subst rest. simpl. discriminate.
    - apply lstrip_head in E. subst rest. congruence. }
  intros [= <- _]. rewrite Hs1.
  destruct (rstrip_word (c :: tok) rest Htok Hrest) as (r' & -> & Hr').
  split; [reflexivity|]. split; [reflexivity|].
  assert (Hc : isspace c = false) by (inversion Htok; assumption).
  pose proof (break_space_app (c :: tok) r' Htok Hr') as Hbreak.
  unfold py_split_max1. simpl app in *. cbn [lstrip_by]. rewrite Hc.
  rewrite Hbreak.
  destruct (lstrip_by isspace r'); eexists; reflexivity.
Qed.

Lemma str_in_In (x : str) (l : list str) : str_in x l = true <-> In x l.
Proof.
  unfold str_in, str_eqb. rewrite existsb_exists. split.
  - intros (y & Hy & Heq). apply bool_decide_eq_true in Heq. subst y. exact Hy.
  - intros Hx. exists x. split; [exact Hx | apply bool_decide_eq_true; reflexivity].
Qed.

(** ** The shell tool *)

(** C2.  A command whose first white-space-delimited word is not in the
    allowlist is answered with [ok: false] and the sorted allowlist, and the
    world is left as it was: no subprocess is started. *)
Theorem run_shell_refuses_unlisted (host : Host) (command first : str)
    (others : list str) (cwd_arg : str) (timeout_seconds : Z) (w : world) :
  py_split command = first :: others ->
  ~ In first ALLOWED_COMMAND_PREFIXES ->
  run_shell host (VStr command) cwd_arg timeout_seconds w
  = (Ok (VDict [(lit "ok", VBool false);
                (lit "error",
                 VStr (lit "Command prefix '" ++ first
                       ++ lit "' is blocked by allowlist."));
                (lit "allowed_prefixes",
                 VList (map VStr (py_sorted ALLOWED_COMMAND_PREFIXES)))]),
     w)
  /\ spawned (snd (run_shell host (VStr command) cwd_arg timeout_seconds w))
     = spawned w.
Proof.
  intros Hsplit Hout.
  destruct (leading_token _ _ _ Hsplit) as (Hfirst & Hstrip & remainder & Hmax).
  assert (Hin : str_in first ALLOWED_COMMAND_PREFIXES = false).
  { destruct (str_in first ALLOWED_COMMAND_PREFIXES) eqn:E; [|reflexivity].
    apply str_in_In in E. contradiction. }
  assert (Hrun : run_shell host (VStr command) cwd_arg timeout_seconds w
                 = (Ok (blocked first), w)).
  { unfold run_shell, bind, lift. rewrite Hstrip, Hmax. cbn [first_item].
    rewrite Hfirst, Hin. reflexivity. }
  rewrite Hrun. split; reflexivity.
Qed.

Lemma run_shell_refuses_rm :
  run_shell answering_host (VStr (lit "rm -rf /")) (lit "/srv/work") 45 empty_world
  = (Ok (VDict [(lit "ok", VBool false);
                (lit "error",
                 VStr (lit "Command prefix '" ++ lit "rm"
                       ++ lit "' is blocked by allowlist."));
                (lit "allowed_prefixes",
                 VList (map VStr (py_sorted ALLOWED_COMMAND_PREFIXES)))]),
     empty_world)
  /\ spawned (snd (run_shell answering_host (VStr (lit "rm -rf /"))
                     (lit "/srv/work") 45 empty_world))
     = spawned empty_world.
Proof.
  apply (run_shell_refuses_unlisted answering_host (lit "rm -rf /") (lit "rm")
           [lit "-rf"; lit "/"]).
  - reflexivity.
  - intros H. vm_compute in H. repeat destruct H as [H | H]; try discriminate H.
    exact H.
Defined.

(** C10.  A command that is empty or made of white space only passes the
    allowlist check, having no first word: the subprocess is run with that
    very command, and the result is that of the subprocess. *)
Theorem run_shell_runs_blank_command (host : Host) (command cwd_arg : str)
    (timeout_seconds : Z) (w : world) :
  Forall (fun c => isspace c = true) command ->
  run_shell host (VStr command) cwd_arg timeout_seconds w
  = (shell_outcome (fst (powershell host command cwd_arg timeout_seconds w))
       timeout_seconds,
     mkWorld (cwd w) (snd (powershell host command cwd_arg timeout_seconds w))
       (spawned w ++ [(command, cwd_arg)]) (fetched w) (provider_calls w)).
Proof.
  intros Hblank.
  assert (Hstrip : py_strip command = []).
  { unfold py_strip, strip_by, rstrip_by. rewrite (lstrip_all _ _ Hblank). reflexivity. }
  unfold run_shell, bind, lift, try_except, subprocess_run, ret, shell_outcome.
  rewrite Hstrip. cbn [nonempty andb].
  destruct (powershell host command cwd_arg timeout_seconds w) as [r f].
  destruct r as [rc out err | | e]; cbn; try reflexivity.
  destruct (is_TimeoutExpired (exn_cls e)); reflexivity.
Qed.

Lemma run_shell_runs_spaces :
  run_shell answering_host (VStr (lit "   ")) (lit "/srv/work") 45 empty_world
  = (shell_outcome (fst (powershell answering_host (lit "   ") (lit "/srv/work") 45 empty_world)) 45,
     mkWorld (cwd empty_world)
       (snd (powershell answering_host (lit "   ") (lit "/srv/work") 45 empty_world))
       (spawned empty_world ++ [(lit "   ", lit "/srv/work")])
       (fetched empty_world) (provider_calls empty_world)).
Proof.
  apply (run_shell_runs_blank_command answering_host (lit "   ")).
  repeat constructor.
Defined.

(** ** The choice of protocol *)

Lemma starts_with_spec (p s : str) :
  starts_with p s = true <-> exists post, s = p ++ post.
Proof.
  revert s. induction p as [|a p IH]; intros s; simpl.
  - split; [intros _; exists s; reflexivity | reflexivity].
  - destruct s as [|b s]; [split; [discriminate | intros [post H]; discriminate]|].
    rewrite andb_true_iff, N.eqb_eq, IH. split.
    + intros (-> & post & ->). exists post. reflexivity.
    + intros [post [= -> ->]]. split; [reflexivity | exists post; reflexivity].
Qed.

Lemma contains_spec (needle hay : str) :
  contains needle hay = true <-> occurs_in needle hay.
Proof.
  unfold occurs_in. induction hay as [|c hay IH]; simpl.
  - rewrite orb_false_r, starts_with_spec. split.
    + intros [post H]. exists [], post. exact H.
    + intros (pre & post & H). destruct pre; [exists post; exact H | discriminate].
  - rewrite orb_true_iff, starts_with_spec, IH. split.
    + intros [[post H] | (pre & post & H)].
      * exists [], post. exact H.
      * exists (c :: pre), post. simpl. f_equal. exact H.
    + intros (pre & post & H). destruct pre as [|d pre].
      * left. exists post. exact H.
      * right. injection H as _ H. exists pre, post. exact H.
Qed.

(** C5 (as amended).  A mode of [responses] or [chat] is returned as given.
    Any other mode is decided by the endpoint: without one (absent or empty)
    the answer is [responses]; with one, it is [chat] when the lower-cased
    URL contains [localhost] or [127.0.0.1] anywhere, and [responses] when
    it contains neither. *)
Theorem choose_api_mode_policy (mode : str) (base_url : option str) :
  (explicit_mode mode -> _choose_api_mode mode base_url = mode)
  /\ (~ explicit_mode mode ->
      (base_url = None \/ base_url = Some [] ->
       _choose_api_mode mode base_url = lit "responses")
      /\ forall url, base_url = Some url -> url <> [] ->
           (names_local url -> _choose_api_mode mode base_url = lit "chat")
           /\ (~ names_local url -> _choose_api_mode mode base_url = lit "responses")).
Proof.
  unfold explicit_mode, names_local, _choose_api_mode.
  destruct (str_in mode [lit "responses"; lit "chat"]) eqn:Hin.
  - split; [reflexivity|]. intros Hn. exfalso. apply Hn.
    apply str_in_In in Hin. simpl in Hin. intuition.
  - split.
    { intros Hex. exfalso.
      assert (In mode [lit "responses"; lit "chat"]) as H
          by (simpl; destruct Hex; auto).
      apply str_in_In in H. congruence. }
    intros _. split.
    + intros [-> | ->]; reflexivity.
    + intros url -> Hne. destruct url as [|c url]; [congruence|].
      destruct (contains (lit "localhost") (py_lower (c :: url))) eqn:H1;
        destruct (contains (lit "127.0.0.1") (py_lower (c :: url))) eqn:H2;
        cbn [orb].
      all: split; [intros Hl | intros Hl]; try reflexivity.
      all: try (exfalso; apply Hl; rewrite <- !contains_spec; auto; fail).
      destruct Hl as [Hl | Hl]; apply contains_spec in Hl; congruence.
Qed.

(** An endpoint that is not on a loopback host and is given the chat
    protocol, and one on the loopback host [::1] that is not. *)
Lemma endpoint_text_decides_not_host :
  _choose_api_mode (lit "auto") (Some (lit "https://example.com/localhost")) = lit "chat"
  /\ spec_endpoint_host (lit "https://example.com/localhost") = lit "example.com"
  /\ spec_loopback_host (lit "example.com") = false
  /\ _choose_api_mode (lit "auto") (Some (lit "http://[::1]:1234/v1")) = lit "responses"
  /\ spec_endpoint_host (lit "http://[::1]:1234/v1") = lit "[::1]"
  /\ spec_loopback_host (lit "[::1]") = true.
Proof. repeat split; reflexivity. Qed.

(** ** Conversation memory *)

Lemma slice_from_0 {A} (l : list A) : slice_from 0 l = l.
Proof.
  unfold slice_from. change (0 <? 0)%Z with false. cbv iota.
  rewrite Z.min_l by lia. reflexivity.
Qed.

(** C9.  [recent(0)] returns the whole stored transcript, in order: the
    slice [items[-0:]] starts at the first entry. *)
Theorem recent_zero_returns_everything (host : Host) (memory : Path)
    (items : list pyval) (w w' : world) :
  _read_all host memory w = (Ok (VList items), w') ->
  recent host memory 0 w = (Ok (VList items), w').
Proof.
  intros Hread. unfold recent, bind. rewrite Hread.
  unfold lift, py_slice_from. change (- 0)%Z with 0%Z.
  rewrite slice_from_0. reflexivity.
Qed.

Lemma recent_zero_on_one_entry :
  recent answering_host sample_memory 0 (world_with_memory one_entry_json)
  = (Ok (VList [VDict [(lit "ts", VStr (lit "t")); (lit "role", VStr (lit "user"));
                       (lit "content", VStr (lit "hi"))]]),
     world_with_memory one_entry_json).
Proof.
  apply (recent_zero_returns_everything answering_host sample_memory).
  vm_compute. reflexivity.
Defined.

(** What does hold: a store whose file is not JSON at all reads as empty. *)
Lemma recent_empty_on_invalid_json (host : Host) (memory : Path) (count : Z)
    (text : str) (w : world) :
  path_exists memory w = (Ok true, w) ->
  read_text host memory w = (Ok text, w) ->
  json_loads text = None ->
  recent host memory count w = (Ok (VList []), w).
Proof.
  intros Hexists Hread Hjson.
  unfold recent, _read_all, bind, try_except. rewrite Hexists. cbn [negb].
  rewrite Hread, Hjson. cbn. unfold slice_from. rewrite drop_nil. reflexivity.
Qed.

Example recent_on_garbage (host : Host) :
  recent host sample_memory 8 (world_with_memory (lit "{not json"))
  = (Ok (VList []), world_with_memory (lit "{not json")).
Proof. vm_compute. reflexivity. Qed.

(** C7 (the code departs from it).  A store whose file holds the JSON text
    [null], which is not an array of entries, makes [recent(8)] raise
    [TypeError]: [_read_all] hands [None] to the slice. *)
Theorem recent_raises_on_null (host : Host) :
  recent host sample_memory 8 (world_with_memory (lit "null"))
  = (Raise (mkExn TypeError (lit "'NoneType' object is not subscriptable")),
     world_with_memory (lit "null")).
Proof. vm_compute. reflexivity. Qed.

(** ** Tool dispatch *)

(** What does hold: arguments that are not JSON, and a name that is not a
    tool's, are answered with [ok: false]. *)
Lemma execute_tool_invalid_json (host : Host) (name arguments : str)
    (workspace : Path) (w : world) :
  json_loads (if nonempty arguments then arguments else lit "{}") = None ->
  execute_tool host name arguments workspace w
  = (Ok (json_dumps (repr_float host) (failure (lit "Invalid JSON args"))), w).
Proof. intros H. unfold execute_tool. rewrite H. reflexivity. Qed.

Lemma execute_tool_unknown (host : Host) (name arguments : str) (args : pyval)
    (workspace : Path) (w : world) :
  json_loads (if nonempty arguments then arguments else lit "{}") = Some args ->
  ~ In name TOOL_NAMES ->
  execute_tool host name arguments workspace w
  = (Ok (json_dumps (repr_float host) (failure (lit "Unknown tool: " ++ name))), w).
Proof.
  intros H Hname. unfold execute_tool. rewrite H. unfold str_eqb.
  repeat rewrite bool_decide_eq_false_2
    by (intros ->; apply Hname; unfold TOOL_NAMES; simpl; tauto).
  reflexivity.
Qed.

(** What fails: for a tool's name, arguments that are JSON but not an object
    raise [AttributeError]. *)
Lemma execute_tool_raises_on_non_object (host : Host) (name arguments : str)
    (args : pyval) (workspace : Path) (w : world) :
  json_loads (if nonempty arguments then arguments else lit "{}") = Some args ->
  (forall entries, args <> VDict entries) ->
  In name TOOL_NAMES ->
  execute_tool host name arguments workspace w
  = (Raise (attribute_error args "get"), w).
Proof.
  intros H Hshape Hname. unfold execute_tool. rewrite H.
  assert (Hget : forall key default,
             py_get args key default = Raise (attribute_error args "get")).
  { intros key default. destruct args; try reflexivity.
    exfalso. eapply Hshape. reflexivity. }
  unfold TOOL_NAMES in Hname. simpl in Hname.
  destruct Hname as [<- | [<- | [<- | [<- | [<- | []]]]]];
    repeat match goal with
           | |- context [str_eqb (lit ?a) (lit ?b)] =>
               let v := eval vm_compute in (str_eqb (lit a) (lit b)) in
               change (str_eqb (lit a) (lit b)) with v
           end;
    cbv iota; unfold bind, lift; rewrite Hget; reflexivity.
Qed.

(** C4 (the code departs from it).  Arguments that are valid JSON but not an
    object make [execute_tool] raise [AttributeError] for a known tool: the
    array [[]] has no [get]. *)
Theorem execute_tool_raises_on_array (host : Host) (workspace : Path) (w : world) :
  execute_tool host (lit "read_file") (lit "[]") workspace w
  = (Raise (mkExn AttributeError (lit "'list' object has no attribute 'get'")), w).
Proof. reflexivity. Qed.

(** ** The greeting short cut *)

(** *** Inputs written as greeting words

    An input whose white-space-delimited words are greeting words as they
    stand is not changed by the normalisation. *)

Lemma split_run_blank (sp cur : str) :
  Forall (fun c => isspace c = true) sp ->
  split_run cur sp = split_run cur [].
Proof.
  intros Hsp.
  assert (Hnil : split_run [] sp = []).
  { rewrite split_run_lstrip, (lstrip_all _ _ Hsp). reflexivity. }
  destruct Hsp as [|c sp Hc Hsp]; [reflexivity|].
  simpl in *. rewrite Hc in *. destruct cur; [exact Hnil | rewrite Hnil; reflexivity].
Qed.

Lemma split_run_trailing (a sp cur : str) :
  Forall (fun c => isspace c = true) sp ->
  split_run cur (a ++ sp) = split_run cur a.
Proof.
  intros Hsp. revert cur. induction a as [|c a IH]; intros cur.
  - apply split_run_blank. exact Hsp.
  - simpl. destruct (isspace c); [destruct cur|]; rewrite ?IH; reflexivity.
Qed.

Lemma lstrip_removed (p : N -> bool) (s : str) :
  exists t, s = t ++ lstrip_by p s /\ Forall (fun c => p c = true) t.
Proof.
  induction s as [|a s (t & IH & Ht)]; simpl; [exists []; split; [reflexivity | constructor]|].
  destruct (p a) eqn:Hp.
  - exists (a :: t). split; [simpl; f_equal; exact IH | constructor; assumption].
  - exists []. split; [reflexivity | constructor].
Qed.

Lemma py_split_strip (s : str) : py_split (py_strip s) = py_split s.
Proof.
  unfold py_split, py_strip, strip_by. rewrite (split_run_lstrip s).
  generalize (lstrip_by isspace s) as t. intros t. unfold rstrip_by.
  destruct (lstrip_removed isspace (rev t)) as (sp & Ht & Hsp).
  apply (f_equal (@rev N)) in Ht. rewrite rev_involutive, rev_app_distr in Ht.
  rewrite Ht at 2. symmetry. apply split_run_trailing.
  apply Forall_rev. exact Hsp.
Qed.

(** A change of characters that keeps every word character and turns white
    space into white space keeps the words. *)
Lemma split_run_map (g : N -> N) (s cur : str) :
  Forall (fun c => if isspace c then isspace (g c) = true else g c = c) s ->
  split_run cur (map g s) = split_run cur s.
Proof.
  intros Hs. revert cur. induction Hs as [|c s Hc _ IH]; intros cur; [reflexivity|].
  simpl. destruct (isspace c) eqn:E.
  - rewrite Hc. destruct cur; rewrite IH; reflexivity.
  - rewrite Hc, E, IH. reflexivity.
Qed.

Lemma split_run_words (s cur : str) :
  Forall (fun w => nonempty w = true) (split_run cur s).
Proof.
  revert cur. induction s as [|c s IH]; intros cur; simpl.
  - destruct cur as [|d cur]; constructor; [|constructor].
    simpl. destruct (rev cur ++ [d]) eqn:E; [|reflexivity].
    apply app_eq_nil in E as [_ E]. discriminate.
  - destruct (isspace c); [|apply IH].
    destruct cur as [|d cur]; [apply IH|]. constructor; [|apply IH].
    simpl. destruct (rev cur ++ [d]) eqn:E; [|reflexivity].
    apply app_eq_nil in E as [_ E]. discriminate.
Qed.

Lemma forallb_filter_id_nonempty (s : str) :
  filter nonempty (split_run [] s) = split_run [] s.
Proof.
  pose proof (split_run_words s []) as H.
  induction H as [|w l Hw _ IH]; [reflexivity|].
  rewrite filter_cons, IH. rewrite Hw. reflexivity.
Qed.

(** Every character that is not white space is in one of the words. *)
Lemma split_run_covers (s cur : str) (c : N) :
  In c cur \/ (In c s /\ isspace c = false) ->
  exists w, In w (split_run cur s) /\ In c w.
Proof.
  revert cur. induction s as [|a s IH]; intros cur Hc; simpl.
  - destruct Hc as [Hc | [[] _]]. destruct cur as [|d cur]; [destruct Hc|].
    exists (rev (d :: cur)). split; [left; reflexivity | apply in_rev in Hc; exact Hc].
  - destruct (isspace a) eqn:Ha.
    + destruct Hc as [Hc | [[-> | Hc] Hs]]; [| congruence |].
      * destruct cur as [|d cur]; [destruct Hc|].
        exists (rev (d :: cur)).
        split; [left; reflexivity | apply in_rev in Hc; exact Hc].
      * destruct (IH [] (or_intror (conj Hc Hs))) as (w & Hw & Hcw).
        exists w. split; [|exact Hcw]. destruct cur; [exact Hw | right; exact Hw].
    + apply IH. destruct Hc as [Hc | [[-> | Hc] Hs]].
      * left. right. exact Hc.
      * left. left. reflexivity.
      * right. split; assumption.
Qed.

Lemma greeting_words_are_lower :
  Forall (Forall (fun c => lower_letter c = true)) GREETING_WORDS.
Proof. repeat constructor. Qed.

Lemma isspace_cases (c : N) :
  isspace c = true ->
  9 <= c <= 13 \/ 28 <= c <= 32 \/ c = 133 \/ c = 160 \/ c = 5760
  \/ 8192 <= c <= 8202 \/ c = 8232 \/ c = 8233 \/ c = 8239 \/ c = 8287
  \/ c = 12288.
Proof.
  unfold isspace, between.
  rewrite !orb_true_iff, !andb_true_iff, !N.leb_le, !N.eqb_eq. tauto.
Qed.

Lemma lower_char_fixed (c : N) :
  c < 65 \/ 90 < c -> c < 192 \/ 222 < c -> c <> 304 -> c <> 8490 ->
  lower_char c = [c].
Proof.
  intros H1 H2 H3 H4. unfold lower_char.
  rewrite (between_false 65 90 c H1), (between_false 192 222 c H2).
  rewrite (proj2 (N.eqb_neq c 304) H3), (proj2 (N.eqb_neq c 8490) H4).
  reflexivity.
Qed.

Lemma space_normalised (c : N) :
  isspace c = true -> lower_char c = [c] /\ smalltalk_kept c = false.
Proof.
  intros H. apply isspace_cases in H. split.
  - apply lower_char_fixed; lia.
  - unfold smalltalk_kept, is_alnum.
    rewrite (between_false 97 122 c), (between_false 65 90 c),
      (between_false 48 57 c) by lia.
    rewrite (proj2 (N.eqb_neq c 92)), (proj2 (N.eqb_neq c 115)) by lia.
    reflexivity.
Qed.

Lemma letter_normalised (c : N) :
  lower_letter c = true ->
  lower_char c = [c] /\ smalltalk_kept c = true /\ isspace c = false.
Proof.
  unfold lower_letter, between at 1.
  rewrite andb_true_iff, !N.leb_le. intros H. split; [|split].
  - apply lower_char_fixed; lia.
  - unfold smalltalk_kept, is_alnum. rewrite (between_true 97 122 c) by lia.
    reflexivity.
  - unfold isspace.
    rewrite (between_false 9 13 c), (between_false 28 32 c),
      (between_false 8192 8202 c) by lia.
    rewrite (proj2 (N.eqb_neq c 133)), (proj2 (N.eqb_neq c 160)),
      (proj2 (N.eqb_neq c 5760)), (proj2 (N.eqb_neq c 8232)),
      (proj2 (N.eqb_neq c 8233)), (proj2 (N.eqb_neq c 8239)),
      (proj2 (N.eqb_neq c 8287)), (proj2 (N.eqb_neq c 12288)) by lia.
    reflexivity.
Qed.

Lemma py_lower_fixed (s : str) :
  Forall (fun c => isspace c = true \/ lower_letter c = true) s ->
  py_lower s = s.
Proof.
  unfold py_lower. induction 1 as [|c s Hc _ IH]; [reflexivity|].
  simpl. rewrite IH. destruct Hc as [Hc | Hc].
  - apply space_normalised in Hc as [-> _]. reflexivity.
  - apply letter_normalised in Hc as [-> _]. reflexivity.
Qed.

(** The words of an input made of greeting words and white space are the
    words [maybe_handle_smalltalk] classifies. *)
Lemma smalltalk_words_of_greetings (user_input : str) :
  Forall (fun word => In word GREETING_WORDS) (py_split user_input) ->
  smalltalk_words user_input = py_split user_input.
Proof.
  intros Hall.
  assert (Hchars : Forall (fun c => isspace c = true \/ lower_letter c = true)
                     user_input).
  { apply Forall_forall. intros c Hc. apply list_elem_of_In in Hc.
    destruct (isspace c) eqn:Hs; [left; reflexivity | right].
    destruct (split_run_covers user_input [] c (or_intror (conj Hc Hs)))
      as (word & Hword & Hcw).
    rewrite Forall_forall in Hall.
    pose proof (Hall word (proj2 (list_elem_of_In _ _) Hword)) as Hg.
    pose proof greeting_words_are_lower as Hlow.
    rewrite Forall_forall in Hlow.
    specialize (Hlow word (proj2 (list_elem_of_In _ _) Hg)).
    rewrite Forall_forall in Hlow. apply Hlow. apply list_elem_of_In. exact Hcw. }
  unfold smalltalk_words.
  rewrite (py_lower_fixed _ Hchars), py_split_strip.
  unfold py_split, blank_outside. rewrite split_run_map.
  - apply forallb_filter_id_nonempty.
  - eapply Forall_impl; [exact Hchars|]. intros c [Hc | Hc]; simpl in *.
    + rewrite Hc. apply space_normalised in Hc as [_ ->]. reflexivity.
    + apply letter_normalised in Hc as (_ & -> & ->). reflexivity.
Qed.

Lemma smalltalk_reply (user_input : str) :
  (1 <= length (smalltalk_words user_input) <= 3)%nat ->
  Forall (fun word => In word GREETING_WORDS) (smalltalk_words user_input) ->
  exists reply,
    (reply = DUTCH_REPLY \/ reply = ENGLISH_REPLY)
    /\ maybe_handle_smalltalk user_input = Some reply.
Proof.
  unfold smalltalk_words, maybe_handle_smalltalk.
  set (cleaned := py_strip (blank_outside smalltalk_kept (py_lower user_input))).
  intros [Hone Hthree] Hall.
  destruct (nonempty cleaned) eqn:Hc.
  2:{ destruct cleaned; [|discriminate]. simpl in Hone. lia. }
  cbn [negb].
  destruct (filter nonempty (py_split cleaned)) as [|w0 ws] eqn:Hw;
    [simpl in Hone; lia|].
  assert (Hlen : (length (w0 :: ws) <=? 3)%nat = true)
    by (apply Nat.leb_le; exact Hthree).
  assert (Hgreet : forallb (fun w => str_in w GREETING_WORDS) (w0 :: ws) = true).
  { apply forallb_forall. intros x Hx. apply str_in_In.
    rewrite Forall_forall in Hall. apply Hall. apply list_elem_of_In. exact Hx. }
  rewrite Hlen, Hgreet. cbn [andb].
  destruct (existsb _ (w0 :: ws)).
  - exists DUTCH_REPLY. split; [left|]; reflexivity.
  - exists ENGLISH_REPLY. split; [right|]; reflexivity.
Qed.

(** C8 (as amended).  Take the words of the input either as the engine
    normalises them (lower case, every character outside the kept class
    turned into a space) or simply as split at white space.  When there are
    at least one and at most three of them, all greeting words, both
    protocol variants return one of the two canned replies and leave the
    world as it was: no request reaches the provider (for the responses
    variant whatever the fuel). *)
Theorem greeting_short_circuit (host : Host) (model user_input : str)
    (workspace memory : Path) (w : world) (words : list str) :
  words = smalltalk_words user_input \/ words = py_split user_input ->
  (1 <= length words <= 3)%nat ->
  Forall (fun word => In word GREETING_WORDS) words ->
  exists reply,
    (reply = DUTCH_REPLY \/ reply = ENGLISH_REPLY)
    /\ run_turn_chat host model user_input workspace memory w = (Ok reply, w)
    /\ forall fuel,
         run_turn_responses host fuel model user_input workspace memory w
         = (Ok (Some reply), w).
Proof.
  intros Hwords Hlen Hall.
  assert (Hnorm : words = smalltalk_words user_input).
  { destruct Hwords as [-> | ->]; [reflexivity|].
    symmetry. apply smalltalk_words_of_greetings. exact Hall. }
  subst words.
  destruct (smalltalk_reply user_input Hlen Hall) as (reply & Hreply & Hsmall).
  exists reply. split; [exact Hreply|].
  unfold run_turn_chat, run_turn_responses. rewrite Hsmall.
  split; [reflexivity | intros fuel; reflexivity].
Qed.

Lemma greeting_short_circuit_hi_hallo :
  exists reply,
    (reply = DUTCH_REPLY \/ reply = ENGLISH_REPLY)
    /\ run_turn_chat answering_host (lit "gpt") (lit "Hi, HALLO!")
         sample_workspace sample_memory empty_world = (Ok reply, empty_world)
    /\ forall fuel,
         run_turn_responses answering_host fuel (lit "gpt") (lit "Hi, HALLO!")
           sample_workspace sample_memory empty_world
         = (Ok (Some reply), empty_world).
Proof.
  apply (greeting_short_circuit answering_host (lit "gpt") (lit "Hi, HALLO!")
           sample_workspace sample_memory empty_world [lit "hi"; lit "hallo"]).
  - left. reflexivity.
  - simpl. lia.
  - repeat constructor; vm_compute; tauto.
Defined.

(** Inputs without any word, a blank one and a question mark: nothing in
    them falls outside the greeting set, and the turn goes to the provider. *)
Lemma wordless_input_reaches_provider :
  py_split (lit " ") = []
  /\ smalltalk_words (lit " ") = []
  /\ maybe_handle_smalltalk (lit " ") = None
  /\ run_turn_chat answering_host (lit "gpt") (lit " ")
       sample_workspace sample_memory empty_world
     = (Ok (lit "done"), mkWorld [lit "home"] ∅ [] [] 1)
  /\ smalltalk_words (lit "?") = []
  /\ maybe_handle_smalltalk (lit "?") = None
  /\ run_turn_chat answering_host (lit "gpt") (lit "?")
       sample_workspace sample_memory empty_world
     = (Ok (lit "done"), mkWorld [lit "home"] ∅ [] [] 1).
Proof. repeat split; vm_compute; reflexivity. Qed.

(** ** Requests to the provider *)

Lemma keeps_ret {A} (a : A) : keeps_calls (ret a).
Proof. intros w. reflexivity. Qed.

Lemma keeps_raise {A} (e : exn) : keeps_calls (@raise A e).
Proof. intros w. reflexivity. Qed.

Lemma keeps_lift {A} (r : res A) : keeps_calls (lift r).
Proof. intros w. reflexivity. Qed.

Lemma keeps_get_world : keeps_calls get_world.
Proof. intros w. reflexivity. Qed.

Lemma keeps_set_fs (f : gmap (list str) node) : keeps_calls (set_fs f).
Proof. intros w. reflexivity. Qed.

Lemma keeps_bind {A B} (m : M A) (k : A -> M B) :
  keeps_calls m -> (forall a, keeps_calls (k a)) -> keeps_calls (bind m k).
Proof.
  intros Hm Hk w. unfold bind. specialize (Hm w).
  destruct (m w) as [[a | e] w1]; simpl in *; [|exact Hm].
  rewrite Hk. exact Hm.
Qed.

Lemma keeps_try_except {A} (body : M A) (catches : exn_class -> bool)
    (handler : exn -> M A) :
  keeps_calls body -> (forall e, keeps_calls (handler e)) ->
  keeps_calls (try_except body catches handler).
Proof.
  intros Hb Hh w. unfold try_except. specialize (Hb w).
  destruct (body w) as [[a | e] w1]; simpl in *; [exact Hb|].
  destruct (catches (exn_cls e)); simpl; [|exact Hb].
  rewrite Hh. exact Hb.
Qed.

Lemma keeps_for_each {A B} (step : B -> A -> M B) (items : list A) (acc : B) :
  (forall b a, keeps_calls (step b a)) -> keeps_calls (for_each step items acc).
Proof.
  intros Hstep. revert acc. induction items as [|x items IH]; intros acc; simpl.
  - apply keeps_ret.
  - apply keeps_bind; [apply Hstep | intros b; apply IH].
Qed.

Create HintDb keeps.
#[local] Hint Resolve keeps_ret keeps_raise keeps_lift keeps_get_world
  keeps_set_fs : keeps.

(** Splits a computation along its binds, handlers and case analyses. *)
Ltac keeps :=
  repeat first
    [ solve [auto with keeps]
    | apply keeps_bind; [|intros]
    | apply keeps_try_except; [|intros]
    | apply keeps_for_each; intros
    | match goal with
      | |- keeps_calls (match ?x with _ => _ end) => destruct x
      | |- keeps_calls (let '(_, _) := ?x in _) => destruct x
      end ].

Section KeepsCalls.
Context (host : Host).

Lemma keeps_path_exists (p : Path) : keeps_calls (path_exists p).
Proof. intros w. reflexivity. Qed.

Lemma keeps_resolve_in_workspace (workspace : Path) (v : pyval) :
  keeps_calls (resolve_in_workspace workspace v).
Proof. intros w. reflexivity. Qed.

Lemma keeps_subprocess_run (command cwd_arg : str) (timeout : Z) :
  keeps_calls (subprocess_run host command cwd_arg timeout).
Proof.
  intros w. unfold subprocess_run.
  destruct (powershell host command cwd_arg timeout w) as [[rc out err | | e] f];
    reflexivity.
Qed.

Lemma keeps_fetch_json (url : str) : keeps_calls (_fetch_json host url).
Proof. intros w. reflexivity. Qed.

Hint Resolve keeps_path_exists keeps_resolve_in_workspace keeps_subprocess_run
  keeps_fetch_json : keeps.

Lemma keeps_mkdir_parents (p : Path) : keeps_calls (mkdir_parents host p).
Proof. unfold mkdir_parents. keeps. Qed.

Lemma keeps_write_text (p : Path) (data : pyval) :
  keeps_calls (write_text host p data).
Proof. unfold write_text. keeps. Qed.

Lemma keeps_read_text (p : Path) : keeps_calls (read_text host p).
Proof. unfold read_text. keeps. Qed.

Lemma keeps_rglob_all (p : Path) : keeps_calls (rglob_all p).
Proof. unfold rglob_all. keeps. Qed.

Hint Resolve keeps_mkdir_parents keeps_write_text keeps_read_text
  keeps_rglob_all : keeps.

Lemma keeps_run_shell (command : pyval) (cwd_arg : str) (timeout : Z) :
  keeps_calls (run_shell host command cwd_arg timeout).
Proof. unfold run_shell. keeps. Qed.

Lemma keeps_read_file (workspace : Path) (path : pyval) :
  keeps_calls (read_file host workspace path).
Proof. unfold read_file. keeps. Qed.

Lemma keeps_write_file (workspace : Path) (path content : pyval) :
  keeps_calls (write_file host workspace path content).
Proof. unfold write_file. keeps. Qed.

Lemma keeps_list_files (workspace : Path) (path : pyval) :
  keeps_calls (list_files host workspace path).
Proof. unfold list_files. keeps. Qed.

Lemma keeps_web_lookup (query : pyval) : keeps_calls (web_lookup host query).
Proof. unfold web_lookup, wikipedia_lookup, duckduckgo_lookup. keeps. Qed.

Hint Resolve keeps_run_shell keeps_read_file keeps_write_file keeps_list_files
  keeps_web_lookup : keeps.

Lemma keeps_execute_tool (name arguments : str) (workspace : Path) :
  keeps_calls (execute_tool host name arguments workspace).
Proof. unfold execute_tool. keeps. Qed.

Lemma keeps_recent (memory : Path) (count : Z) :
  keeps_calls (recent host memory count).
Proof. unfold recent, _read_all. keeps. Qed.

Lemma keeps_prefetch (user_input : str) :
  keeps_calls (_maybe_prefetch_web_context host user_input).
Proof. unfold _maybe_prefetch_web_context. keeps. Qed.

Hint Resolve keeps_execute_tool keeps_recent keeps_prefetch : keeps.

Lemma keeps_turn_input (user_input : str) (workspace memory : Path) :
  keeps_calls (turn_input host user_input workspace memory).
Proof. unfold turn_input. keeps. Qed.

End KeepsCalls.

(** ** The bound on chat rounds *)

Section ChatRounds.
Context (host : Host) (model : str) (workspace : Path).

Lemma tool_round_returns (calls : list tool_call) (messages : list chat_entry)
    (w : world) :
  (forall call, In call calls ->
     forall w', exists output w'',
       execute_tool host (call_name call) (call_arguments call) workspace w'
       = (Ok output, w'')) ->
  exists messages' w',
    answer_tool_calls host workspace calls messages w = (Ok messages', w')
    /\ provider_calls w' = provider_calls w.
Proof.
  unfold answer_tool_calls.
  revert messages w. induction calls as [|call calls IH]; intros messages w Hret.
  - exists messages, w. split; reflexivity.
  - destruct (Hret call (or_introl eq_refl) w) as (output & w1 & Hexec).
    destruct (IH (messages ++ [ToolEntry (call_id call) output]) w1)
      as (messages' & w' & Hrest & Hcalls).
    { intros c Hc. apply Hret. right. exact Hc. }
    exists messages', w'. split.
    + simpl. unfold bind at 1. unfold bind at 1. rewrite Hexec. exact Hrest.
    + rewrite Hcalls.
      pose proof (keeps_execute_tool host (call_name call) (call_arguments call)
                    workspace w) as Hk.
      rewrite Hexec in Hk. exact Hk.
Qed.

Lemma chat_rounds_exhausted (n : nat) (messages : list chat_entry) (w : world) :
  always_calls_tools host model -> requested_tools_return host model workspace ->
  exists w',
    chat_rounds host n model workspace messages w = (Ok STOPPED, w')
    /\ provider_calls w' = (provider_calls w + n)%nat.
Proof.
  intros Hcalls Hret. revert messages w.
  induction n as [|n IH]; intros messages w.
  - exists w. split; [reflexivity | simpl; lia].
  - destruct (Hcalls messages w) as (message & others & call & calls & Hcreate & Htools).
    set (w1 := mkWorld (cwd w) (fs w) (spawned w) (fetched w) (S (provider_calls w))).
    destruct (tool_round_returns (call :: calls)
                (messages ++ [AssistantEntry (content_or_empty message)
                                (call :: calls)]) w1)
      as (messages' & w2 & Hround & Hsame).
    { intros c Hc. exact (Hret messages w message others (call :: calls) c
                            Hcreate Htools Hc). }
    destruct (IH messages' w2) as (w' & Hrest & Hcount).
    exists w'. split.
    + cbn [chat_rounds]. unfold bind at 1. unfold client_chat_create.
      rewrite Hcreate. unfold bind at 1. cbn [lift first_choice].
      rewrite Htools. unfold bind at 1. fold w1. rewrite Hround. exact Hrest.
    + rewrite Hcount, Hsame. simpl. lia.
Qed.

(** How the tools of a round end: they all return, or the first that raises
    ends the round with its exception, in the world it leaves. *)
Lemma tool_round_outcome (calls : list tool_call) (messages : list chat_entry)
    (w : world) :
  (exists messages' w',
     answer_tool_calls host workspace calls messages w = (Ok messages', w')
     /\ provider_calls w' = provider_calls w)
  \/ (exists e w' call w0,
        In call calls
        /\ execute_tool host (call_name call) (call_arguments call) workspace w0
           = (Raise e, w')
        /\ answer_tool_calls host workspace calls messages w = (Raise e, w')
        /\ provider_calls w' = provider_calls w).
Proof.
  revert messages w. induction calls as [|call calls IH]; intros messages w.
  - left. exists messages, w. split; reflexivity.
  - pose proof (keeps_execute_tool host (call_name call) (call_arguments call)
                  workspace w) as Hk.
    assert (Hstep :
              answer_tool_calls host workspace (call :: calls) messages w
              = match execute_tool host (call_name call) (call_arguments call)
                        workspace w with
                | (Ok output, w1) =>
                    answer_tool_calls host workspace calls
                      (messages ++ [ToolEntry (call_id call) output]) w1
                | (Raise e, w1) => (Raise e, w1)
                end).
    { unfold answer_tool_calls. cbn [for_each]. unfold bind.
      destruct (execute_tool host (call_name call) (call_arguments call)
                  workspace w) as [[output | e] w1]; reflexivity. }
    rewrite Hstep.
    destruct (execute_tool host (call_name call) (call_arguments call) workspace w)
      as [[output | e] w1] eqn:Hexec; cbn [snd] in Hk.
    + destruct (IH (messages ++ [ToolEntry (call_id call) output]) w1)
        as [(messages' & w' & Hrest & Hcalls)
           | (e & w' & c & w0 & Hin & Hc & Hrest & Hcalls)].
      * left. exists messages', w'. split; [exact Hrest | congruence].
      * right. exists e, w', c, w0.
        repeat split; [right; exact Hin | exact Hc | exact Hrest | congruence].
    + right. exists e, w1, call, w.
      repeat split; [left; reflexivity | exact Hexec | exact Hk].
Qed.

(** How the rounds end with a provider that asks for a tool in every
    response: with the exception of a requested tool, or with the fixed
    message after [n] requests. *)
Lemma chat_rounds_outcome (n : nat) (messages : list chat_entry) (w : world) :
  always_calls_tools host model ->
  (exists e w' call w0,
     requested host model call
     /\ execute_tool host (call_name call) (call_arguments call) workspace w0
        = (Raise e, w')
     /\ chat_rounds host n model workspace messages w = (Raise e, w')
     /\ (provider_calls w < provider_calls w' <= provider_calls w + n)%nat)
  \/ (exists w',
        chat_rounds host n model workspace messages w = (Ok STOPPED, w')
        /\ provider_calls w' = (provider_calls w + n)%nat).
Proof.
  intros Hcalls. revert messages w. induction n as [|n IH]; intros messages w.
  - right. exists w. split; [reflexivity | simpl; lia].
  - destruct (Hcalls messages w)
      as (message & others & call & calls & Hcreate & Htools).
    set (w1 := mkWorld (cwd w) (fs w) (spawned w) (fetched w) (S (provider_calls w))).
    assert (Hstep : chat_rounds host (S n) model workspace messages w
                    = bind (answer_tool_calls host workspace (call :: calls)
                              (messages ++ [AssistantEntry (content_or_empty message)
                                              (call :: calls)]))
                        (fun messages' => chat_rounds host n model workspace messages')
                        w1).
    { cbn [chat_rounds]. unfold bind at 1. unfold client_chat_create.
      rewrite Hcreate. unfold bind at 1. cbn [lift first_choice].
      rewrite Htools. reflexivity. }
    rewrite Hstep. unfold bind.
    destruct (tool_round_outcome (call :: calls)
                (messages ++ [AssistantEntry (content_or_empty message)
                                (call :: calls)]) w1)
      as [(messages' & w2 & Hround & Hsame)
         | (e & w2 & c & w0 & Hin & Hc & Hround & Hsame)];
      rewrite Hround.
    + destruct (IH messages' w2)
        as [(e & w' & c & w0 & Hreq & Hc & Hrest & Hcount)
           | (w' & Hrest & Hcount)].
      * left. exists e, w', c, w0. repeat split; try assumption;
          rewrite Hsame in Hcount; subst w1; cbn [provider_calls] in Hcount; lia.
      * right. exists w'. split; [exact Hrest|].
        rewrite Hcount, Hsame. subst w1. cbn [provider_calls]. lia.
    + left. exists e, w2, c, w0. split; [|repeat split; try assumption;
        rewrite Hsame; subst w1; cbn [provider_calls]; lia].
      exists messages, w, message, others, (call :: calls).
      repeat split; assumption.
Qed.

End ChatRounds.

(** C3 (as amended).  Under the chat protocol, when the greeting check does
    not answer the input and every response of the provider carries at
    least one tool call, the turn ends in one of three ways: with the
    exception raised while the context of the turn is assembled, before any
    request; with the exception a requested tool raised, after at least one
    and at most 12 requests; or, when neither happens, with the fixed
    message after exactly 12 requests to the provider.  Nothing is assumed
    of the tools or of the worlds the turn does not pass through. *)
Theorem chat_turn_stops_after_12_rounds (host : Host) (model user_input : str)
    (workspace memory : Path) (w : world) :
  maybe_handle_smalltalk user_input = None ->
  always_calls_tools host model ->
  (exists e w',
     turn_input host user_input workspace memory w = (Raise e, w')
     /\ run_turn_chat host model user_input workspace memory w = (Raise e, w')
     /\ provider_calls w' = provider_calls w)
  \/ (exists e w' call w0,
        requested host model call
        /\ execute_tool host (call_name call) (call_arguments call) workspace w0
           = (Raise e, w')
        /\ run_turn_chat host model user_input workspace memory w = (Raise e, w')
        /\ (provider_calls w < provider_calls w' <= provider_calls w + 12)%nat)
  \/ (exists w',
        run_turn_chat host model user_input workspace memory w
        = (Ok (lit "Stopped after too many tool iterations."), w')
        /\ provider_calls w' = (provider_calls w + 12)%nat).
Proof.
  intros Hsmall Hcalls.
  pose proof (keeps_turn_input host user_input workspace memory w) as Hk.
  unfold run_turn_chat. rewrite Hsmall. unfold bind.
  destruct (turn_input host user_input workspace memory w)
    as [[messages | e] w1] eqn:Hinput; cbn [snd] in Hk.
  - right.
    destruct (chat_rounds_outcome host model workspace 12 messages w1 Hcalls)
      as [(e & w' & call & w0 & Hreq & Hc & Hrest & Hcount)
         | (w' & Hrest & Hcount)].
    + left. exists e, w', call, w0. repeat split; try assumption; lia.
    + right. exists w'. split; [exact Hrest | lia].
  - left. exists e, w1. repeat split. exact Hk.
Qed.

Lemma insisting_host_always_calls_tools (model : str) :
  always_calls_tools insisting_host model.
Proof. intros messages w. do 4 eexists. split; reflexivity. Qed.

Lemma chat_turn_stops_with_insisting_host :
  exists w',
    run_turn_chat insisting_host (lit "gpt") (lit "?") sample_workspace
      sample_memory empty_world
    = (Ok (lit "Stopped after too many tool iterations."), w')
    /\ provider_calls w' = (provider_calls empty_world + 12)%nat.
Proof.
  destruct (chat_turn_stops_after_12_rounds insisting_host (lit "gpt") (lit "?")
              sample_workspace sample_memory empty_world eq_refl
              (insisting_host_always_calls_tools (lit "gpt")))
    as [(e & w' & _ & Hrun & _)
       | [(e & w' & call & w0 & _ & _ & Hrun & _) | Hstop]].
  - vm_compute in Hrun. discriminate Hrun.
  - vm_compute in Hrun. discriminate Hrun.
  - exact Hstop.
Defined.

(** A greeting is answered before any request, whatever the provider would
    have asked for. *)
Lemma greeting_turn_sends_no_request :
  always_calls_tools insisting_host (lit "gpt")
  /\ run_turn_chat insisting_host (lit "gpt") (lit "hi") sample_workspace
       sample_memory empty_world
     = (Ok ENGLISH_REPLY, empty_world)
  /\ provider_calls empty_world = 0%nat.
Proof.
  split; [apply insisting_host_always_calls_tools|].
  split; reflexivity.
Qed.

(** A requested tool that raises ends the turn with its exception, after one
    request. *)
Example raising_tool_ends_turn :
  run_turn_chat
    (quiet_host [mkMessage None
                   (Some [mkCall (lit "call_1") (lit "read_file") (lit "[]")])])
    (lit "gpt") (lit "?") sample_workspace sample_memory empty_world
  = (Raise (mkExn AttributeError (lit "'list' object has no attribute 'get'")),
     mkWorld [lit "home"] ∅ [] [] 1).
Proof. vm_compute. reflexivity. Qed.

(** ** Files written and read back *)

Lemma utf8_decode_2 (b0 b1 : N) (r : list N) :
  194 <= b0 <= 223 -> 128 <= b1 <= 191 ->
  utf8_decode (b0 :: b1 :: r)
  = option_map (cons ((b0 - 192) * 64 + (b1 - 128))) (utf8_decode r).
Proof.
  intros H0 H1. cbn [utf8_decode].
  rewrite (proj2 (N.ltb_ge b0 128)) by lia.
  rewrite (between_true 194 223 b0) by lia.
  unfold is_cont. rewrite (between_true 128 191 b1) by lia. reflexivity.
Qed.

Lemma utf8_decode_3 (b0 b1 b2 : N) (r : list N) :
  224 <= b0 <= 239 -> 128 <= b1 <= 191 -> 128 <= b2 <= 191 ->
  2048 <= (b0 - 224) * 4096 + (b1 - 128) * 64 + (b2 - 128) ->
  is_surrogate ((b0 - 224) * 4096 + (b1 - 128) * 64 + (b2 - 128)) = false ->
  utf8_decode (b0 :: b1 :: b2 :: r)
  = option_map (cons ((b0 - 224) * 4096 + (b1 - 128) * 64 + (b2 - 128)))
      (utf8_decode r).
Proof.
  intros H0 H1 H2 Hlow Hsur. cbn [utf8_decode].
  rewrite (proj2 (N.ltb_ge b0 128)) by lia.
  rewrite (between_false 194 223 b0) by lia.
  rewrite (between_true 224 239 b0) by lia.
  unfold is_cont. rewrite (between_true 128 191 b1), (between_true 128 191 b2) by lia.
  rewrite Hsur. rewrite (proj2 (N.leb_le _ _) Hlow). reflexivity.
Qed.

Lemma utf8_decode_4 (b0 b1 b2 b3 : N) (r : list N) :
  240 <= b0 <= 244 -> 128 <= b1 <= 191 -> 128 <= b2 <= 191 -> 128 <= b3 <= 191 ->
  65536 <= (b0 - 240) * 262144 + (b1 - 128) * 4096 + (b2 - 128) * 64 + (b3 - 128)
           < 1114112 ->
  utf8_decode (b0 :: b1 :: b2 :: b3 :: r)
  = option_map
      (cons ((b0 - 240) * 262144 + (b1 - 128) * 4096 + (b2 - 128) * 64 + (b3 - 128)))
      (utf8_decode r).
Proof.
  intros H0 H1 H2 H3 [Hlow Hhigh]. cbn [utf8_decode].
  rewrite (proj2 (N.ltb_ge b0 128)) by lia.
  rewrite (between_false 194 223 b0), (between_false 224 239 b0) by lia.
  rewrite (between_true 240 244 b0) by lia.
  unfold is_cont.
  rewrite (between_true 128 191 b1), (between_true 128 191 b2),
    (between_true 128 191 b3) by lia.
  rewrite (proj2 (N.leb_le _ _) Hlow), (proj2 (N.ltb_lt _ _) Hhigh). reflexivity.
Qed.

(** The digits of a code point in base 64. *)
Lemma radix64 (c : N) :
  exists d0 d1 d2 d3,
    c mod 64 = d0 /\ c / 64 mod 64 = d1 /\ c / 4096 mod 64 = d2
    /\ c / 262144 = d3
    /\ c / 64 = d1 + 64 * (d2 + 64 * d3)
    /\ c / 4096 = d2 + 64 * d3
    /\ c = d0 + 64 * (d1 + 64 * (d2 + 64 * d3))
    /\ d0 < 64 /\ d1 < 64 /\ d2 < 64.
Proof.
  exists (c mod 64), (c / 64 mod 64), (c / 4096 mod 64), (c / 262144).
  pose proof (N.div_mod c 64 ltac:(lia)) as E0.
  pose proof (N.mod_lt c 64 ltac:(lia)) as L0.
  pose proof (N.div_mod (c / 64) 64 ltac:(lia)) as E1.
  pose proof (N.mod_lt (c / 64) 64 ltac:(lia)) as L1.
  pose proof (N.div_mod (c / 4096) 64 ltac:(lia)) as E2.
  pose proof (N.mod_lt (c / 4096) 64 ltac:(lia)) as L2.
  rewrite (N.Div0.div_div c 64 64) in E1.
  rewrite (N.Div0.div_div c 4096 64) in E2.
  change (64 * 64) with 4096 in E1. change (4096 * 64) with 262144 in E2.
  set (d0 := c mod 64) in *. set (d1 := c / 64 mod 64) in *.
  set (d2 := c / 4096 mod 64) in *. set (d3 := c / 262144) in *.
  set (q1 := c / 64) in *. set (q2 := c / 4096) in *.
  clearbody d0 d1 d2 d3 q1 q2. repeat split; lia.
Qed.

Lemma utf8_decode_encode_char (c : N) (b rest : list N) :
  utf8_encode_char c = Some b ->
  utf8_decode (b ++ rest) = option_map (cons c) (utf8_decode rest).
Proof.
  unfold utf8_encode_char.
  destruct (radix64 c)
    as (d0 & d1 & d2 & d3 & -> & -> & -> & -> & -> & -> & Hc & L0 & L1 & L2).
  destruct (c <? 128) eqn:H1.
  { intros [= <-]. cbn [app utf8_decode]. rewrite H1. reflexivity. }
  apply N.ltb_ge in H1.
  destruct (c <? 2048) eqn:H2.
  { apply N.ltb_lt in H2. intros [= <-]. cbn [app].
    rewrite utf8_decode_2 by lia. do 2 f_equal. lia. }
  apply N.ltb_ge in H2.
  destruct (is_surrogate c) eqn:H3; [discriminate|].
  destruct (c <? 65536) eqn:H4.
  { apply N.ltb_lt in H4. intros [= <-]. cbn [app].
    assert (Hv : (224 + (d2 + 64 * d3) - 224) * 4096 + (128 + d1 - 128) * 64
                 + (128 + d0 - 128) = c) by lia.
    rewrite utf8_decode_3; rewrite ?Hv; try lia; [reflexivity | exact H3]. }
  apply N.ltb_ge in H4.
  destruct (c <? 1114112) eqn:H5; [|discriminate].
  apply N.ltb_lt in H5. intros [= <-]. cbn [app].
  assert (Hv : (240 + d3 - 240) * 262144 + (128 + d2 - 128) * 4096
               + (128 + d1 - 128) * 64 + (128 + d0 - 128) = c) by lia.
  rewrite utf8_decode_4; rewrite ?Hv; try lia. reflexivity.
Qed.

Lemma utf8_decode_encode (s : str) (bytes : list N) :
  utf8_encode s = Some bytes -> utf8_decode bytes = Some s.
Proof.
  revert bytes. induction s as [|c s IH]; intros bytes; simpl.
  - intros [= <-]. reflexivity.
  - destruct (utf8_encode_char c) as [b|] eqn:Hc; [|discriminate].
    destruct (utf8_encode s) as [bs|]; [|discriminate].
    intros [= <-]. rewrite (utf8_decode_encode_char c b bs Hc), (IH bs eq_refl).
    reflexivity.
Qed.

Lemma bind_ok {A B} (m : M A) (k : A -> M B) (w w1 : world) (b : B) :
  bind m k w = (Ok b, w1) ->
  exists a w', m w = (Ok a, w') /\ k a w' = (Ok b, w1).
Proof.
  unfold bind. destruct (m w) as [[a | e] w']; [|discriminate].
  intros H. exists a, w'. split; [reflexivity | exact H].
Qed.

Lemma try_except_ok {A} (body : M A) (catches : exn_class -> bool)
    (handler : exn -> M A) (w w1 : world) (a : A) :
  try_except body catches handler w = (Ok a, w1) ->
  body w = (Ok a, w1)
  \/ exists e w', body w = (Raise e, w') /\ handler e w' = (Ok a, w1).
Proof.
  unfold try_except. destruct (body w) as [[a' | e] w']; [left; assumption|].
  destruct (catches (exn_cls e)); [|discriminate].
  intros H. right. exists e, w'. split; [reflexivity | exact H].
Qed.

Section WriteRead.
Context (host : Host).


(** What a successful [write_text] found and what it leaves. *)
Lemma write_text_ok (p : Path) (text : str) (w w' : world) (u : unit) :
  write_text host p (VStr text) w = (Ok u, w') ->
  exists bytes,
    utf8_encode text = Some bytes
    /\ under_a_file (fs w) (fs_key w p) = false
    /\ fs_key w p <> []
    /\ w' = mkWorld (cwd w) (<[fs_key w p := File bytes]> (fs w))
              (spawned w) (fetched w) (provider_calls w).
Proof.
  unfold write_text, bind, get_world, raise, set_fs.
  destruct (under_a_file (fs w) (fs_key w p)) eqn:Hunder; [discriminate|].
  destruct (fs_key w p) as [|seg k] eqn:Hk; [simpl; discriminate|].
  destruct (node_at (fs w) (seg :: k)) as [[|data]|]; try discriminate.
  all: destruct (node_at (fs w) (removelast (seg :: k))); try discriminate.
  all: destruct (utf8_encode text) as [bytes|]; try discriminate.
  all: intros [= _ <-]; exists bytes; repeat split; discriminate.
Qed.

Lemma under_a_file_insert (f : gmap (list str) node) (k : list str) (n : node) :
  under_a_file (<[k := n]> f) k = under_a_file f k.
Proof.
  unfold under_a_file.
  assert (H : forall m, In m (seq 0 (length k)) ->
                is_file_node (node_at (<[k := n]> f) (take m k))
                = is_file_node (node_at f (take m k))).
  { intros m Hm. apply in_seq in Hm. unfold node_at.
    destruct (take m k) as [|seg q] eqn:Hq; [reflexivity|].
    rewrite lookup_insert_ne; [reflexivity|].
    intros Heq. rewrite <- Hq in Heq. apply (f_equal length) in Heq.
    rewrite length_take in Heq. lia. }
  induction (seq 0 (length k)) as [|m l IH]; [reflexivity|].
  simpl. rewrite H by (left; reflexivity).
  rewrite IH; [reflexivity|]. intros m' Hm'. apply H. right. exact Hm'.
Qed.

(** A file just written exists and reads back as its text, with the line
    endings of text mode. *)
Lemma read_back (p : Path) (text : str) (bytes : list N) (w : world) :
  utf8_encode text = Some bytes ->
  under_a_file (fs w) (fs_key w p) = false ->
  fs_key w p <> [] ->
  let w' := mkWorld (cwd w) (<[fs_key w p := File bytes]> (fs w))
              (spawned w) (fetched w) (provider_calls w) in
  path_exists p w' = (Ok true, w')
  /\ read_text host p w' = (Ok (universal_newlines text), w').
Proof.
  intros Henc Hunder Hkey w'.
  assert (Hk : fs_key w' p = fs_key w p) by reflexivity.
  assert (Hnode : node_at (fs w') (fs_key w p) = Some (File bytes)).
  { unfold node_at. destruct (fs_key w p) as [|seg k] eqn:E; [congruence|].
    simpl. apply lookup_insert_eq. }
  assert (Hu : under_a_file (fs w') (fs_key w p) = false).
  { simpl. rewrite under_a_file_insert. exact Hunder. }
  split.
  - unfold path_exists. rewrite Hk, Hu, Hnode. reflexivity.
  - unfold read_text, bind, get_world, ret. rewrite Hk, Hu, Hnode.
    rewrite (utf8_decode_encode _ _ Henc). reflexivity.
Qed.

End WriteRead.

Lemma universal_newlines_plain (s : str) :
  ~ In 13 s -> universal_newlines s = s.
Proof.
  induction s as [|c s IH]; intros Hcr; [reflexivity|].
  assert (Hc : c <> 13) by (intros ->; apply Hcr; left; reflexivity).
  assert (Hs : universal_newlines s = s) by (apply IH; intros H; apply Hcr; right; exact H).
  destruct c as [|p]; [simpl; f_equal; exact Hs|].
  do 4 (destruct p as [p | p |]; try (simpl; f_equal; exact Hs)).
  congruence.
Qed.






(** * Further properties *)

(** ** The shell tool, continued *)

(** X1.  A command whose first word is in the allowlist is handed to the
    subprocess whole, once: nothing after the first word is looked at, and
    the result is that of the subprocess. *)
Theorem run_shell_runs_listed (host : Host) (command first : str)
    (others : list str) (cwd_arg : str) (timeout_seconds : Z) (w : world) :
  py_split command = first :: others ->
  In first ALLOWED_COMMAND_PREFIXES ->
  run_shell host (VStr command) cwd_arg timeout_seconds w
  = (shell_outcome (fst (powershell host command cwd_arg timeout_seconds w))
       timeout_seconds,
     mkWorld (cwd w) (snd (powershell host command cwd_arg timeout_seconds w))
       (spawned w ++ [(command, cwd_arg)]) (fetched w) (provider_calls w)).
Proof.
  intros Hsplit Hin.
  destruct (leading_token _ _ _ Hsplit) as (Hfirst & Hstrip & remainder & Hmax).
  apply str_in_In in Hin.
  unfold run_shell, bind, lift, try_except, subprocess_run, ret, shell_outcome.
  rewrite Hstrip, Hmax. cbn [first_item]. rewrite Hfirst, Hin. cbn [negb andb].
  destruct (powershell host command cwd_arg timeout_seconds w) as [r f].
  destruct r as [rc out err | | e]; cbn; try reflexivity.
  destruct (is_TimeoutExpired (exn_cls e)); reflexivity.
Qed.

Lemma run_shell_runs_git :
  run_shell answering_host (VStr (lit "git push --force")) (lit "/srv/work") 45
    empty_world
  = (shell_outcome
       (fst (powershell answering_host (lit "git push --force") (lit "/srv/work")
               45 empty_world)) 45,
     mkWorld (cwd empty_world)
       (snd (powershell answering_host (lit "git push --force") (lit "/srv/work")
               45 empty_world))
       (spawned empty_world ++ [(lit "git push --force", lit "/srv/work")])
       (fetched empty_world) (provider_calls empty_world)).
Proof.
  apply (run_shell_runs_listed answering_host (lit "git push --force") (lit "git")
           [lit "push"; lit "--force"]).
  - reflexivity.
  - vm_compute. tauto.
Defined.



(** ** Tools that only read *)

Lemma world_ret {A} (a : A) : keeps_world (ret a).
Proof. intros w. reflexivity. Qed.

Lemma world_raise {A} (e : exn) : keeps_world (@raise A e).
Proof. intros w. reflexivity. Qed.

Lemma world_lift {A} (r : res A) : keeps_world (lift r).
Proof. intros w. reflexivity. Qed.

Lemma world_get : keeps_world get_world.
Proof. intros w. reflexivity. Qed.

Lemma world_bind {A B} (m : M A) (k : A -> M B) :
  keeps_world m -> (forall a, keeps_world (k a)) -> keeps_world (bind m k).
Proof.
  intros Hm Hk w. unfold bind. specialize (Hm w).
  destruct (m w) as [[a | e] w1]; simpl in *; subst w1; [apply Hk | reflexivity].
Qed.

Lemma world_try_except {A} (body : M A) (catches : exn_class -> bool)
    (handler : exn -> M A) :
  keeps_world body -> (forall e, keeps_world (handler e)) ->
  keeps_world (try_except body catches handler).
Proof.
  intros Hb Hh w. unfold try_except. specialize (Hb w).
  destruct (body w) as [[a | e] w1]; simpl in *; subst w1; [reflexivity|].
  destruct (catches (exn_cls e)); [apply Hh | reflexivity].
Qed.

Lemma world_path_exists (p : Path) : keeps_world (path_exists p).
Proof. intros w. reflexivity. Qed.

Lemma world_resolve (workspace : Path) (v : pyval) :
  keeps_world (resolve_in_workspace workspace v).
Proof. intros w. reflexivity. Qed.

Create HintDb world.
#[local] Hint Resolve world_ret world_raise world_lift world_get
  world_path_exists world_resolve : world.

(** Splits a computation along its binds, handlers and case analyses. *)
Ltac world :=
  repeat first
    [ solve [auto with world]
    | apply world_bind; [|intros]
    | apply world_try_except; [|intros]
    | match goal with
      | |- keeps_world (match ?x with _ => _ end) => destruct x
      end ].

Lemma world_read_text (host : Host) (p : Path) : keeps_world (read_text host p).
Proof. unfold read_text. world. Qed.

Lemma world_rglob_all (p : Path) : keeps_world (rglob_all p).
Proof. unfold rglob_all. world. Qed.

#[local] Hint Resolve world_read_text world_rglob_all : world.

Lemma world_read_all (host : Host) (memory : Path) :
  keeps_world (_read_all host memory).
Proof. unfold _read_all. world. Qed.

#[local] Hint Resolve world_read_all : world.

Lemma world_read_file (host : Host) (workspace : Path) (path : pyval) :
  keeps_world (read_file host workspace path).
Proof. unfold read_file. world. Qed.

Lemma world_list_files (host : Host) (workspace : Path) (path : pyval) :
  keeps_world (list_files host workspace path).
Proof. unfold list_files. world. Qed.

Lemma world_recent (host : Host) (memory : Path) (count : Z) :
  keeps_world (recent host memory count).
Proof. unfold recent. world. Qed.

(** X3.  Reading changes nothing: [read_file], [list_files] and the memory
    store's [recent] leave the file system and the rest of the world as they
    find them, whatever their arguments and whether they succeed or not. *)
Theorem reading_keeps_world (host : Host) (workspace memory : Path)
    (path : pyval) (count : Z) :
  keeps_world (read_file host workspace path)
  /\ keeps_world (list_files host workspace path)
  /\ keeps_world (recent host memory count).
Proof.
  split; [|split].
  - apply world_read_file.
  - apply world_list_files.
  - apply world_recent.
Qed.

(** ** The workspace guard, continued *)

Lemma in_removelast {A : Type} (x : A) (l : list A) :
  In x (removelast l) -> In x l.
Proof.
  induction l as [|a [|b l] IH]; simpl; [tauto | tauto |].
  intros [-> | Hin]; [left; reflexivity | right; apply IH; exact Hin].
Qed.

Lemma walk_clean (reached : list str) (part : str) :
  ~ In dotdot reached -> ~ In dotdot (walk reached part).
Proof.
  intros Hclean. unfold walk, str_eqb. case_bool_decide as Hpart.
  - intros Hin. apply Hclean. apply in_removelast. exact Hin.
  - intros Hin. apply in_app_or in Hin as [Hin | [Heq | []]]; [auto | congruence].
Qed.

Lemma fold_walk_clean (ps reached : list str) :
  ~ In dotdot reached -> ~ In dotdot (fold_left walk ps reached).
Proof.
  revert reached. induction ps as [|p ps IH]; intros reached H; [exact H|].
  simpl. apply IH. apply walk_clean. exact H.
Qed.

Lemma fold_walk_fixed (ps reached : list str) :
  ~ In dotdot ps -> fold_left walk ps reached = reached ++ ps.
Proof.
  revert reached. induction ps as [|p ps IH]; intros reached H; simpl.
  - rewrite app_nil_r. reflexivity.
  - rewrite IH by (intros Hin; apply H; right; exact Hin).
    unfold walk, str_eqb. rewrite bool_decide_eq_false_2.
    + rewrite <- app_assoc. reflexivity.
    + intros ->. apply H. left. reflexivity.
Qed.

Lemma normalize_clean (ps : list str) : ~ In dotdot (normalize ps).
Proof. apply fold_walk_clean. intros []. Qed.

Lemma resolve_clean (cwd cwd' : list str) (p : Path) :
  resolve cwd' (resolve cwd p) = resolve cwd p.
Proof.
  unfold resolve at 1. cbn [is_absolute parts resolve]. unfold normalize at 1.
  rewrite fold_walk_fixed by apply normalize_clean. reflexivity.
Qed.

Lemma resolve_in_workspace_ok (cwd : list str) (workspace : Path) (v : pyval)
    (c : Path) :
  _resolve_in_workspace cwd workspace v = Ok c ->
  exists user_path, v = VStr user_path /\ c = candidate_of cwd workspace user_path.
Proof.
  destruct v as [| | | | s | |]; try discriminate.
  rewrite resolve_in_workspace_unfold.
  destruct (_ && _); [discriminate|]. intros [= <-]. exists s. split; reflexivity.
Qed.

(** X4.  A path the guard returns is clean: it comes from a string, it is
    absolute, it has no [..] segment, resolving it again (from any
    directory) gives the same path, and it is the resolved workspace or
    lies below it. *)
Theorem guard_returns_clean_path (cwd cwd' : list str) (workspace : Path)
    (v : pyval) (c : Path) :
  _resolve_in_workspace cwd workspace v = Ok c ->
  (exists user_path, v = VStr user_path)
  /\ is_absolute c = true
  /\ ~ In dotdot (parts c)
  /\ resolve cwd' c = c
  /\ within (resolve cwd workspace) c.
Proof.
  intros Hok. destruct (resolve_in_workspace_ok _ _ _ _ Hok) as (s & -> & Hc).
  split; [exists s; reflexivity|].
  assert (Hres : exists p, c = resolve cwd p).
  { rewrite Hc. unfold candidate_of. eexists. reflexivity. }
  destruct Hres as [p Hp]. repeat split.
  - rewrite Hp. reflexivity.
  - rewrite Hp. apply normalize_clean.
  - rewrite Hp. apply resolve_clean.
  - destruct (classic_within cwd workspace s) as [Hin | Hout].
    + rewrite Hc. exact Hin.
    + rewrite (resolve_in_workspace_outside _ _ _ Hout) in Hok. discriminate.
Qed.

Lemma guard_returns_clean_notes :
  (exists user_path, VStr (lit "notes/../sub/./a.txt") = VStr user_path)
  /\ is_absolute (mkPath true [lit "srv"; lit "work"; lit "sub"; lit "a.txt"]) = true
  /\ ~ In dotdot (parts (mkPath true [lit "srv"; lit "work"; lit "sub"; lit "a.txt"]))
  /\ resolve [lit "tmp"] (mkPath true [lit "srv"; lit "work"; lit "sub"; lit "a.txt"])
     = mkPath true [lit "srv"; lit "work"; lit "sub"; lit "a.txt"]
  /\ within (resolve [lit "home"] sample_workspace)
       (mkPath true [lit "srv"; lit "work"; lit "sub"; lit "a.txt"]).
Proof.
  apply (guard_returns_clean_path [lit "home"] [lit "tmp"] sample_workspace
           (VStr (lit "notes/../sub/./a.txt"))).
  reflexivity.
Defined.

(** X5.  The three file tools share the guard: given a path that leaves the
    workspace, [read_file], [write_file] and [list_files] each answer
    [ok: false] with the guard's message and leave the world untouched. *)
Theorem file_tools_refuse_escape (host : Host) (workspace : Path)
    (path content : pyval) (w : world) :
  _resolve_in_workspace (cwd w) workspace path = Raise PathEscape ->
  read_file host workspace path w
  = (Ok (failure (lit "Path is outside workspace")), w)
  /\ write_file host workspace path content w
     = (Ok (failure (lit "Path is outside workspace")), w)
  /\ list_files host workspace path w
     = (Ok (failure (lit "Path is outside workspace")), w).
Proof.
  intros Hout.
  unfold read_file, write_file, list_files, try_except, bind, resolve_in_workspace.
  rewrite Hout. repeat split; reflexivity.
Qed.

Lemma file_tools_refuse_dotdot :
  read_file answering_host sample_workspace (VStr (lit "../x")) empty_world
  = (Ok (failure (lit "Path is outside workspace")), empty_world)
  /\ write_file answering_host sample_workspace (VStr (lit "../x"))
       (VStr (lit "text")) empty_world
     = (Ok (failure (lit "Path is outside workspace")), empty_world)
  /\ list_files answering_host sample_workspace (VStr (lit "../x")) empty_world
     = (Ok (failure (lit "Path is outside workspace")), empty_world).
Proof.
  apply (file_tools_refuse_escape answering_host sample_workspace
           (VStr (lit "../x")) (VStr (lit "text")) empty_world).
  reflexivity.
Defined.

(** ** The file tools, continued *)

Lemma failure_not_ok (message : str) :
  py_get (failure message) "ok" VNone <> Ok (VBool true).
Proof.
  unfold failure, py_get. cbn [dict_lookup]. unfold str_eqb.
  rewrite bool_decide_eq_true_2 by reflexivity. discriminate.
Qed.

Lemma slice_from_tail_of {A} (n : Z) (l : list A) :
  (0 < n)%Z ->
  (Z.of_nat (length (slice_from (- n) l)) <= n)%Z
  /\ (exists before, l = before ++ slice_from (- n) l)
  /\ ((Z.of_nat (length l) <= n)%Z -> slice_from (- n) l = l).
Proof.
  intros Hn. unfold slice_from.
  replace (- n <? 0)%Z with true by (symmetry; apply Z.ltb_lt; lia).
  cbv zeta iota. repeat split.
  - rewrite length_drop. lia.
  - eexists. symmetry. apply take_drop.
  - intros Hshort. rewrite Z.max_r by lia. reflexivity.
Qed.

(** X6.  When [read_file] reports success, its [content] is the end of the
    file's text as [read_text] gives it: at most 16000 characters, a suffix
    of the text, all of it when the text is that short; the path it reports
    is the guarded path, and the world is as before. *)
Theorem read_file_returns_tail (host : Host) (workspace : Path) (path : pyval)
    (w w' : world) (r : pyval) :
  read_file host workspace path w = (Ok r, w') ->
  py_get r "ok" VNone = Ok (VBool true) ->
  exists resolved text content,
    _resolve_in_workspace (cwd w) workspace path = Ok resolved
    /\ read_text host resolved w = (Ok text, w)
    /\ r = VDict [(lit "ok", VBool true);
                  (lit "path", VStr (str_of_path resolved));
                  (lit "content", VStr content)]
    /\ (Z.of_nat (length content) <= 16000)%Z
    /\ (exists before, text = before ++ content)
    /\ ((Z.of_nat (length text) <= 16000)%Z -> content = text)
    /\ w' = w.
Proof.
  intros Hrun Hok.
  assert (Hw : w' = w).
  { pose proof (world_read_file host workspace path w) as H.
    rewrite Hrun in H. exact H. }
  subst w'. apply try_except_ok in Hrun as [Hbody | (e & w1 & _ & Hhandler)].
  - apply bind_ok in Hbody as (resolved & w1 & Hres & Hbody).
    unfold resolve_in_workspace in Hres. injection Hres as Hres <-.
    apply bind_ok in Hbody as (present & w1 & Hpresent & Hbody).
    injection Hpresent as _ <-.
    destruct (negb present).
    + injection Hbody as <-. destruct (failure_not_ok _ Hok).
    + apply bind_ok in Hbody as (text & w1 & Htext & Hbody).
      assert (Hw1 : w1 = w).
      { pose proof (world_read_text host resolved w) as H.
        rewrite Htext in H. exact H. }
      subst w1. injection Hbody as <-.
      destruct (slice_from_tail_of 16000 text ltac:(lia)) as (Hlen & Hsuf & Hall).
      exists resolved, text, (slice_from (-16000) text).
      repeat split; assumption.
  - injection Hhandler as <- _. destruct (failure_not_ok _ Hok).
Qed.

Lemma read_file_returns_memory_text :
  exists resolved text content,
    _resolve_in_workspace (cwd (world_with_memory (lit "hello"))) sample_workspace
      (VStr (lit ".agent/memory.json")) = Ok resolved
    /\ read_text answering_host resolved (world_with_memory (lit "hello"))
       = (Ok text, world_with_memory (lit "hello"))
    /\ VDict [(lit "ok", VBool true);
              (lit "path", VStr (lit "/srv/work/.agent/memory.json"));
              (lit "content", VStr (lit "hello"))]
       = VDict [(lit "ok", VBool true);
                (lit "path", VStr (str_of_path resolved));
                (lit "content", VStr content)]
    /\ (Z.of_nat (length content) <= 16000)%Z
    /\ (exists before, text = before ++ content)
    /\ ((Z.of_nat (length text) <= 16000)%Z -> content = text)
    /\ world_with_memory (lit "hello") = world_with_memory (lit "hello").
Proof.
  apply (read_file_returns_tail answering_host sample_workspace
           (VStr (lit ".agent/memory.json")) (world_with_memory (lit "hello"))).
  - vm_compute. reflexivity.
  - vm_compute. reflexivity.
Defined.

(** What the loop of [list_files] collects. *)
Lemma collect_files_spec (host : Host) (f : gmap (list str) node)
    (workspace : Path) (listed : str -> Prop) (entries : list (list str))
    (files out : list str) :
  (forall p rel, In p entries -> is_file_node (node_at f p) = true ->
                 relative_to host p workspace = Ok rel ->
                 listed (str_of_path rel)) ->
  Forall listed files ->
  (length files < 200)%nat ->
  collect_files host f workspace entries files = Ok out ->
  Forall listed out /\ (length out <= 200)%nat.
Proof.
  revert files. induction entries as [|p rest IH]; intros files Hentries Hfiles Hlen.
  - intros [= <-]. split; [exact Hfiles | lia].
  - cbn [collect_files].
    assert (Hrest : forall q rel, In q rest -> is_file_node (node_at f q) = true ->
                      relative_to host q workspace = Ok rel ->
                      listed (str_of_path rel)).
    { intros q rel Hq. apply Hentries. right. exact Hq. }
    destruct (is_file_node (node_at f p)) eqn:Hfile.
    + destruct (relative_to host p workspace) as [rel | e] eqn:Hrel; [|discriminate].
      assert (Hnew : Forall listed (files ++ [str_of_path rel])).
      { apply Forall_app. split; [exact Hfiles|].
        constructor; [|constructor].
        apply (Hentries p rel); [left; reflexivity | exact Hfile | exact Hrel]. }
      assert (Hlen' : (length (files ++ [str_of_path rel]) <= 200)%nat).
      { rewrite length_app. simpl. lia. }
      destruct (200 <=? length (files ++ [str_of_path rel]))%nat eqn:Hfull.
      * intros [= <-]. split; assumption.
      * apply Nat.leb_gt in Hfull. apply IH; assumption.
    + destruct (200 <=? length files)%nat eqn:Hfull.
      * intros [= <-]. split; [exact Hfiles | lia].
      * apply IH; assumption.
Qed.

(** X7.  When [list_files] reports success it names at most 200 entries, and
    each one is the workspace-relative path of a regular file that lies
    strictly below the guarded directory in the file system. *)
Theorem list_files_lists_files_below (host : Host) (workspace : Path)
    (path : pyval) (w w' : world) (r : pyval) :
  list_files host workspace path w = (Ok r, w') ->
  py_get r "ok" VNone = Ok (VBool true) ->
  exists resolved names,
    _resolve_in_workspace (cwd w) workspace path = Ok resolved
    /\ r = VDict [(lit "ok", VBool true); (lit "files", VList (map VStr names))]
    /\ (length names <= 200)%nat
    /\ Forall (fun name =>
                 exists p data rel,
                   fs w !! p = Some (File data)
                   /\ take (length (parts resolved)) p = parts resolved
                   /\ p <> parts resolved
                   /\ relative_to host p workspace = Ok rel
                   /\ name = str_of_path rel) names
    /\ w' = w.
Proof.
  intros Hrun Hok.
  assert (Hw : w' = w).
  { pose proof (world_list_files host workspace path w) as H.
    rewrite Hrun in H. exact H. }
  subst w'. apply try_except_ok in Hrun as [Hbody | (e & w1 & _ & Hhandler)].
  - apply bind_ok in Hbody as (resolved & w1 & Hres & Hbody).
    unfold resolve_in_workspace in Hres. injection Hres as Hres <-.
    apply bind_ok in Hbody as (present & w1 & Hpresent & Hbody).
    injection Hpresent as _ <-.
    destruct (negb present).
    + injection Hbody as <-. destruct (failure_not_ok _ Hok).
    + apply bind_ok in Hbody as (entries & w1 & Hentries & Hbody).
      assert (Hw1 : w1 = w).
      { pose proof (world_rglob_all resolved w) as H.
        rewrite Hentries in H. exact H. }
      subst w1.
      apply bind_ok in Hbody as (w2 & w1 & Hget & Hbody).
      injection Hget as <- <-.
      apply bind_ok in Hbody as (files & w1 & Hfiles & Hbody).
      unfold lift in Hfiles. injection Hfiles as Hfiles <-.
      injection Hbody as <-.
      assert (Hkey : fs_key w resolved = parts resolved).
      { destruct (resolve_in_workspace_ok _ _ _ _ Hres) as (s & _ & ->).
        unfold fs_key, candidate_of. rewrite resolve_clean. reflexivity. }
      assert (Hbelow : forall p, In p entries ->
                take (length (parts resolved)) p = parts resolved
                /\ p <> parts resolved).
      { intros p Hp. unfold rglob_all, bind, get_world in Hentries.
        rewrite Hkey in Hentries.
        destruct (node_at (fs w) (parts resolved)) as [[|data]|];
          injection Hentries as <-; try destruct Hp.
        apply list_elem_of_In, list_elem_of_filter in Hp as [Hp _].
        apply andb_prop_elim in Hp as [Htake Hne].
        apply bool_decide_unpack in Htake. apply negb_prop_elim in Hne.
        split; [exact Htake|]. intros Heq. apply Hne.
        apply bool_decide_pack. exact Heq. }
      eapply collect_files_spec in Hfiles as [Hall Hlen];
        [exists resolved, files; repeat split; [exact Hres | exact Hlen | exact Hall]
        | | constructor | simpl; lia].
      intros p rel Hp Hfile Hrel. cbv beta.
      destruct (Hbelow p Hp) as [Htake Hne].
      unfold node_at in Hfile.
      destruct p as [|seg p]; [discriminate|].
      destruct (fs w !! (seg :: p)) as [[|data]|] eqn:Hnode; try discriminate.
      exists (seg :: p), data, rel. repeat split; assumption.
  - injection Hhandler as <- _. destruct (failure_not_ok _ Hok).
Qed.

Lemma list_files_lists_memory :
  exists resolved names,
    _resolve_in_workspace (cwd (world_with_memory (lit "hello"))) sample_workspace
      (VStr (lit ".")) = Ok resolved
    /\ VDict [(lit "ok", VBool true);
              (lit "files", VList [VStr (lit ".agent/memory.json")])]
       = VDict [(lit "ok", VBool true); (lit "files", VList (map VStr names))]
    /\ (length names <= 200)%nat
    /\ Forall (fun name =>
                 exists p data rel,
                   fs (world_with_memory (lit "hello")) !! p = Some (File data)
                   /\ take (length (parts resolved)) p = parts resolved
                   /\ p <> parts resolved
                   /\ relative_to answering_host p sample_workspace = Ok rel
                   /\ name = str_of_path rel) names
    /\ world_with_memory (lit "hello") = world_with_memory (lit "hello").
Proof.
  apply (list_files_lists_files_below answering_host sample_workspace
           (VStr (lit ".")) (world_with_memory (lit "hello"))).
  - vm_compute. reflexivity.
  - vm_compute. reflexivity.
Defined.











(** ** The web lookup *)

Lemma only_fetches_pure {A} (k : nat) (allowed : str -> Prop) (m : M A) :
  keeps_world m -> only_fetches k allowed m.
Proof.
  intros Hm w. exists []. rewrite (Hm w), app_nil_r. destruct w.
  repeat split; [simpl; lia | constructor].
Qed.

Lemma only_fetches_bind_pure {A B} (k : nat) (allowed : str -> Prop)
    (m : M A) (c : A -> M B) :
  keeps_world m -> (forall a, only_fetches k allowed (c a)) ->
  only_fetches k allowed (bind m c).
Proof.
  intros Hm Hc w. unfold bind. specialize (Hm w).
  destruct (m w) as [[a | e] w1]; cbn [snd] in *; subst w1.
  - apply Hc.
  - apply (only_fetches_pure k allowed (raise (A := B) e)). intros w'. reflexivity.
Qed.

Lemma only_fetches_bind_fetch {A B} (k : nat) (allowed : str -> Prop)
    (m : M A) (c : A -> M B) :
  only_fetches 1 allowed m -> (forall a, only_fetches k allowed (c a)) ->
  only_fetches (S k) allowed (bind m c).
Proof.
  intros Hm Hc w. unfold bind. destruct (Hm w) as (urls & Hw1 & Hlen & Hall).
  destruct (m w) as [[a | e] w1]; cbn [snd] in *.
  - destruct (Hc a w1) as (urls' & Hw2 & Hlen' & Hall').
    exists (urls ++ urls'). rewrite Hw2, Hw1. cbn. rewrite app_assoc.
    repeat split; [rewrite length_app; lia | apply Forall_app; split; assumption].
  - exists urls. repeat split; [exact Hw1 | lia | exact Hall].
Qed.

Lemma only_fetches_try_except {A} (k : nat) (allowed : str -> Prop) (body : M A)
    (catches : exn_class -> bool) (handler : exn -> M A) :
  only_fetches k allowed body -> (forall e, keeps_world (handler e)) ->
  only_fetches k allowed (try_except body catches handler).
Proof.
  intros Hb Hh w. unfold try_except. specialize (Hb w).
  destruct (body w) as [[a | e] w1]; cbn [snd] in *; [exact Hb|].
  destruct (catches (exn_cls e)); [|exact Hb].
  rewrite Hh. exact Hb.
Qed.

Lemma only_fetches_fetch_json (host : Host) (allowed : str -> Prop) (url : str) :
  allowed url -> only_fetches 1 allowed (_fetch_json host url).
Proof.
  intros Hurl w. exists [url]. repeat split; [simpl; lia | repeat constructor; exact Hurl].
Qed.

Lemma lookup_site_wikipedia_search (encoded : str) :
  lookup_site (wikipedia_search_url encoded).
Proof. left. eexists. reflexivity. Qed.

Lemma lookup_site_wikipedia_summary (quoted_title : str) :
  lookup_site (wikipedia_summary_url quoted_title).
Proof. left. eexists. reflexivity. Qed.

Lemma lookup_site_ddg (encoded : str) : lookup_site (ddg_url encoded).
Proof. right. eexists. reflexivity. Qed.

(** Splits a computation along its binds and case analyses, counting the
    requests. *)
Ltac fetches :=
  repeat first
    [ apply only_fetches_pure; solve [world]
    | apply only_fetches_bind_pure; [solve [world] | intros]
    | apply only_fetches_bind_fetch;
        [apply only_fetches_fetch_json;
         first [apply lookup_site_wikipedia_search
               | apply lookup_site_wikipedia_summary
               | apply lookup_site_ddg]
        | intros]
    | match goal with
      | |- only_fetches _ _ (match ?x with _ => _ end) => destruct x
      end ].

Lemma only_fetches_wikipedia (host : Host) (encoded : str) :
  only_fetches 2 lookup_site (wikipedia_lookup host encoded).
Proof. unfold wikipedia_lookup. fetches. Qed.

Lemma only_fetches_duckduckgo (host : Host) (query encoded : str) :
  only_fetches 1 lookup_site (duckduckgo_lookup host query encoded).
Proof. unfold duckduckgo_lookup. fetches. Qed.

Lemma only_fetches_bind {A B} (j k : nat) (allowed : str -> Prop)
    (m : M A) (c : A -> M B) :
  only_fetches j allowed m -> (forall a, only_fetches k allowed (c a)) ->
  only_fetches (j + k) allowed (bind m c).
Proof.
  intros Hm Hc w. unfold bind. destruct (Hm w) as (urls & Hw1 & Hlen & Hall).
  destruct (m w) as [[a | e] w1]; cbn [snd] in *.
  - destruct (Hc a w1) as (urls' & Hw2 & Hlen' & Hall').
    exists (urls ++ urls'). rewrite Hw2, Hw1. cbn. rewrite app_assoc.
    repeat split; [rewrite length_app; lia | apply Forall_app; split; assumption].
  - exists urls. repeat split; [exact Hw1 | lia | exact Hall].
Qed.

Lemma only_fetches_web_lookup (host : Host) (query : pyval) :
  only_fetches 3 lookup_site (web_lookup host query).
Proof.
  unfold web_lookup.
  apply only_fetches_bind_pure; [apply world_lift|]. intros stripped.
  destruct (negb (nonempty stripped)); [apply only_fetches_pure, world_ret|].
  apply only_fetches_bind_pure; [apply world_lift|]. intros encoded.
  apply (only_fetches_bind 2 1).
  - apply only_fetches_try_except; [apply only_fetches_wikipedia|].
    intros e. apply world_ret.
  - intros [result|]; [apply only_fetches_pure, world_ret|].
    apply only_fetches_try_except; [apply only_fetches_duckduckgo|].
    intros e. apply world_ret.
Qed.

(** X9.  Whatever it is asked and whatever [urlopen] returns or raises, the
    only effect of [web_lookup] is to call [urlopen]: at most three times,
    each time with an address of Wikipedia or of DuckDuckGo; the file
    system, the subprocesses and the provider are left alone.  The requests
    [urlopen] sends to answer one call, when it follows a redirect, are not
    counted. *)
Theorem web_lookup_fetches_two_sites (host : Host) (query : pyval) :
  only_fetches 3 lookup_site (web_lookup host query).
Proof. apply only_fetches_web_lookup. Qed.

Lemma catch_all_returns {A} (body : M A) (handler : exn -> A) (w : world) :
  exists a w',
    try_except body (fun _ => true) (fun e => ret (handler e)) w = (Ok a, w').
Proof.
  unfold try_except. destruct (body w) as [[a | e] w1]; eexists _, _; reflexivity.
Qed.

Lemma web_lookup_answers (host : Host) (query : str) (bytes : list N)
    (w : world) :
  utf8_encode (py_strip query) = Some bytes ->
  (exists result w', web_lookup host (VStr query) w = (Ok result, w'))
  /\ (py_strip query = [] ->
      web_lookup host (VStr query) w = (Ok (failure (lit "Query is empty")), w)).
Proof.
  intros Henc. unfold web_lookup, bind at 1, lift at 1.
  assert (Hstrip : strip_value (py_or (VStr query) (VStr [])) = Ok (py_strip query)).
  { unfold py_or. destruct query; reflexivity. }
  rewrite Hstrip. destruct (py_strip query) as [|c stripped] eqn:Hq.
  - split; [eexists _, _|intros _]; reflexivity.
  - split; [|discriminate]. cbn [nonempty negb].
    unfold bind at 1, lift at 1, quote_plus, quote_with. rewrite Henc.
    unfold bind.
    destruct (catch_all_returns
                (wikipedia_lookup host
                   (map (fun c => if c =? 32 then 43 else c)
                      (flat_map
                         (fun b => if unreserved b || (b =? 32) then [b]
                                   else [37; upper_hex (b / 16); upper_hex (b mod 16)])
                         bytes)))
                (fun _ => None) w) as (hit & w1 & Hhit).
    rewrite Hhit. destruct hit as [result|].
    + eexists _, _. reflexivity.
    + apply catch_all_returns.
Qed.

(** X10.  A query that is text [web_lookup] always answers, never raising,
    whatever the network does, provided the stripped text can be encoded as
    UTF-8 (it holds no surrogate); and a query that is blank is answered
    [Query is empty] without any request. *)
Theorem web_lookup_answers_text (host : Host) (query : str) (bytes : list N)
    (w : world) :
  utf8_encode (py_strip query) = Some bytes ->
  (exists result w', web_lookup host (VStr query) w = (Ok result, w'))
  /\ (py_strip query = [] ->
      web_lookup host (VStr query) w = (Ok (failure (lit "Query is empty")), w)).
Proof. apply web_lookup_answers. Qed.

Lemma web_lookup_answers_rocq :
  (exists result w',
     web_lookup answering_host (VStr (lit " rocq ")) empty_world = (Ok result, w'))
  /\ (py_strip (lit " rocq ") = [] ->
      web_lookup answering_host (VStr (lit " rocq ")) empty_world
      = (Ok (failure (lit "Query is empty")), empty_world)).
Proof.
  apply (web_lookup_answers_text answering_host (lit " rocq ") (lit "rocq")).
  reflexivity.
Defined.

(** ** Requests to the provider, continued *)

Lemma calls_keeps {A} (k : nat) (m : M A) : keeps_calls m -> calls_at_most k m.
Proof. intros Hm w. rewrite (Hm w). lia. Qed.

Lemma calls_bind {A B} (j k : nat) (m : M A) (c : A -> M B) :
  calls_at_most j m -> (forall a, calls_at_most k (c a)) ->
  calls_at_most (j + k) (bind m c).
Proof.
  intros Hm Hc w. unfold bind. specialize (Hm w).
  destruct (m w) as [[a | e] w1]; cbn [snd] in *; [|lia].
  specialize (Hc a w1). lia.
Qed.

Lemma calls_chat_create (host : Host) (model : str) (messages : list chat_entry) :
  calls_at_most 1 (client_chat_create host model messages).
Proof. intros w. cbn. lia. Qed.

Lemma keeps_answer_tool_calls (host : Host) (workspace : Path)
    (calls : list tool_call) (messages : list chat_entry) :
  keeps_calls (answer_tool_calls host workspace calls messages).
Proof.
  unfold answer_tool_calls. apply keeps_for_each. intros msgs call.
  apply keeps_bind; [apply keeps_execute_tool | intros; apply keeps_ret].
Qed.

Lemma calls_chat_rounds (host : Host) (n : nat) (model : str) (workspace : Path)
    (messages : list chat_entry) :
  calls_at_most n (chat_rounds host n model workspace messages).
Proof.
  revert messages. induction n as [|n IH]; intros messages.
  - apply calls_keeps, keeps_ret.
  - cbn [chat_rounds]. apply (calls_bind 1 n); [apply calls_chat_create|].
    intros choices. apply (calls_bind 0 n); [apply calls_keeps, keeps_lift|].
    intros message.
    destruct (msg_tool_calls message) as [[|call calls]|];
      try (apply calls_keeps, keeps_ret).
    apply (calls_bind 0 n); [apply calls_keeps, keeps_answer_tool_calls|].
    intros messages'. apply IH.
Qed.

(** X11.  Whatever the provider, the tools and the network do, a turn under
    the chat protocol sends at most 12 requests to the provider, whether it
    ends with an answer, with the fixed message or with an exception. *)
Theorem chat_turn_sends_at_most_12_requests (host : Host) (model user_input : str)
    (workspace memory : Path) :
  calls_at_most 12 (run_turn_chat host model user_input workspace memory).
Proof.
  unfold run_turn_chat. destruct (maybe_handle_smalltalk user_input).
  - apply calls_keeps, keeps_ret.
  - apply (calls_bind 0 12); [apply calls_keeps, keeps_turn_input|].
    intros messages. apply calls_chat_rounds.
Qed.

(** ** The responses protocol *)

Section ResponsesRounds.
Context (host : Host) (model : str) (workspace : Path).

Lemma function_round_returns (calls : list tool_call) (outputs : list (str * str))
    (w : world) :
  (forall call, In call calls ->
     forall w', exists output w'',
       execute_tool host (call_name call) (call_arguments call) workspace w'
       = (Ok output, w'')) ->
  exists outputs' w',
    for_each (fun outputs call =>
                output <- execute_tool host (call_name call)
                            (call_arguments call) workspace ;;
                ret (outputs ++ [(call_id call, output)]))
      calls outputs w = (Ok outputs', w')
    /\ provider_calls w' = provider_calls w.
Proof.
  revert outputs w. induction calls as [|call calls IH]; intros outputs w Hret.
  - exists outputs, w. split; reflexivity.
  - destruct (Hret call (or_introl eq_refl) w) as (output & w1 & Hexec).
    destruct (IH (outputs ++ [(call_id call, output)]) w1)
      as (outputs' & w' & Hrest & Hcalls).
    { intros c Hc. apply Hret. right. exact Hc. }
    exists outputs', w'. split.
    + cbn [for_each]. unfold bind at 1. unfold bind at 1. rewrite Hexec.
      exact Hrest.
    + rewrite Hcalls.
      pose proof (keeps_execute_tool host (call_name call) (call_arguments call)
                    workspace w) as Hk.
      rewrite Hexec in Hk. exact Hk.
Qed.

Lemma responses_rounds_go_on (fuel : nat) (input : responses_input)
    (response : response) (w0 w : world) :
  always_calls_functions host model ->
  requested_functions_return host model workspace ->
  responses_create host model input w0 = Ok response ->
  exists w',
    responses_rounds host fuel model workspace response w = (Ok None, w')
    /\ provider_calls w' = (provider_calls w + fuel)%nat.
Proof.
  intros Hcalls Hret. revert input response w0 w.
  induction fuel as [|fuel IH]; intros input response w0 w Hcreate.
  - exists w. split; [reflexivity | simpl; lia].
  - destruct (Hcalls input w0) as (response0 & call & calls & Hcreate0 & Hfun).
    rewrite Hcreate in Hcreate0. injection Hcreate0 as <-.
    destruct (function_round_returns (call :: calls) [] w)
      as (outputs & w1 & Hround & Hsame).
    { intros c Hc. rewrite <- Hfun in Hc.
      exact (Hret input w0 response c Hcreate Hc). }
    destruct (Hcalls (ToolOutputs (resp_id response) outputs) w1)
      as (response' & call' & calls' & Hcreate' & _).
    set (w2 := mkWorld (cwd w1) (fs w1) (spawned w1) (fetched w1)
                 (S (provider_calls w1))).
    destruct (IH _ response' w1 w2 Hcreate') as (w' & Hrest & Hcount).
    exists w'. split.
    + cbn [responses_rounds]. rewrite Hfun. unfold bind at 1. rewrite Hround.
      unfold bind at 1, client_responses_create. rewrite Hcreate'. exact Hrest.
    + rewrite Hcount. subst w2. cbn [provider_calls]. lia.
Qed.

End ResponsesRounds.

(** X12.  The responses protocol has no limit on rounds.  When the greeting
    check does not answer the input, the context of the turn is assembled
    without an exception, every response of the provider holds a function
    call and every requested tool is executed without an exception, the loop
    is still running after any number of rounds: for every [fuel] the turn
    has sent [fuel + 1] requests and has not returned. *)
Theorem responses_turn_has_no_round_limit (host : Host) (model user_input : str)
    (workspace memory : Path) (input : list chat_entry) (w w1 : world)
    (fuel : nat) :
  maybe_handle_smalltalk user_input = None ->
  turn_input host user_input workspace memory w = (Ok input, w1) ->
  always_calls_functions host model ->
  requested_functions_return host model workspace ->
  exists w',
    run_turn_responses host fuel model user_input workspace memory w
    = (Ok None, w')
    /\ provider_calls w' = (provider_calls w + S fuel)%nat.
Proof.
  intros Hsmall Hinput Hcalls Hret.
  destruct (Hcalls (Conversation input) w1)
    as (response & call & calls & Hcreate & _).
  set (w2 := mkWorld (cwd w1) (fs w1) (spawned w1) (fetched w1)
               (S (provider_calls w1))).
  destruct (responses_rounds_go_on host model workspace fuel _ response w1 w2
              Hcalls Hret Hcreate) as (w' & Hrest & Hcount).
  exists w'. split.
  - unfold run_turn_responses. rewrite Hsmall. unfold bind at 1. rewrite Hinput.
    unfold bind at 1, client_responses_create. rewrite Hcreate. exact Hrest.
  - rewrite Hcount. subst w2. cbn [provider_calls].
    pose proof (keeps_turn_input host user_input workspace memory w) as Hk.
    rewrite Hinput in Hk. cbn [snd] in Hk. lia.
Qed.

Lemma responses_turn_goes_on_with_insisting_host :
  exists w',
    run_turn_responses insisting_responses_host 40 (lit "gpt") (lit "?")
      sample_workspace sample_memory empty_world
    = (Ok None, w')
    /\ provider_calls w' = (provider_calls empty_world + 41)%nat.
Proof.
  eapply (responses_turn_has_no_round_limit insisting_responses_host (lit "gpt")
            (lit "?") sample_workspace sample_memory _ empty_world _ 40).
  - reflexivity.
  - vm_compute. reflexivity.
  - intros input w. do 3 eexists. split; reflexivity.
  - intros input w response call Hcreate Hin w'.
    injection Hcreate as <-. destruct Hin as [<- | []].
    do 2 eexists. reflexivity.
Defined.

(** ** Tool calls of a round *)

(** X13.  The tools of a chat round are run in the order the provider asked
    for them, each in the world the one before it left.  The round returns
    exactly when every tool returns in that chain of worlds; the messages
    have then grown by one [tool] entry per call, in that order, each under
    the id of its call and holding what [execute_tool] returned for it, and
    the world is the one the last tool left. *)
Theorem tool_entries_follow_the_calls (host : Host) (workspace : Path)
    (calls : list tool_call) (messages messages' : list chat_entry)
    (w w' : world) :
  answer_tool_calls host workspace calls messages w = (Ok messages', w')
  <-> exists entries,
        messages' = messages ++ entries
        /\ tools_run host workspace calls w entries w'.
Proof.
  unfold answer_tool_calls. revert messages w.
  induction calls as [|call calls IH]; intros messages w.
  - split.
    + intros [= <- <-]. exists []. rewrite app_nil_r. split; constructor.
    + intros (entries & -> & Hrun). inversion Hrun; subst.
      rewrite app_nil_r. reflexivity.
  - cbn [for_each]. split.
    + intros Hrun.
      apply bind_ok in Hrun as (msgs & w1 & Hstep & Hrest).
      apply bind_ok in Hstep as (output & w2 & Hexec & Hret).
      injection Hret as <- <-.
      apply IH in Hrest as (entries & -> & Hall).
      exists (ToolEntry (call_id call) output :: entries). split.
      * rewrite <- app_assoc. reflexivity.
      * econstructor; [exact Hexec | exact Hall].
    + intros (entries & -> & Hrun). inversion Hrun as [|c cs output rest w0 w1 w2 Hexec Hrest]; subst.
      unfold bind at 1. unfold bind at 1. rewrite Hexec. cbn [ret].
      apply IH. exists rest. split; [|exact Hrest].
      rewrite <- app_assoc. reflexivity.
Qed.

Lemma tool_entries_of_two_calls :
  exists entries,
    [UserEntry (lit "?");
     ToolEntry (lit "a")
       (json_dumps (repr_float answering_host) (failure (lit "Unknown tool: rm")));
     ToolEntry (lit "b")
       (json_dumps (repr_float answering_host) (failure (lit "Query is empty")))]
    = [UserEntry (lit "?")] ++ entries
    /\ tools_run answering_host sample_workspace
         [mkCall (lit "a") (lit "rm") (lit "{}");
          mkCall (lit "b") (lit "web_lookup") (lit "{}")]
         empty_world entries empty_world.
Proof.
  apply (proj1 (tool_entries_follow_the_calls answering_host sample_workspace
                  [mkCall (lit "a") (lit "rm") (lit "{}");
                   mkCall (lit "b") (lit "web_lookup") (lit "{}")]
                  [UserEntry (lit "?")] _ empty_world empty_world)).
  vm_compute. reflexivity.
Defined.

(** X14.  Under the responses protocol, a first response without a function
    call ends the turn: items of other types are passed over, the answer is
    the response's text without the white space around it, and one request
    has been sent. *)
Theorem responses_turn_answers_without_calls (host : Host)
    (model user_input : str) (workspace memory : Path) (input : list chat_entry)
    (response : response) (w w1 : world) (fuel : nat) :
  maybe_handle_smalltalk user_input = None ->
  turn_input host user_input workspace memory w = (Ok input, w1) ->
  responses_create host model (Conversation input) w1 = Ok response ->
  Forall (fun item => exists type, item = OtherItem type) (resp_output response) ->
  run_turn_responses host (S fuel) model user_input workspace memory w
  = (Ok (Some (py_strip (resp_output_text response))),
     mkWorld (cwd w1) (fs w1) (spawned w1) (fetched w1) (S (provider_calls w))).
Proof.
  intros Hsmall Hinput Hcreate Hitems.
  assert (Hnone : function_calls (resp_output response) = []).
  { unfold function_calls. induction Hitems as [|item items [type ->] _ IH];
      [reflexivity | exact IH]. }
  pose proof (keeps_turn_input host user_input workspace memory w) as Hk.
  rewrite Hinput in Hk. cbn [snd] in Hk.
  unfold run_turn_responses. rewrite Hsmall. unfold bind at 1. rewrite Hinput.
  unfold bind at 1, client_responses_create. rewrite Hcreate.
  cbn [responses_rounds]. rewrite Hnone, Hk. reflexivity.
Qed.

Lemma responses_turn_answers_done :
  run_turn_responses
    (responses_host (mkResponse (lit "resp_1") [OtherItem (lit "message")]
                       (lit " done ")))
    1 (lit "gpt") (lit "?") sample_workspace sample_memory empty_world
  = (Ok (Some (py_strip (lit " done "))),
     mkWorld (cwd empty_world) (fs empty_world) (spawned empty_world)
       (fetched empty_world)
       (S (provider_calls empty_world))).
Proof.
  eapply (responses_turn_answers_without_calls
            (responses_host (mkResponse (lit "resp_1") [OtherItem (lit "message")]
                               (lit " done ")))
            (lit "gpt") (lit "?") sample_workspace sample_memory _
            (mkResponse (lit "resp_1") [OtherItem (lit "message")] (lit " done "))
            empty_world empty_world 0).
  - reflexivity.
  - vm_compute. reflexivity.
  - reflexivity.
  - repeat constructor. eexists. reflexivity.
Defined.

(** ** Greetings, continued *)

(** X15.  The greeting check answers only greetings: when it returns a
    reply, the input has one to three words, all of them greeting words; the
    reply is the Dutch one exactly when one of the words is a Dutch
    greeting, and the English one otherwise. *)
Theorem smalltalk_reply_only_for_greetings (user_input reply : str) :
  maybe_handle_smalltalk user_input = Some reply ->
  (1 <= length (smalltalk_words user_input) <= 3)%nat
  /\ Forall (fun word => In word GREETING_WORDS) (smalltalk_words user_input)
  /\ (Exists (fun word => In word DUTCH_GREETINGS) (smalltalk_words user_input)
      /\ reply = DUTCH_REPLY
      \/ Forall (fun word => ~ In word DUTCH_GREETINGS) (smalltalk_words user_input)
         /\ reply = ENGLISH_REPLY).
Proof.
  unfold maybe_handle_smalltalk, smalltalk_words.
  set (cleaned := py_strip (blank_outside smalltalk_kept (py_lower user_input))).
  set (words := filter nonempty (py_split cleaned)).
  destruct (negb (nonempty cleaned)); [discriminate|].
  destruct words as [|word words']; [discriminate|].
  assert (Hne : (1 <= length (word :: words'))%nat) by (simpl; lia).
  revert Hne. generalize (word :: words'). clear word words'. intros words Hne.
  destruct (length words <=? 3)%nat eqn:Hlen; [|discriminate].
  destruct (forallb (fun w => str_in w GREETING_WORDS) words) eqn:Hall;
    [|discriminate].
  cbn [andb]. apply Nat.leb_le in Hlen.
  assert (Hgreet : Forall (fun word => In word GREETING_WORDS) words).
  { apply Forall_forall. intros x Hx. apply str_in_In.
    rewrite forallb_forall in Hall. apply Hall. apply list_elem_of_In. exact Hx. }
  intros Hreply. split; [|split; [exact Hgreet|]].
  - split; assumption.
  - destruct (existsb (fun w => str_in w DUTCH_GREETINGS) words) eqn:Hdutch.
    + left. injection Hreply as <-. split; [|reflexivity].
      apply existsb_exists in Hdutch as (x & Hx & Hin).
      apply Exists_exists. exists x. split; [apply list_elem_of_In; exact Hx|].
      apply str_in_In. exact Hin.
    + right. injection Hreply as <-. split; [|reflexivity].
      apply Forall_forall. intros x Hx Hin.
      assert (Hex : existsb (fun w => str_in w DUTCH_GREETINGS) words = true).
      { apply existsb_exists. exists x. split; [apply list_elem_of_In; exact Hx|].
        apply str_in_In. exact Hin. }
      congruence.
Qed.

Lemma smalltalk_reply_for_hallo :
  (1 <= length (smalltalk_words (lit "Hey, hallo!")) <= 3)%nat
  /\ Forall (fun word => In word GREETING_WORDS) (smalltalk_words (lit "Hey, hallo!"))
  /\ (Exists (fun word => In word DUTCH_GREETINGS)
        (smalltalk_words (lit "Hey, hallo!"))
      /\ DUTCH_REPLY = DUTCH_REPLY
      \/ Forall (fun word => ~ In word DUTCH_GREETINGS)
           (smalltalk_words (lit "Hey, hallo!"))
         /\ DUTCH_REPLY = ENGLISH_REPLY).
Proof.
  apply (smalltalk_reply_only_for_greetings (lit "Hey, hallo!") DUTCH_REPLY).
  vm_compute. reflexivity.
Defined.

(** ** What a turn does before it asks the provider *)

Lemma world_for_each {A B} (step : B -> A -> M B) (items : list A) (acc : B) :
  (forall b a, keeps_world (step b a)) -> keeps_world (for_each step items acc).
Proof.
  intros Hstep. revert acc. induction items as [|x items IH]; intros acc; simpl.
  - apply world_ret.
  - apply world_bind; [apply Hstep | intros b; apply IH].
Qed.

Lemma only_fetches_prefetch (host : Host) (user_input : str) :
  only_fetches 3 lookup_site (_maybe_prefetch_web_context host user_input).
Proof.
  unfold _maybe_prefetch_web_context.
  destruct (_extract_lookup_query user_input) as [[|c query]|];
    try (apply only_fetches_pure, world_ret).
  replace 3%nat with (3 + 0)%nat by reflexivity.
  apply only_fetches_bind; [apply only_fetches_web_lookup|].
  intros result. apply only_fetches_pure. world.
Qed.

(** X16.  Before its first request to the provider a turn only reads: it
    reads the memory store and may call [urlopen], at most three times and
    each time with an address of Wikipedia or of DuckDuckGo; it writes no
    file and starts no subprocess.  The requests [urlopen] sends to answer
    one call, when it follows a redirect, are not counted. *)
Theorem turn_input_only_fetches (host : Host) (user_input : str)
    (workspace memory : Path) :
  only_fetches 3 lookup_site (turn_input host user_input workspace memory).
Proof.
  unfold turn_input.
  apply only_fetches_bind_pure; [apply world_recent|]. intros recent_items.
  apply only_fetches_bind_pure; [apply world_lift|]. intros items.
  apply only_fetches_bind_pure.
  { apply world_for_each. intros lines item. world. }
  intros history_lines.
  replace 3%nat with (3 + 0)%nat by reflexivity.
  apply only_fetches_bind; [apply only_fetches_prefetch|].
  intros web_context. apply only_fetches_pure, world_ret.
Qed.

(** ** The dispatcher, continued *)

(** X17.  A name that is none of the five tools never raises and never acts:
    for arguments within the limits of [json.loads], [execute_tool] answers
    [Invalid JSON args] when the arguments are not JSON and [Unknown tool]
    otherwise, also for arguments that are no object, and leaves the world
    as it is.  Beyond those limits [json.loads] can raise an exception that
    is no [JSONDecodeError], which [execute_tool] does not catch. *)
Theorem unknown_tool_is_reported (host : Host) (name arguments : str)
    (workspace : Path) (w : world) :
  within_loads_limits arguments = true ->
  ~ In name TOOL_NAMES ->
  execute_tool host name arguments workspace w
  = (Ok (json_dumps (repr_float host)
           (failure
              (match json_loads (if nonempty arguments then arguments
                                 else lit "{}") with
               | None => lit "Invalid JSON args"
               | Some _ => lit "Unknown tool: " ++ name
               end))), w).
Proof.
  intros _ Hname.
  destruct (json_loads (if nonempty arguments then arguments else lit "{}"))
    as [args|] eqn:Hargs.
  - apply (execute_tool_unknown host name arguments args workspace w Hargs Hname).
  - apply (execute_tool_invalid_json host name arguments workspace w Hargs).
Qed.

Lemma unknown_tool_rm_is_reported :
  execute_tool answering_host (lit "rm") (lit "[1, 2]") sample_workspace empty_world
  = (Ok (json_dumps (repr_float answering_host)
           (failure
              (match json_loads (if nonempty (lit "[1, 2]") then lit "[1, 2]"
                                 else lit "{}") with
               | None => lit "Invalid JSON args"
               | Some _ => lit "Unknown tool: " ++ lit "rm"
               end))), empty_world).
Proof.
  apply (unknown_tool_is_reported answering_host (lit "rm") (lit "[1, 2]")
           sample_workspace empty_world).
  - reflexivity.
  - vm_compute. intros H. repeat destruct H as [H | H]; try discriminate H. exact H.
Defined.

(** ** The memory store, continued *)

(** X18.  [recent(count)] with a positive [count] returns the end of the
    stored transcript: at most [count] entries, the last ones in their
    order, and all of them when the transcript is that short. *)
Theorem recent_returns_last_entries (host : Host) (memory : Path) (count : Z)
    (items : list pyval) (w w' : world) :
  _read_all host memory w = (Ok (VList items), w') ->
  (0 < count)%Z ->
  exists last,
    recent host memory count w = (Ok (VList last), w')
    /\ (Z.of_nat (length last) <= count)%Z
    /\ (exists before, items = before ++ last)
    /\ ((Z.of_nat (length items) <= count)%Z -> last = items).
Proof.
  intros Hread Hcount.
  destruct (slice_from_tail_of count items Hcount) as (Hlen & Hsuf & Hall).
  exists (slice_from (- count) items). repeat split; try assumption.
  unfold recent, bind. rewrite Hread. reflexivity.
Qed.

Lemma recent_returns_last_of_one :
  exists last,
    recent answering_host sample_memory 8 (world_with_memory one_entry_json)
    = (Ok (VList last), world_with_memory one_entry_json)
    /\ (Z.of_nat (length last) <= 8)%Z
    /\ (exists before,
          [transcript_entry (lit "t") (lit "user") (lit "hi")] = before ++ last)
    /\ ((Z.of_nat (length [transcript_entry (lit "t") (lit "user") (lit "hi")]) <= 8)%Z
        -> last = [transcript_entry (lit "t") (lit "user") (lit "hi")]).
Proof.
  apply (recent_returns_last_entries answering_host sample_memory 8
           [transcript_entry (lit "t") (lit "user") (lit "hi")]
           (world_with_memory one_entry_json)).
  - vm_compute. reflexivity.
  - lia.
Defined.

(** ** The memory store written and read back *)

Lemma hex_val_digit (n : N) : n < 16 -> hex_val (hex_digit n) = Some n.
Proof.
  intros Hn. unfold hex_val, hex_digit, is_digit.
  destruct (n <? 10) eqn:Hlow.
  - apply N.ltb_lt in Hlow. rewrite (between_true 48 57) by lia.
    f_equal. lia.
  - apply N.ltb_ge in Hlow. rewrite (between_false 48 57) by lia.
    rewrite (between_true 97 102) by lia. f_equal. lia.
Qed.

Lemma radix16 (c : N) :
  c < 65536 ->
  ((c / 4096 mod 16 * 16 + c / 256 mod 16) * 16 + c / 16 mod 16) * 16 + c mod 16
  = c.
Proof.
  intros Hc.
  pose proof (N.div_mod c 16 ltac:(lia)) as E0.
  pose proof (N.div_mod (c / 16) 16 ltac:(lia)) as E1.
  pose proof (N.div_mod (c / 256) 16 ltac:(lia)) as E2.
  pose proof (N.div_mod (c / 4096) 16 ltac:(lia)) as E3.
  rewrite (N.Div0.div_div c 16 16) in E1.
  rewrite (N.Div0.div_div c 256 16) in E2.
  rewrite (N.Div0.div_div c 4096 16) in E3.
  change (16 * 16) with 256 in E1. change (256 * 16) with 4096 in E2.
  change (4096 * 16) with 65536 in E3.
  rewrite (N.div_small c 65536 Hc) in E3.
  set (d0 := c mod 16) in *. set (d1 := c / 16 mod 16) in *.
  set (d2 := c / 256 mod 16) in *. set (d3 := c / 4096 mod 16) in *.
  set (q1 := c / 16) in *. set (q2 := c / 256) in *. set (q3 := c / 4096) in *.
  clearbody d0 d1 d2 d3 q1 q2 q3. lia.
Qed.

Lemma hex4_of_read (c : N) :
  c < 65536 ->
  hex4 (hex_digit (c / 4096 mod 16)) (hex_digit (c / 256 mod 16))
    (hex_digit (c / 16 mod 16)) (hex_digit (c mod 16)) = Some c.
Proof.
  intros Hc. unfold hex4.
  rewrite !hex_val_digit by (apply N.mod_lt; lia).
  f_equal. apply radix16. exact Hc.
Qed.

(** A character that stands for itself in a JSON string. *)
Lemma scan_string_plain (c : N) (rest acc : str) :
  32 <= c -> c <> 34 -> c <> 92 ->
  scan_string (c :: rest) acc = scan_string rest (c :: acc).
Proof.
  intros Hlow Hquote Hback.
  assert (Hlt : (c <? 32) = false) by (apply N.ltb_ge; exact Hlow).
  destruct c as [|p]; [lia|].
  do 7 (try (destruct p as [p | p |]));
    first [ congruence
          | discriminate Hlt
          | cbn [scan_string]; rewrite Hlt; reflexivity
          | reflexivity ].
Qed.

Lemma scan_string_hex (c : N) (rest acc : str) :
  c < 65536 -> is_surrogate c = false ->
  scan_string ([92; 117] ++ hex4_of c ++ rest) acc = scan_string rest (c :: acc).
Proof.
  intros Hc Hsur. unfold hex4_of. cbn [app scan_string].
  rewrite (hex4_of_read c Hc).
  unfold is_surrogate in Hsur.
  assert (Hhigh : between 55296 56319 c = false).
  { unfold between in Hsur. apply andb_false_iff in Hsur as [H | H];
      apply N.leb_gt in H; apply between_false; lia. }
  rewrite Hhigh. reflexivity.
Qed.

Lemma scan_string_pair (c : N) (rest acc : str) :
  65536 <= c < 1114112 ->
  scan_string
    ([92; 117] ++ hex4_of (55296 + (c - 65536) / 1024)
     ++ [92; 117] ++ hex4_of (56320 + (c - 65536) mod 1024) ++ rest) acc
  = scan_string rest (c :: acc).
Proof.
  intros Hc.
  pose proof (N.div_mod (c - 65536) 1024 ltac:(lia)) as E.
  pose proof (N.mod_lt (c - 65536) 1024 ltac:(lia)) as L.
  assert (Lq : (c - 65536) / 1024 < 1024).
  { apply N.Div0.div_lt_upper_bound. lia. }
  set (q := (c - 65536) / 1024) in *. set (r := (c - 65536) mod 1024) in *.
  clearbody q r.
  unfold hex4_of. cbn [app scan_string].
  rewrite (hex4_of_read (55296 + q)) by lia.
  rewrite (between_true 55296 56319 (55296 + q)) by lia.
  rewrite (hex4_of_read (56320 + r)) by lia.
  rewrite (between_true 56320 57343 (56320 + r)) by lia.
  f_equal. f_equal. lia.
Qed.

(** The scanner reads one escaped character back. *)
Lemma scan_string_escape (c : N) (rest acc : str) :
  scalar_value c = true ->
  scan_string (json_escape_char c ++ rest) acc = scan_string rest (c :: acc).
Proof.
  unfold scalar_value. intros Hc. apply andb_prop in Hc as [Hmax Hsur].
  apply N.ltb_lt in Hmax. apply negb_true_iff in Hsur.
  unfold json_escape_char.
  destruct (c =? 34) eqn:H34; [apply N.eqb_eq in H34; subst c; reflexivity|].
  destruct (c =? 92) eqn:H92; [apply N.eqb_eq in H92; subst c; reflexivity|].
  destruct (c =? 10) eqn:H10; [apply N.eqb_eq in H10; subst c; reflexivity|].
  destruct (c =? 13) eqn:H13; [apply N.eqb_eq in H13; subst c; reflexivity|].
  destruct (c =? 9) eqn:H9; [apply N.eqb_eq in H9; subst c; reflexivity|].
  destruct (c =? 8) eqn:H8; [apply N.eqb_eq in H8; subst c; reflexivity|].
  destruct (c =? 12) eqn:H12; [apply N.eqb_eq in H12; subst c; reflexivity|].
  apply N.eqb_neq in H34, H92.
  destruct (between 32 126 c) eqn:Hplain.
  { unfold between in Hplain. apply andb_prop in Hplain as [Hlow _].
    apply N.leb_le in Hlow. apply scan_string_plain; assumption. }
  destruct (c <? 65536) eqn:Hbmp.
  { apply N.ltb_lt in Hbmp. apply scan_string_hex; assumption. }
  apply N.ltb_ge in Hbmp. cbv zeta. rewrite <- !app_assoc.
  apply scan_string_pair. lia.
Qed.

(** The scanner reads a quoted text back, up to its closing quote. *)
Lemma scan_string_quoted (s rest acc : str) :
  scalar_text s ->
  scan_string (flat_map json_escape_char s ++ 34 :: rest) acc
  = Some (rev acc ++ s, rest).
Proof.
  intros Hs. revert acc. induction Hs as [|c s Hc _ IH]; intros acc.
  - cbn [flat_map app]. rewrite app_nil_r. reflexivity.
  - cbn [flat_map]. rewrite <- app_assoc, scan_string_escape by exact Hc.
    rewrite IH. cbn [rev]. rewrite <- app_assoc. reflexivity.
Qed.

Lemma scan_value_quoted (fuel : nat) (s rest : str) :
  scalar_text s ->
  scan_value (S fuel) (json_quote s ++ rest) = Some (VStr s, rest).
Proof.
  intros Hs. unfold json_quote. rewrite <- !app_assoc. cbn [app scan_value].
  rewrite (scan_string_quoted s rest [] Hs). reflexivity.
Qed.

(** The text of an entry, character by character: 123 and 125 are the
    braces, 34 the quote, 58 the colon, 44 the comma. *)
Lemma entry_text (repr_float : pyfloat -> str) (ts role content rest : str) :
  json_dumps_indent repr_float 1 (transcript_entry ts role content) ++ rest
  = 123 :: 10 :: 32 :: 32 :: 32 :: 32
    :: 34 :: 116 :: 115 :: 34 :: 58 :: 32
    :: 34 :: flat_map json_escape_char ts
    ++ 34 :: 44 :: 10 :: 32 :: 32 :: 32 :: 32
    :: 34 :: 114 :: 111 :: 108 :: 101 :: 34 :: 58 :: 32
    :: 34 :: flat_map json_escape_char role
    ++ 34 :: 44 :: 10 :: 32 :: 32 :: 32 :: 32
    :: 34 :: 99 :: 111 :: 110 :: 116 :: 101 :: 110 :: 116 :: 34 :: 58 :: 32
    :: 34 :: flat_map json_escape_char content
    ++ 34 :: 10 :: 32 :: 32 :: 125 :: rest.
Proof.
  unfold transcript_entry. cbn [json_dumps_indent map fst snd py_join].
  unfold json_quote. rewrite <- !app_assoc. reflexivity.
Qed.

Lemma scan_entry (repr_float : pyfloat -> str) (fuel : nat)
    (ts role content rest : str) :
  scalar_text ts -> scalar_text role -> scalar_text content ->
  scan_value (5 + fuel)
    (json_dumps_indent repr_float 1 (transcript_entry ts role content) ++ rest)
  = Some (transcript_entry ts role content, rest).
Proof.
  intros Hts Hrole Hcontent. rewrite entry_text.
  change (5 + fuel)%nat with (S (S (S (S (S fuel))))).
  cbn. rewrite (scan_string_quoted ts _ [] Hts). cbn.
  rewrite (scan_string_quoted role _ [] Hrole). cbn.
  rewrite (scan_string_quoted content _ [] Hcontent). reflexivity.
Qed.

Lemma entry_text_head (repr_float : pyfloat -> str) (v : pyval) :
  transcript_shaped v ->
  exists tail, json_dumps_indent repr_float 1 v = 123 :: tail.
Proof.
  intros (ts & role & content & -> & _).
  pose proof (entry_text repr_float ts role content []) as H.
  rewrite app_nil_r in H. rewrite H. eexists. reflexivity.
Qed.

(** The elements of the list, up to its closing bracket (93). *)
Lemma scan_entries (repr_float : pyfloat -> str) (entries : list pyval) :
  Forall transcript_shaped entries -> entries <> [] ->
  forall (fuel : nat) (acc : list pyval) (rest : str),
    scan_elements (length entries + 5 + fuel)
      (py_join (44 :: 10 :: 32 :: [32])
         (map (json_dumps_indent repr_float 1) entries)
       ++ 10 :: 93 :: rest) acc
    = Some (VList (rev acc ++ entries), rest).
Proof.
  induction 1 as [|entry entries Hentry Hentries IH]; [congruence|].
  intros _ fuel acc rest.
  destruct Hentry as (ts & role & content & -> & Hts & Hrole & Hcontent).
  destruct entries as [|next entries].
  - cbn [map py_join length Nat.add scan_elements].
    rewrite (scan_entry repr_float fuel ts role content _ Hts Hrole Hcontent).
    reflexivity.
  - cbn [map py_join]. rewrite <- !app_assoc.
    replace (length (transcript_entry ts role content :: next :: entries) + 5 + fuel)%nat
      with (S (5 + (length (next :: entries) + fuel))) by (simpl; lia).
    cbn [scan_elements].
    rewrite (scan_entry repr_float _ ts role content _ Hts Hrole Hcontent).
    destruct (entry_text_head repr_float next) as (tail & Hhead).
    { inversion Hentries. assumption. }
    assert (Hskip : forall r,
              skip_ws ((44 :: 10 :: 32 :: [32]) ++ r) = 44 :: 10 :: 32 :: 32 :: r)
      by reflexivity.
    rewrite Hskip. cbv iota.
    assert (Hnext : forall r,
              skip_ws (10 :: 32 :: 32 :: py_join (44 :: 10 :: 32 :: [32])
                         (map (json_dumps_indent repr_float 1) (next :: entries))
                       ++ r)
              = py_join (44 :: 10 :: 32 :: [32])
                  (map (json_dumps_indent repr_float 1) (next :: entries)) ++ r).
    { intros r. cbn [map py_join]. rewrite Hhead.
      destruct entries; reflexivity. }
    rewrite Hnext.
    replace (5 + (length (next :: entries) + fuel))%nat
      with (length (next :: entries) + 5 + fuel)%nat by lia.
    rewrite (IH ltac:(discriminate)). cbn [rev]. rewrite <- app_assoc. reflexivity.
Qed.

Lemma list_text (repr_float : pyfloat -> str) (entries : list pyval) :
  entries <> [] ->
  json_dumps_indent repr_float 0 (VList entries)
  = 91 :: 10 :: 32 :: 32
    :: py_join (44 :: 10 :: 32 :: [32])
         (map (json_dumps_indent repr_float 1) entries)
    ++ 10 :: [93].
Proof. destruct entries; [congruence|]. intros _. reflexivity. Qed.

Lemma join_length (sep : str) (items : list str) :
  Forall (fun x => (1 <= length x)%nat) items ->
  (length items <= length (py_join sep items))%nat.
Proof.
  induction 1 as [|x items Hx Hitems IH]; [simpl; lia|].
  destruct items as [|y items]; [simpl; lia|].
  change (py_join sep (x :: y :: items)) with (x ++ sep ++ py_join sep (y :: items)).
  rewrite !length_app. simpl in *. lia.
Qed.

(** [json.loads] reads back what [json.dumps(items, indent=2)] wrote. *)
Lemma loads_dumps_transcript (repr_float : pyfloat -> str) (entries : list pyval) :
  Forall transcript_shaped entries -> entries <> [] ->
  json_loads (json_dumps_indent repr_float 0 (VList entries))
  = Some (VList entries).
Proof.
  intros Hshaped Hne. rewrite (list_text repr_float entries Hne).
  set (body := py_join (44 :: 10 :: 32 :: [32])
                 (map (json_dumps_indent repr_float 1) entries)).
  assert (Hhead : exists tail, body = 123 :: tail).
  { subst body. destruct entries as [|entry entries]; [congruence|].
    destruct (entry_text_head repr_float entry) as (tail & Hentry).
    { inversion Hshaped. assumption. }
    cbn [map py_join]. rewrite Hentry. destruct entries; eexists; reflexivity. }
  assert (Hlen : (length entries <= length body)%nat).
  { subst body. etransitivity; [|apply join_length].
    - rewrite length_map. reflexivity.
    - apply Forall_map. eapply Forall_impl; [exact Hshaped|].
      intros v Hv. destruct (entry_text_head repr_float v Hv) as (tail & ->).
      simpl. lia. }
  unfold json_loads.
  assert (Hskip : skip_ws (10 :: 32 :: 32 :: body ++ 10 :: [93]) = body ++ 10 :: [93]).
  { destruct Hhead as (tail & ->). reflexivity. }
  change (skip_ws (91 :: 10 :: 32 :: 32 :: body ++ 10 :: [93]))
    with (91 :: 10 :: 32 :: 32 :: body ++ 10 :: [93]).
  cbn [scan_value]. rewrite Hskip.
  assert (Hfirst : exists tail, body ++ 10 :: [93] = 123 :: tail).
  { destruct Hhead as (tail & ->). eexists. reflexivity. }
  destruct Hfirst as (tail & Hfirst). rewrite Hfirst. cbv iota.
  rewrite <- Hfirst. clear tail Hfirst.
  replace (length (91 :: 10 :: 32 :: 32 :: body ++ 10 :: [93]))
    with (length entries + 5 + (length body - length entries + 1))%nat
    by (simpl; rewrite length_app; simpl; lia).
  subst body. rewrite (scan_entries repr_float entries Hshaped Hne).
  reflexivity.
Qed.

Lemma escape_without_cr (c : N) : Forall (fun x => x <> 13) (json_escape_char c).
Proof.
  assert (Hhex : forall n, hex_digit n <> 13).
  { intros n. unfold hex_digit. destruct (n <? 10); lia. }
  unfold json_escape_char, hex4_of.
  repeat match goal with
         | |- context [if ?b then _ else _] => destruct b eqn:?
         end;
    cbv zeta; cbn [app];
    repeat (constructor; try discriminate; try apply Hhex).
  unfold between in *. intros ->. discriminate.
Qed.

Lemma quoted_without_cr (s : str) :
  Forall (fun x => x <> 13) (flat_map json_escape_char s).
Proof.
  induction s as [|c s IH]; [constructor|].
  cbn [flat_map]. apply Forall_app. split; [apply escape_without_cr | exact IH].
Qed.

Lemma join_without_cr (sep : str) (items : list str) :
  Forall (fun x => x <> 13) sep ->
  Forall (Forall (fun x => x <> 13)) items ->
  Forall (fun x => x <> 13) (py_join sep items).
Proof.
  intros Hsep. induction 1 as [|x items Hx Hitems IH]; [constructor|].
  destruct items as [|y items]; [exact Hx|].
  change (py_join sep (x :: y :: items)) with (x ++ sep ++ py_join sep (y :: items)).
  apply Forall_app. split; [exact Hx|]. apply Forall_app. split; assumption.
Qed.

(** The text [_write_all] writes holds no carriage return, so reading it in
    text mode changes nothing. *)
Lemma transcript_without_cr (repr_float : pyfloat -> str) (entries : list pyval) :
  Forall transcript_shaped entries -> entries <> [] ->
  ~ In 13 (json_dumps_indent repr_float 0 (VList entries)).
Proof.
  intros Hshaped Hne. rewrite (list_text repr_float entries Hne).
  assert (Hall : Forall (fun x => x <> 13)
                   (91 :: 10 :: 32 :: 32
                    :: py_join (44 :: 10 :: 32 :: [32])
                         (map (json_dumps_indent repr_float 1) entries)
                    ++ 10 :: [93])).
  { do 4 (constructor; [discriminate|]). apply Forall_app. split.
    - apply join_without_cr; [repeat (constructor; try discriminate)|].
      apply Forall_map. eapply Forall_impl; [exact Hshaped|].
      intros v (ts & role & content & -> & _).
      pose proof (entry_text repr_float ts role content []) as Htext.
      rewrite app_nil_r in Htext. rewrite Htext.
      repeat first [ constructor; [discriminate|]
                   | apply Forall_app; split; [apply quoted_without_cr|]
                   | solve [constructor] ].
    - repeat (constructor; try discriminate). }
  intros Hin. rewrite Forall_forall in Hall.
  apply (Hall 13); [apply list_elem_of_In; exact Hin | reflexivity].
Qed.

(** What [append] wrote is what [_read_all] finds. *)
Lemma append_read_back (host : Host) (utc_now : world -> str) (self : Path)
    (role content : str) (entries : list pyval) (w w' : world) :
  _read_all host self w = (Ok (VList entries), w) ->
  Forall transcript_shaped entries ->
  scalar_text (utc_now w) -> scalar_text role -> scalar_text content ->
  append host utc_now self role content w = (Ok tt, w') ->
  _read_all host self w'
  = (Ok (VList (entries ++ [transcript_entry (utc_now w) role content])), w').
Proof.
  intros Hread Hshaped Hts Hrole Hcontent Happend.
  set (items := entries ++ [transcript_entry (utc_now w) role content]).
  assert (Hitems : Forall transcript_shaped items).
  { apply Forall_app. split; [exact Hshaped|]. constructor; [|constructor].
    exists (utc_now w), role, content. repeat split; assumption. }
  assert (Hne : items <> []).
  { subst items. destruct entries; discriminate. }
  set (text := json_dumps_indent (repr_float host) 0 (VList items)).
  assert (Hwrite : write_text host self (VStr text) w = (Ok tt, w')).
  { unfold append, bind in Happend. rewrite Hread in Happend.
    unfold get_world in Happend. exact Happend. }
  apply write_text_ok in Hwrite as (bytes & Henc & Hunder & Hkey & ->).
  destruct (read_back host self text bytes w Henc Hunder Hkey) as [Hexists Htext].
  cbv zeta in Hexists, Htext.
  rewrite (universal_newlines_plain text) in Htext
    by (apply transcript_without_cr; assumption).
  unfold _read_all, bind at 1. rewrite Hexists. cbn [negb].
  unfold try_except, bind. rewrite Htext.
  subst text. rewrite (loads_dumps_transcript _ items Hitems Hne). reflexivity.
Qed.



(** X20.  A store whose file [json.loads] rejects, the text being within the
    limits of [json.loads], is taken for an empty one, and its content is
    lost with the next entry: [recent] returns nothing, and after an
    [append] that returns, the store holds the new entry alone.  Beyond
    those limits [json.loads] can raise an exception that is no
    [JSONDecodeError], which [_read_all] does not catch. *)
Theorem corrupt_store_is_replaced (host : Host) (utc_now : world -> str)
    (self : Path) (role content text : str) (count : Z) (w w' : world) :
  path_exists self w = (Ok true, w) ->
  read_text host self w = (Ok text, w) ->
  within_loads_limits text = true ->
  json_loads text = None ->
  scalar_text (utc_now w) -> scalar_text role -> scalar_text content ->
  append host utc_now self role content w = (Ok tt, w') ->
  recent host self count w = (Ok (VList []), w)
  /\ _read_all host self w'
     = (Ok (VList [transcript_entry (utc_now w) role content]), w').
Proof.
  intros Hexists Hread _ Hjson Hts Hrole Hcontent Happend.
  split; [apply (recent_empty_on_invalid_json host self count text w); assumption|].
  apply (append_read_back host utc_now self role content [] w w');
    try assumption; [|constructor].
  unfold _read_all, bind, try_except. rewrite Hexists. cbn [negb].
  rewrite Hread, Hjson. reflexivity.
Qed.

Lemma corrupt_store_is_replaced_by_hello :
  recent answering_host sample_memory 8 (world_with_memory (lit "{not json"))
  = (Ok (VList []), world_with_memory (lit "{not json"))
  /\ _read_all answering_host sample_memory
       (snd (append answering_host (fun _ => lit "2026-01-01T00:00:00+00:00")
               sample_memory (lit "user") (lit "hello")
               (world_with_memory (lit "{not json"))))
     = (Ok (VList [transcript_entry (lit "2026-01-01T00:00:00+00:00")
                     (lit "user") (lit "hello")]),
        snd (append answering_host (fun _ => lit "2026-01-01T00:00:00+00:00")
               sample_memory (lit "user") (lit "hello")
               (world_with_memory (lit "{not json")))).
Proof.
  apply (corrupt_store_is_replaced answering_host
           (fun _ => lit "2026-01-01T00:00:00+00:00") sample_memory
           (lit "user") (lit "hello") (lit "{not json") 8
           (world_with_memory (lit "{not json"))).
  - vm_compute. reflexivity.
  - vm_compute. reflexivity.
  - reflexivity.
  - vm_compute. reflexivity.
  - repeat constructor.
  - repeat constructor.
  - repeat constructor.
  - vm_compute. reflexivity.
Defined.

(** ** Tool calls that cannot fail *)

































(** Both ways are taken: the shell of [answering_host] runs the command,
    that of [absent_shell_host] cannot be started. *)
Example shell_call_returns_or_raises :
  execute_tool answering_host (lit "run_shell") shell_arguments
    sample_workspace empty_world
  = (Ok (json_dumps (repr_float answering_host)
           (VDict [(lit "ok", VBool true); (lit "returncode", VInt 0);
                   (lit "stdout", VStr []); (lit "stderr", VStr [])])),
     mkWorld [lit "home"] ∅ [(lit "git status", lit "/srv/work")] [] 0)
  /\ execute_tool absent_shell_host (lit "run_shell") shell_arguments
       sample_workspace empty_world
     = (Raise (mkExn FileNotFoundError
                 (lit "[Errno 2] No such file or directory: 'powershell'")),
        mkWorld [lit "home"] ∅ [(lit "git status", lit "/srv/work")] [] 0).
Proof. split; vm_compute; reflexivity. Qed.

(** ** A turn after the user's input is stored *)

Lemma history_line_of_entry (host : Host) (ts role content : str) :
  history_line host (transcript_entry ts role content)
  = Ok (role ++ lit ": " ++ content).
Proof. reflexivity. Qed.

Lemma history_lines_of_entries (host : Host) (items : list pyval)
    (lines : list str) (w : world) :
  Forall transcript_shaped items ->
  exists more,
    for_each (fun lines item =>
                line <- lift (history_line host item) ;; ret (lines ++ [line]))
      items lines w = (Ok (lines ++ more), w)
    /\ length more = length items
    /\ forall ts role content before,
         items = before ++ [transcript_entry ts role content] ->
         exists earlier, more = earlier ++ [role ++ lit ": " ++ content].
Proof.
  intros Hitems. revert lines.
  induction Hitems as [|item items (ts & role & content & -> & _) _ IH];
    intros lines.
  - exists []. rewrite app_nil_r. repeat split.
    intros ts role content before H. destruct before; discriminate H.
  - destruct (IH (lines ++ [role ++ lit ": " ++ content]))
      as (more & Hrun & Hlen & Hlast).
    exists ((role ++ lit ": " ++ content) :: more). repeat split.
    + cbn [for_each]. unfold bind at 1. unfold bind at 1. unfold lift at 1.
      rewrite history_line_of_entry. unfold ret at 1.
      rewrite <- app_assoc in Hrun. exact Hrun.
    + simpl. rewrite Hlen. reflexivity.
    + intros ts' role' content' before Heq.
      destruct before as [|b before].
      * destruct items; [|destruct items; discriminate Heq].
        injection Heq as <- <- <-. destruct more; [|discriminate Hlen].
        exists []. reflexivity.
      * injection Heq as _ Heq.
        destruct (Hlast ts' role' content' before Heq) as (earlier & ->).
        exists ((role ++ lit ": " ++ content) :: earlier). reflexivity.
Qed.

Lemma slice_keeps_last {A} (n : Z) (l : list A) (x : A) :
  (0 < n)%Z ->
  exists before,
    slice_from (- n) (l ++ [x]) = before ++ [x]
    /\ (Z.of_nat (length before) < n)%Z
    /\ exists dropped, l = dropped ++ before.
Proof.
  intros Hn. unfold slice_from.
  replace (- n <? 0)%Z with true by (symmetry; apply Z.ltb_lt; lia).
  cbv zeta iota. rewrite length_app. cbn [length].
  set (i := Z.to_nat (Z.max (Z.of_nat (length l + 1) + - n) 0)).
  assert (Hi : (i <= length l)%nat) by (subst i; lia).
  exists (drop i l). rewrite drop_app_le by exact Hi. repeat split.
  - rewrite length_drop. subst i. lia.
  - exists (take i l). symmetry. apply take_drop.
Qed.

(** X22.  A turn sees the input it answers twice.  When the user's input has
    been appended to the store, as [main] does before it runs the turn, the
    third system entry of the turn's input, the recent memory, ends with the
    line [user: <input>], after at most seven earlier lines; the same input
    follows as the user entry. *)
Theorem history_holds_current_input (host : Host) (utc_now : world -> str)
    (user_input : str) (workspace memory : Path) (entries : list pyval)
    (messages : list chat_entry) (w w1 w2 : world) :
  _read_all host memory w = (Ok (VList entries), w) ->
  Forall transcript_shaped entries ->
  scalar_text (utc_now w) -> scalar_text user_input ->
  append host utc_now memory (lit "user") user_input w = (Ok tt, w1) ->
  turn_input host user_input workspace memory w1 = (Ok messages, w2) ->
  exists earlier,
    (length earlier <= 7)%nat
    /\ messages !! 2%nat
       = Some (SystemEntry
                 (lit "Recent memory:" ++ [10]
                  ++ py_join [10] (earlier ++ [lit "user: " ++ user_input])))
    /\ last messages = Some (UserEntry user_input).
Proof.
  intros Hread Hshaped Hts Hinput Happend Hturn.
  assert (Hrole : scalar_text (lit "user")) by (repeat constructor).
  pose proof (append_read_back host utc_now memory (lit "user") user_input
                entries w w1 Hread Hshaped Hts Hrole Hinput Happend) as Hstored.
  set (new := transcript_entry (utc_now w) (lit "user") user_input) in *.
  destruct (slice_keeps_last 8 entries new ltac:(lia))
    as (before & Hslice & Hlen & dropped & Hentries).
  assert (Hrecent : recent host memory 8 w1 = (Ok (VList (before ++ [new])), w1)).
  { unfold recent, bind. rewrite Hstored. cbn [lift py_slice_from].
    rewrite Hslice. reflexivity. }
  assert (Hbefore : Forall transcript_shaped (before ++ [new])).
  { apply Forall_app. split.
    - rewrite Hentries in Hshaped. apply Forall_app in Hshaped as [_ H]. exact H.
    - constructor; [|constructor]. exists (utc_now w), (lit "user"), user_input.
      repeat split; assumption. }
  destruct (history_lines_of_entries host (before ++ [new]) [] w1 Hbefore)
    as (more & Hlines & Hmore & Hlast).
  destruct (Hlast (utc_now w) (lit "user") user_input before eq_refl)
    as (earlier & ->).
  unfold turn_input in Hturn. unfold bind at 1 in Hturn. rewrite Hrecent in Hturn.
  unfold bind at 1 in Hturn. cbn [lift iterate] in Hturn.
  unfold bind at 1 in Hturn. rewrite Hlines in Hturn. cbn [app] in Hturn.
  apply bind_ok in Hturn as (web_context & w3 & _ & Hret).
  injection Hret as <- _.
  exists earlier. split; [|split].
  - rewrite length_app, length_app in Hmore. cbn [length] in Hmore. lia.
  - reflexivity.
  - destruct web_context as [[|c context]|]; reflexivity.
Qed.

Lemma history_holds_question :
  exists earlier,
    (length earlier <= 7)%nat
    /\ [SystemEntry SYSTEM_PROMPT;
        SystemEntry (lit "Workspace: /srv/work");
        SystemEntry (lit "Recent memory:" ++ [10] ++ lit "user: hi" ++ [10]
                     ++ lit "user: ?");
        UserEntry (lit "?")] !! 2%nat
       = Some (SystemEntry
                 (lit "Recent memory:" ++ [10]
                  ++ py_join [10] (earlier ++ [lit "user: " ++ lit "?"])))
    /\ last [SystemEntry SYSTEM_PROMPT;
             SystemEntry (lit "Workspace: /srv/work");
             SystemEntry (lit "Recent memory:" ++ [10] ++ lit "user: hi" ++ [10]
                          ++ lit "user: ?");
             UserEntry (lit "?")]
       = Some (UserEntry (lit "?")).
Proof.
  apply (history_holds_current_input answering_host
           (fun _ => lit "2026-01-01T00:00:00+00:00") (lit "?")
           sample_workspace sample_memory
           [transcript_entry (lit "t") (lit "user") (lit "hi")]
           _
           (world_with_memory one_entry_json)
           (snd (append answering_host
                   (fun _ => lit "2026-01-01T00:00:00+00:00") sample_memory
                   (lit "user") (lit "?") (world_with_memory one_entry_json)))
           (snd (append answering_host
                   (fun _ => lit "2026-01-01T00:00:00+00:00") sample_memory
                   (lit "user") (lit "?") (world_with_memory one_entry_json)))).
  - vm_compute. reflexivity.
  - constructor; [|constructor]. exists (lit "t"), (lit "user"), (lit "hi").
    split; [reflexivity|]. repeat split; repeat constructor.
  - repeat constructor.
  - repeat constructor.
  - vm_compute. reflexivity.
  - vm_compute. reflexivity.
Defined.

(** ** The session *)

(** X23.  The session ends at the first line that says [exit] or [quit], in
    any case and with white space around it.  Lines that are blank before it
    are passed over, and nothing after it is read: the store is not written,
    no request is sent, and what was written is one prompt per line read,
    then [Stopping.]. *)
Theorem session_ends_at_exit (host : Host) (utc_now : world -> str) (fuel : nat)
    (api_mode model : str) (workspace memory : Path)
    (skipped : list str) (stop : str) (rest printed : list str) (w : world) :
  Forall (fun line => py_strip line = []) skipped ->
  In (py_lower (py_strip stop)) [lit "exit"; lit "quit"] ->
  main_loop host utc_now fuel api_mode model workspace memory
    (skipped ++ stop :: rest) printed w
  = (Ok (Returned,
         printed ++ repeat PROMPT (S (length skipped))
         ++ [print_line (lit "Stopping.")]), w).
Proof.
  intros Hskipped Hstop. revert printed.
  induction Hskipped as [|line skipped Hline _ IH]; intros printed.
  - cbn [app main_loop length repeat].
    assert (Hne : nonempty (py_strip stop) = true).
    { destruct (py_strip stop); [|reflexivity].
      destruct Hstop as [H | [H | []]]; discriminate H. }
    rewrite Hne. cbn [negb].
    apply str_in_In in Hstop. rewrite Hstop.
    rewrite <- app_assoc. reflexivity.
  - cbn [app main_loop]. rewrite Hline. cbn [nonempty negb].
    rewrite IH. rewrite <- app_assoc. reflexivity.
Qed.

Lemma session_ends_at_quit :
  main_loop answering_host (fun _ => lit "2026-01-01T00:00:00+00:00") 0
    (lit "chat") (lit "gpt") sample_workspace sample_memory
    ([lit ""; lit "  "] ++ lit " QUIT " :: [lit "hello"]) [] empty_world
  = (Ok (Returned,
         [] ++ repeat PROMPT (S (length [lit ""; lit "  "]))
         ++ [print_line (lit "Stopping.")]), empty_world).
Proof.
  apply (session_ends_at_exit answering_host
           (fun _ => lit "2026-01-01T00:00:00+00:00") 0 (lit "chat") (lit "gpt")
           sample_workspace sample_memory [lit ""; lit "  "] (lit " QUIT ")
           [lit "hello"] [] empty_world).
  - repeat constructor.
  - right. left. reflexivity.
Defined.

Lemma main_loop_never_exits (host : Host) (utc_now : world -> str) (fuel : nat)
    (api_mode model : str) (workspace memory : Path) (lines printed : list str)
    (w w' : world) (code : pyval) (out : list str) :
  main_loop host utc_now fuel api_mode model workspace memory lines printed w
  <> (Ok (SystemExit code, out), w').
Proof.
  revert printed w. induction lines as [|line lines IH]; intros printed w;
    [discriminate|].
  cbn [main_loop]. destruct (negb (nonempty (py_strip line))); [apply IH|].
  destruct (str_in _ _); [discriminate|].
  intros Hrun.
  apply bind_ok in Hrun as (u & w1 & _ & Hrun).
  apply bind_ok in Hrun as (answer & w2 & _ & Hrun).
  destruct answer as [answer|]; [|discriminate Hrun].
  apply bind_ok in Hrun as (u' & w3 & _ & Hrun).
  exact (IH _ _ Hrun).
Qed.

(** X24.  [main] ends with [SystemExit] in exactly two cases, and in both
    before anything else happened: no directory is created, nothing is
    written by [main] and no request is sent.  Either [parser.parse_args()]
    ended the program, on a command line it does not accept or after
    [--help], and the code is its status; or the command line was parsed, no
    API key is set (or an empty one) and the base URL names no local
    endpoint, and the code is the message of [main]. *)
Theorem main_refuses_only_without_key (host : Host) (utc_now : world -> str)
    (fuel : nat) (parsed : parse_outcome) (api_key : option str)
    (lines : list str) (w w' : world) (code : pyval) (out : list str) :
  main host utc_now fuel parsed api_key lines w = (Ok (SystemExit code, out), w')
  <-> ((exists status, parsed = ParseExit status out /\ code = VInt status)
       \/ (exists args,
             parsed = Parsed args
             /\ (api_key = None \/ api_key = Some [])
             /\ local_base_url (args_base_url args) = false
             /\ code = VStr (lit "OPENAI_API_KEY not set. Set it first and retry.")
             /\ out = []))
      /\ w' = w.
Proof.
  unfold main. split.
  - destruct parsed as [status written | args].
    { intros [= <- <- <-]. split; [|reflexivity]. left. exists status.
      split; reflexivity. }
    destruct api_key as [[|c key]|]; cbn [andb];
      destruct (local_base_url (args_base_url args)) eqn:Hlocal;
      cbn [negb andb].
    all: try (intros [= <- <- <-]; split; [|reflexivity]; right; exists args;
              repeat split; auto).
    all: intros Hrun;
      apply bind_ok in Hrun as (w0 & w1 & _ & Hrun);
      apply bind_ok in Hrun as (u & w2 & _ & Hrun);
      apply bind_ok in Hrun as (u' & w3 & _ & Hrun);
      destruct (main_loop_never_exits _ _ _ _ _ _ _ _ _ _ _ _ _ Hrun).
  - intros [[(status & -> & ->) | (args & -> & Hkey & Hlocal & -> & ->)] ->].
    + reflexivity.
    + rewrite Hlocal. destruct Hkey as [-> | ->]; reflexivity.
Qed.
